(** * Ransomware-activity detector: a shallow embedding of
      [detector_ransomware_SOLUCION.py] and the properties of its core.

    The program walks a directory tree, flags the files whose name carries a
    ransomware-style extension or whose leading bytes have a high Shannon
    entropy, moves the flagged files to a quarantine directory and prints a
    report.

    Modelling conventions.
    - A Python [str] holding a file name is a [string]; names are ASCII, so
      that [str.lower], the case-insensitive regular expression and its
      [\w] act on ASCII letters, digits and the underscore only.  Names with
      other characters are outside the model.
    - A [pathlib.Path] is the list of its components below the root [/]; the
      components are valid file names (non-empty, without [/] or NUL).  The
      [ruta] entry of a finding, which the program stores as [str(path)] and
      reads back with [Path(...)], is kept as the path itself.
    - A Python [float] is a real number: the arithmetic of [calcular_entropia]
      is carried out exactly, in the summation order of the source.  The
      value the program computes differs from it by the rounding of the
      divisions, logarithms and additions; the properties stated of the
      entropy are those that do not depend on that rounding.
    - The file system is a finite map from paths to nodes, the wall clock a
      sequence of formatted readings, standard output a list of lines.  Every
      exception a file-system call raises in this model is an [OSError].
    - What the map does not show (permissions to write or to search a
      directory, device boundaries, a full disk) is a table of the calls the
      operating system refuses, part of the world: the quarantine step is
      studied for every such table.  A file or a tree is copied whole or not
      at all. *)

From stdpp Require Import gmap strings list fin_maps.
From Stdlib Require Import ZArith Strings.Ascii Strings.Byte Reals Lra Lia.

Local Open Scope Z_scope.

(** ** Python strings *)

Module PyStr.

(** [str.lower] on one ASCII character. *)
Definition lower_ascii (c : ascii) : ascii :=
  let n := N_of_ascii c in
  if ((65 <=? n) && (n <=? 90))%N then ascii_of_N (n + 32) else c.

(** [s.lower()] *)
Fixpoint lower (s : string) : string :=
  match s with
  | EmptyString => EmptyString
  | String c r => String (lower_ascii c) (lower r)
  end.

(** [s.rfind(c)]: index of the last occurrence of [c], [-1] when absent. *)
Fixpoint rfind (s : string) (c : ascii) : Z :=
  match s with
  | EmptyString => -1
  | String a r =>
      let i := rfind r c in
      if 0 <=? i then i + 1 else if Ascii.eqb a c then 0 else -1
  end.

(** [len(s)] *)
Definition len (s : string) : Z := Z.of_nat (String.length s).

(** [s[i:]] for [0 <= i]. *)
Fixpoint desde (i : nat) (s : string) : string :=
  match i, s with
  | O, _ => s
  | S _, EmptyString => EmptyString
  | S j, String _ r => desde j r
  end.

(** [s[:i]] for [0 <= i]. *)
Fixpoint hasta (i : nat) (s : string) : string :=
  match i, s with
  | O, _ => EmptyString
  | S _, EmptyString => EmptyString
  | S j, String a r => String a (hasta j r)
  end.

(** [s.startswith(pre)] *)
Fixpoint startswith (pre s : string) : bool :=
  match pre, s with
  | EmptyString, _ => true
  | String _ _, EmptyString => false
  | String a p, String b r => Ascii.eqb a b && startswith p r
  end.

(** [all(f(c) for c in s)] *)
Fixpoint todos (f : ascii → bool) (s : string) : bool :=
  match s with
  | EmptyString => true
  | String a r => f a && todos f r
  end.

(** [sep.join(l)] *)
Fixpoint join (sep : string) (l : list string) : string :=
  match l with
  | [] => ""
  | [x] => x
  | x :: r => x +:+ sep +:+ join sep r
  end.

End PyStr.

(** ** pathlib *)

(** A path is the list of its components below the root; [[]] is [/]. *)
Abbreviation Path := (list string).

(** [p.name]: the final component, [""] for the root. *)
Definition Path_name (p : Path) : string := List.last p "".

(** [p.parent] *)
Definition Path_parent (p : Path) : Path := removelast p.

(** [p / s]: joining with an empty string leaves the path as it is. *)
Definition barra (p : Path) (s : string) : Path :=
  if decide (s = "") then p else p ++ [s].

(** [p.suffix] (pathlib up to Python 3.13):
    [i = name.rfind('.'); name[i:] if 0 < i < len(name) - 1 else ''] *)
Definition Path_suffix (p : Path) : string :=
  let name := Path_name p in
  let i := PyStr.rfind name "." in
  if (0 <? i) && (i <? PyStr.len name - 1) then PyStr.desde (Z.to_nat i) name
  else "".

(** [p.stem]: [name[:i] if 0 < i < len(name) - 1 else name] *)
Definition Path_stem (p : Path) : string :=
  let name := Path_name p in
  let i := PyStr.rfind name "." in
  if (0 <? i) && (i <? PyStr.len name - 1) then PyStr.hasta (Z.to_nat i) name
  else name.

(** [str(p)] for an absolute POSIX path. *)
Definition str (p : Path) : string :=
  match p with
  | [] => "/"
  | _ => String.concat "" (map (λ c, "/" +:+ c) p)
  end.

(** ** The file system, the clock and standard output *)

(** What [stat] and [open] see at a path.  A regular file has contents and may
    be unreadable; a directory may be unlistable (no read permission: its
    entries can still be reached by name) and reports some [st_size]. *)
Inductive nodo : Type :=
  | Fichero (contenido : list byte) (legible : bool)
  | Directorio (listable : bool) (st_size : Z).

Global Instance byte_eq_dec : EqDecision byte := Byte.byte_eq_dec.

Global Instance nodo_eq_dec : EqDecision nodo.
Proof. solve_decision. Defined.

Abbreviation FS := (gmap Path nodo).

(** The [OSError] subclasses raised by the file-system calls of the model. *)
Inductive OSError : Type :=
  | FileNotFoundError (p : Path)
  | IsADirectoryError (p : Path)
  | NotADirectoryError (p : Path)
  | FileExistsError (p : Path)
  | PermissionError (p : Path)
  | ShutilError (mensaje : string).

(** [str(e)] *)
Definition str_error (e : OSError) : string :=
  match e with
  | FileNotFoundError p => "[Errno 2] No such file or directory: '" +:+ str p +:+ "'"
  | IsADirectoryError p => "[Errno 21] Is a directory: '" +:+ str p +:+ "'"
  | NotADirectoryError p => "[Errno 20] Not a directory: '" +:+ str p +:+ "'"
  | FileExistsError p => "[Errno 17] File exists: '" +:+ str p +:+ "'"
  | PermissionError p => "[Errno 13] Permission denied: '" +:+ str p +:+ "'"
  | ShutilError m => m
  end.

(** The outcome of a call that may raise. *)
Inductive resultado (A : Type) : Type :=
  | Vale (a : A)
  | Lanza (e : OSError).
Arguments Vale {A} a.
Arguments Lanza {A} e.

(** The node at a path; the root always is a listable directory. *)
Definition nodo_en (fs : FS) (p : Path) : option nodo :=
  match p with
  | [] => Some (Directorio true 4096)
  | _ => fs !! p
  end.

(** Something is at [p]: what [os.path.exists(p)] answers, which reads every
    error as "not there". *)
Definition existe (fs : FS) (p : Path) : bool :=
  match nodo_en fs p with Some _ => true | None => false end.

(** [os.path.isdir(p)] *)
Definition es_dir (fs : FS) (p : Path) : bool :=
  match nodo_en fs p with Some (Directorio _ _) => true | _ => false end.

(** A file system is well formed when the parent of every entry is a
    directory. *)
Definition bien_formado (fs : FS) : bool :=
  forallb (λ kv, es_dir fs (Path_parent kv.1) && bool_decide (kv.1 ≠ []))
          (map_to_list fs).

(** [with p.open("rb") as f: datos = f.read(n)]: the first [n] bytes, fewer
    when the file is shorter. *)
Definition abrir_y_leer (fs : FS) (p : Path) (n : N) : resultado (list byte) :=
  match nodo_en fs p with
  | None => Lanza (FileNotFoundError p)
  | Some (Directorio _ _) => Lanza (IsADirectoryError p)
  | Some (Fichero contenido legible) =>
      if legible then Vale (take (N.to_nat n) contenido)
      else Lanza (PermissionError p)
  end.

(** [p.stat().st_size] *)
Definition stat_st_size (fs : FS) (p : Path) : resultado Z :=
  match nodo_en fs p with
  | None => Lanza (FileNotFoundError p)
  | Some (Directorio _ tam) => Vale tam
  | Some (Fichero contenido _) => Vale (Z.of_nat (length contenido))
  end.

(** *** [os.walk] *)

(** [os.scandir(top)]: the entries whose parent is [top], with their nodes.
    The order is the one the file system gives, here the order of the map. *)
Definition scandir (fs : FS) (top : Path) : list (string * nodo) :=
  omap (λ kv : Path * nodo,
          if decide (kv.1 ≠ [] ∧ Path_parent kv.1 = top)
          then Some (Path_name kv.1, kv.2) else None)
       (map_to_list fs).

Definition es_directorio (e : string * nodo) : bool :=
  match e.2 with Directorio _ _ => true | Fichero _ _ => false end.

(** [os.walk(top)] top-down with [onerror=None]: a directory that cannot be
    listed (absent, not a directory, or unreadable) is skipped in silence.
    [n] bounds the depth of the descent. *)
Fixpoint walk (n : nat) (fs : FS) (top : Path)
  : list (Path * list string * list string) :=
  match n with
  | O => []
  | S m =>
      match nodo_en fs top with
      | Some (Directorio true _) =>
          let entradas := scandir fs top in
          let dirs := map fst (filter (λ e, es_directorio e = true) entradas) in
          let nondirs := map fst (filter (λ e, es_directorio e = false) entradas) in
          (top, dirs, nondirs) :: flat_map (λ d, walk m fs (top ++ [d])) dirs
      | _ => []
      end
  end.

(** The length of the longest path of the file system. *)
Definition profundidad (fs : FS) : nat :=
  max_list (map (λ kv : Path * nodo, length kv.1) (map_to_list fs)).

(** No descent is deeper than the longest path (see [walk_profundidad]). *)
Definition os_walk (fs : FS) (top : Path) : list (Path * list string * list string) :=
  walk (S (profundidad fs)) fs top.

(** *** What the operating system refuses *)

(** The system calls of the quarantine step.  Each of them can fail for a
    reason the map of the file system does not show: no permission to write
    or to search a directory, source and destination on two devices, no
    space left. *)
Inductive llamada : Type :=
  | LlStat (p : Path)              (* [os.stat(p)], behind [Path.exists] *)
  | LlMkdir (p : Path)             (* [os.mkdir(p)] *)
  | LlRename (src dst : Path)      (* [os.rename(src, dst)] *)
  | LlCopy (src dst : Path)        (* creating and writing [dst] from [src] *)
  | LlCopystat (src dst : Path)    (* [copystat(src, dst)], the end of [copy2] *)
  | LlUnlink (p : Path).           (* [os.unlink(p)], [rmtree(p)] *)

(** The calls that are refused, each with the error it raises. *)
Definition Veto : Type := llamada → option OSError.

(** Nothing is refused: a privileged process on a single device. *)
Definition sin_veto : Veto := λ _, None.

(** *** [Path.mkdir] *)

(** [os.mkdir(p)]: the errors the map shows come first, as the kernel finds
    them on the way to [p]. *)
Definition os_mkdir (veto : Veto) (fs : FS) (p : Path) : resultado FS :=
  if existe fs p then Lanza (FileExistsError p)
  else match nodo_en fs (Path_parent p) with
       | None => Lanza (FileNotFoundError p)
       | Some (Fichero _ _) => Lanza (NotADirectoryError p)
       | Some (Directorio _ _) =>
           match veto (LlMkdir p) with
           | Some e => Lanza e
           | None => Vale (<[p := Directorio true 4096]> fs)
           end
       end.

(** [p.mkdir(parents=False, exist_ok=True)] *)
Definition Path_mkdir_hoja (veto : Veto) (fs : FS) (p : Path) : resultado FS :=
  match os_mkdir veto fs p with
  | Vale fs' => Vale fs'
  | Lanza (FileNotFoundError q) => Lanza (FileNotFoundError q)
  | Lanza e => if es_dir fs p then Vale fs else Lanza e
  end.

(** [p.mkdir(parents=True, exist_ok=True)], by recursion on the components of
    [p] read from the last one: on [FileNotFoundError] the parent is made
    first, then the directory itself. *)
Fixpoint Path_mkdir_rev (veto : Veto) (fs : FS) (rp : list string) : resultado FS :=
  let p := rev rp in
  match os_mkdir veto fs p with
  | Vale fs' => Vale fs'
  | Lanza (FileNotFoundError q) =>
      match rp with
      | [] => Lanza (FileNotFoundError q)
      | _ :: rpadre =>
          match Path_mkdir_rev veto fs rpadre with
          | Vale fs' => Path_mkdir_hoja veto fs' p
          | Lanza e => Lanza e
          end
      end
  | Lanza e => if es_dir fs p then Vale fs else Lanza e
  end.

Definition Path_mkdir (veto : Veto) (fs : FS) (p : Path) : resultado FS :=
  Path_mkdir_rev veto fs (rev p).

(** *** [shutil.move] *)

(** [src] is [p] or lies below it. *)
Definition bajo (src p : Path) : bool := bool_decide (src `prefix_of` p).

(** The tree rooted at [src] re-rooted at [dst]. *)
Definition mover_arbol (fs : FS) (src dst : Path) : FS :=
  list_to_map
    (map (λ kv : Path * nodo, (dst ++ drop (length src) kv.1, kv.2))
         (filter (λ kv : Path * nodo, bajo src kv.1 = true) (map_to_list fs)))
  ∪ filter (λ kv : Path * nodo, bajo src kv.1 = false) fs.

(** The tree rooted at [src] copied to [dst], the source staying. *)
Definition copiar_arbol (fs : FS) (src dst : Path) : FS :=
  list_to_map
    (map (λ kv : Path * nodo, (dst ++ drop (length src) kv.1, kv.2))
         (filter (λ kv : Path * nodo, bajo src kv.1 = true) (map_to_list fs)))
  ∪ fs.

(** What a call of [shutil.move] leaves: it returned, or it raised, and the
    file system is as the call left it. *)
Inductive movimiento : Type :=
  | Movido (fs : FS)
  | Fallido (e : OSError) (fs : FS).

(** [os.rename(src, real_dst)] goes through for a regular file. *)
Definition rename_fichero (veto : Veto) (fs : FS) (src real_dst : Path) : bool :=
  es_dir fs (Path_parent real_dst) &&
  bool_decide (veto (LlRename src real_dst) = None).

(** [os.rename(src, real_dst)] goes through for a directory. *)
Definition rename_directorio (veto : Veto) (fs : FS) (src dst real_dst : Path) : bool :=
  es_dir fs (Path_parent real_dst) && negb (bajo src dst) &&
  negb (existe fs real_dst) &&
  bool_decide (veto (LlRename src real_dst) = None).

(** [shutil.move(src, dst)].  A destination that is a directory receives the
    source under its own name, unless that name is taken.  The move is an
    [os.rename]; a file replaces a file already at the destination, a
    directory goes with its tree.  When the rename fails, whatever the error,
    the source is copied ([copy2] for a file, [copytree] for a directory,
    which makes the missing parents of the destination) and then removed:
    a refusal between the two leaves the source in both places. *)
Definition shutil_move (veto : Veto) (fs : FS) (src dst : Path) : movimiento :=
  if es_dir fs dst && bool_decide (src = dst) then Movido fs
  else
    let real_dst := if es_dir fs dst then barra dst (Path_name src) else dst in
    if es_dir fs dst && existe fs real_dst then
      Fallido (ShutilError ("Destination path '" +:+ str real_dst +:+
                            "' already exists")) fs
    else
      match nodo_en fs src with
      | None => Fallido (FileNotFoundError src) fs
      | Some (Fichero contenido legible) =>
          if rename_fichero veto fs src real_dst then
            Movido (<[real_dst := Fichero contenido legible]> (delete src fs))
          else if bool_decide (src = real_dst) then
            Fallido (ShutilError ("'" +:+ str src +:+ "' and '" +:+ str real_dst +:+
                                  "' are the same file")) fs
          else if negb legible then Fallido (PermissionError src) fs
          else
            match nodo_en fs (Path_parent real_dst) with
            | None => Fallido (FileNotFoundError real_dst) fs
            | Some (Fichero _ _) => Fallido (NotADirectoryError real_dst) fs
            | Some (Directorio _ _) =>
                match veto (LlCopy src real_dst) with
                | Some e => Fallido e fs
                | None =>
                    let fs := <[real_dst := Fichero contenido true]> fs in
                    match veto (LlCopystat src real_dst) with
                    | Some e => Fallido e fs
                    | None =>
                        match veto (LlUnlink src) with
                        | Some e => Fallido e fs
                        | None => Movido (delete src fs)
                        end
                    end
                end
            end
      | Some (Directorio listable _) =>
          if rename_directorio veto fs src dst real_dst then
            Movido (mover_arbol fs src real_dst)
          else if bajo src dst then
            Fallido (ShutilError ("Cannot move a directory '" +:+ str src +:+
                                  "' into itself '" +:+ str dst +:+ "'.")) fs
          else if negb listable then Fallido (PermissionError src) fs
          else if existe fs real_dst then Fallido (FileExistsError real_dst) fs
          else
            match veto (LlCopy src real_dst) with
            | Some e => Fallido e fs
            | None =>
                match Path_mkdir veto fs real_dst with
                | Lanza e => Fallido e fs
                | Vale fs =>
                    match veto (LlUnlink src) with
                    | Some e => Fallido e (copiar_arbol fs src real_dst)
                    | None => Movido (mover_arbol fs src real_dst)
                    end
                end
            end
      end.

(** *** The world *)

(** The dictionary [analizar_fichero] returns. *)
Record info : Type := {
  ruta : Path;
  tamano : Z;
  entropia : option R;
  motivos : list string
}.

(** The state the program runs in: the file system, the calls the system
    refuses, the wall clock as the sequence of its readings already formatted
    by [strftime("%Y%m%d%H%M%S")], the number of readings taken so far, the
    lines printed, and the list object bound to [sospechosos]: Python hands
    the object itself to [mover_a_cuarentena] and to [mostrar_informe], so a
    change made to it by the first would show in the second. *)
Record Mundo : Type := {
  mundo_fs : FS;
  mundo_veto : Veto;
  mundo_reloj : nat → string;
  mundo_lecturas : nat;
  mundo_salida : list string;
  mundo_hallazgos : list info
}.

Definition con_fs (w : Mundo) (fs : FS) : Mundo :=
  {| mundo_fs := fs; mundo_veto := mundo_veto w; mundo_reloj := mundo_reloj w;
     mundo_lecturas := mundo_lecturas w; mundo_salida := mundo_salida w;
     mundo_hallazgos := mundo_hallazgos w |}.

(** [sospechosos = ...] *)
Definition con_hallazgos (w : Mundo) (sospechosos : list info) : Mundo :=
  {| mundo_fs := mundo_fs w; mundo_veto := mundo_veto w;
     mundo_reloj := mundo_reloj w; mundo_lecturas := mundo_lecturas w;
     mundo_salida := mundo_salida w; mundo_hallazgos := sospechosos |}.

(** [print(linea)] *)
Definition print (linea : string) (w : Mundo) : Mundo :=
  {| mundo_fs := mundo_fs w; mundo_veto := mundo_veto w;
     mundo_reloj := mundo_reloj w; mundo_lecturas := mundo_lecturas w;
     mundo_salida := mundo_salida w ++ [linea];
     mundo_hallazgos := mundo_hallazgos w |}.

(** [datetime.now().strftime("%Y%m%d%H%M%S")] *)
Definition datetime_now (w : Mundo) : string * Mundo :=
  (mundo_reloj w (mundo_lecturas w),
   {| mundo_fs := mundo_fs w; mundo_veto := mundo_veto w;
      mundo_reloj := mundo_reloj w; mundo_lecturas := S (mundo_lecturas w);
      mundo_salida := mundo_salida w; mundo_hallazgos := mundo_hallazgos w |}).

(** [p.exists()] (pathlib up to Python 3.13) is [os.stat(p)] with the errors
    ENOENT and ENOTDIR read as "not there" and every other error raised
    again.  The entries of the root can always be examined; looking inside
    another directory is a call the system can refuse. *)
Definition Path_exists (w : Mundo) (p : Path) : resultado bool :=
  if es_dir (mundo_fs w) (Path_parent p) &&
     negb (bool_decide (Path_parent p = [])) then
    match mundo_veto w (LlStat p) with
    | Some e => Lanza e
    | None => Vale (existe (mundo_fs w) p)
    end
  else Vale (existe (mundo_fs w) p).

(** ** The program *)

(** *** 1. Global configuration *)

Definition RUTA_BASE : Path := ["Compartido"].

Definition RUTA_CUARENTENA : Path := ["cuarentena_ransomware"].

Definition MAX_BYTES_LECTURA : N := 64 * 1024.

Definition UMBRAL_ENTROPIA : R := 7.5%R.

(** [PATRON_EXTENSION_SOSPECHOSA]:
    [\.(locked|encrypted|crypto|enc|encrypted_\w+|deadbolt)$] with
    [re.IGNORECASE].  The alternatives that are plain words: *)
Definition PALABRAS_PATRON : list string :=
  ["locked"; "encrypted"; "crypto"; "enc"; "deadbolt"].

(** [\w] on ASCII: a letter, a digit or the underscore. *)
Definition es_palabra (c : ascii) : bool :=
  let n := N_of_ascii c in
  (((48 <=? n) && (n <=? 57)) || ((65 <=? n) && (n <=? 90)) ||
   ((97 <=? n) && (n <=? 122)) || (n =? 95))%N.

(** The group [(locked|...|encrypted_\w+|deadbolt)] matching the whole of
    [cuerpo], letters compared without case. *)
Definition casa_grupo (cuerpo : string) : bool :=
  let c := PyStr.lower cuerpo in
  existsb (String.eqb c) PALABRAS_PATRON ||
  (PyStr.startswith "encrypted_" c &&
   (10 <? PyStr.len cuerpo) &&
   PyStr.todos es_palabra (PyStr.desde 10 cuerpo)).

(** The group followed by [$]: at the end of the string, or just before a
    newline that ends the string. *)
Definition casa_hasta_el_final (resto : string) : bool :=
  casa_grupo resto ||
  (let n := String.length resto in
   String.eqb (PyStr.desde (n - 1) resto) (String "010"%char "") &&
   casa_grupo (PyStr.hasta (n - 1) resto)).

(** [PATRON_EXTENSION_SOSPECHOSA.search(nombre)]: the pattern tried at every
    position of [nombre]. *)
Fixpoint patron_search (nombre : string) : bool :=
  match nombre with
  | EmptyString => false
  | String c r =>
      (Ascii.eqb c "."%char && casa_hasta_el_final r) || patron_search r
  end.

(** *** 2. Auxiliary functions *)

(** [math.log2] *)
Definition math_log2 (x : R) : R := (ln x / ln 2)%R.

(** [frecuencias = [0] * 256; for b in datos: frecuencias[b] += 1] *)
Definition contar_frecuencias (datos : list byte) : list nat :=
  foldl (λ frecuencias b, alter S (Byte.to_nat b) frecuencias)
        (replicate 256 0%nat) datos.

(** One turn of the loop [for freq in frecuencias]. *)
Definition acumular (longitud : nat) (entropia : R) (freq : nat) : R :=
  if (freq =? 0)%nat then entropia
  else
    let p := (INR freq / INR longitud)%R in
    (entropia - p * math_log2 p)%R.

(** The body of [calcular_entropia] once [datos] has been read. *)
Definition entropia_de (datos : list byte) : R :=
  match datos with
  | [] => 0%R
  | _ =>
      let frecuencias := contar_frecuencias datos in
      let longitud := length datos in
      foldl (acumular longitud) 0%R frecuencias
  end.

Definition calcular_entropia (fs : FS) (ruta_fichero : Path) : option R :=
  match abrir_y_leer fs ruta_fichero MAX_BYTES_LECTURA with
  | Lanza _ => None
  | Vale datos => Some (entropia_de datos)
  end.

Definition extension_sospechosa (ruta_fichero : Path) : bool :=
  let nombre := Path_name ruta_fichero in
  patron_search nombre.

Global Instance Rge_decision (x y : R) : Decision (x >= y)%R := Rge_dec x y.

(** [entropia is not None and entropia >= UMBRAL_ENTROPIA] *)
Definition supera_umbral (entropia : option R) : bool :=
  match entropia with
  | None => false
  | Some e => bool_decide (e >= UMBRAL_ENTROPIA)%R
  end.

Definition analizar_fichero (fs : FS) (ruta_fichero : Path) : option info :=
  let motivos := [] in
  let motivos :=
    if extension_sospechosa ruta_fichero then motivos ++ ["extension"]
    else motivos in
  let entropia := calcular_entropia fs ruta_fichero in
  let motivos :=
    if supera_umbral entropia then motivos ++ ["entropia"] else motivos in
  match motivos with
  | [] => None
  | _ =>
      let tamano :=
        match stat_st_size fs ruta_fichero with
        | Vale t => t
        | Lanza _ => -1
        end in
      Some {| ruta := ruta_fichero; tamano := tamano;
              entropia := entropia; motivos := motivos |}
  end.

(** The extensions [recorrer_directorio] leaves out. *)
Definition EXTENSIONES_IGNORADAS : list string := [".jpg"; ".jpeg"; ".png"; ".gif"].

(** [ruta_fichero.suffix.lower() in [".jpg", ".jpeg", ".png", ".gif"]] *)
Definition ignorado (ruta_fichero : Path) : bool :=
  bool_decide (PyStr.lower (Path_suffix ruta_fichero) ∈ EXTENSIONES_IGNORADAS).

(** The inner loop [for nombre_archivo in archivos]. *)
Fixpoint recorrer_archivos (fs : FS) (carpeta_path : Path)
    (archivos : list string) (sospechosos : list info) : list info :=
  match archivos with
  | [] => sospechosos
  | nombre_archivo :: resto =>
      let ruta_fichero := barra carpeta_path nombre_archivo in
      if ignorado ruta_fichero then
        recorrer_archivos fs carpeta_path resto sospechosos
      else
        match analizar_fichero fs ruta_fichero with
        | Some info => recorrer_archivos fs carpeta_path resto (sospechosos ++ [info])
        | None => recorrer_archivos fs carpeta_path resto sospechosos
        end
  end.

(** The outer loop [for carpeta, subcarpetas, archivos in os.walk(RUTA_BASE)]. *)
Fixpoint recorrer_carpetas (fs : FS)
    (tripletas : list (Path * list string * list string))
    (sospechosos : list info) : list info :=
  match tripletas with
  | [] => sospechosos
  | (carpeta, _, archivos) :: resto =>
      recorrer_carpetas fs resto (recorrer_archivos fs carpeta archivos sospechosos)
  end.

Definition recorrer_directorio (fs : FS) : list info :=
  recorrer_carpetas fs (os_walk fs RUTA_BASE) [].

(** [if not RUTA_CUARENTENA.exists(): RUTA_CUARENTENA.mkdir(parents=True, exist_ok=True)]:
    no [try] around it, what either call raises leaves the function. *)
Definition asegurar_cuarentena (w : Mundo) : resultado Mundo :=
  match Path_exists w RUTA_CUARENTENA with
  | Lanza e => Lanza e
  | Vale true => Vale w
  | Vale false =>
      match Path_mkdir (mundo_veto w) (mundo_fs w) RUTA_CUARENTENA with
      | Vale fs' => Vale (con_fs w fs')
      | Lanza e => Lanza e
      end
  end.

(** The destination of one finding once [destino.exists()] has answered:
    [RUTA_CUARENTENA / origen.name], and when that exists
    [RUTA_CUARENTENA / f"{destino.stem}_{timestamp}{destino.suffix}"]. *)
Definition elegir_destino (origen : Path) (w : Mundo) : Path * Mundo :=
  let destino := barra RUTA_CUARENTENA (Path_name origen) in
  if existe (mundo_fs w) destino then
    let '(timestamp, w) := datetime_now w in
    (barra RUTA_CUARENTENA
           (Path_stem destino +:+ "_" +:+ timestamp +:+ Path_suffix destino), w)
  else (destino, w).

(** [f"[!] Error al mover {origen} a cuarentena: {e}"] *)
Definition linea_error (origen : Path) (e : OSError) : string :=
  "[!] Error al mover " +:+ str origen +:+ " a cuarentena: " +:+ str_error e.

(** The loop [for info in sospechosos] of [mover_a_cuarentena].  The call
    [destino.exists()] stands before the [try]: what it raises ends the loop
    and the function; what [shutil.move] raises is caught and printed. *)
Fixpoint mover_cada_uno (sospechosos : list info) (destinos : list string)
    (w : Mundo) : resultado (list string * Mundo) :=
  match sospechosos with
  | [] => Vale (destinos, w)
  | info :: resto =>
      let origen := ruta info in
      match Path_exists w (barra RUTA_CUARENTENA (Path_name origen)) with
      | Lanza e => Lanza e
      | Vale _ =>
          let '(destino, w) := elegir_destino origen w in
          match shutil_move (mundo_veto w) (mundo_fs w) origen destino with
          | Movido fs' =>
              mover_cada_uno resto (destinos ++ [str destino]) (con_fs w fs')
          | Fallido e fs' =>
              mover_cada_uno resto destinos (print (linea_error origen e) (con_fs w fs'))
          end
      end
  end.

Definition mover_a_cuarentena (sospechosos : list info) (w : Mundo)
  : resultado (list string * Mundo) :=
  match asegurar_cuarentena w with
  | Lanza e => Lanza e
  | Vale w => mover_cada_uno sospechosos [] w
  end.

(** One row of the table [mostrar_informe] prints: size, entropy or [N/A],
    the reasons joined by commas, the path. *)
Record fila : Type := {
  fila_tamano : Z;
  fila_entropia : option R;
  fila_motivos : string;
  fila_ruta : string
}.

Definition fila_de (i : info) : fila :=
  {| fila_tamano := tamano i; fila_entropia := entropia i;
     fila_motivos := PyStr.join "," (motivos i); fila_ruta := str (ruta i) |}.

(** What [mostrar_informe] shows of the findings: the rows of the table and
    the total.  The date and the duration are left out. *)
Record informe : Type := {
  informe_filas : list fila;
  informe_total : nat
}.

Definition mostrar_informe (sospechosos : list info) : informe :=
  {| informe_filas := map fila_de sospechosos;
     informe_total := length sospechosos |}.

(** *** 3. Entry point *)

Record ejecucion : Type := {
  ej_sospechosos : list info;
  ej_informe : informe;
  ej_destinos : list string;
  ej_mundo : Mundo
}.

(** [sospechosos = recorrer_directorio()],
    [destinos = mover_a_cuarentena(sospechosos)],
    [mostrar_informe(sospechosos, inicio, fin)]: the report reads the list
    object after the quarantine step has had it.  An exception of the
    quarantine step ends the run before any report. *)
Definition main (w : Mundo) : resultado ejecucion :=
  let w := con_hallazgos w (recorrer_directorio (mundo_fs w)) in
  match mover_a_cuarentena (mundo_hallazgos w) w with
  | Lanza e => Lanza e
  | Vale (destinos, w') =>
      Vale {| ej_sospechosos := mundo_hallazgos w';
              ej_informe := mostrar_informe (mundo_hallazgos w');
              ej_destinos := destinos;
              ej_mundo := w' |}
  end.

(** ** Definitions used to state the properties *)

(** The number of bytes of [datos] whose value is [i]. *)
Definition veces (i : nat) (datos : list byte) : nat :=
  length (filter (λ b, Byte.to_nat b = i) datos).

Fixpoint suma_R (l : list R) : R :=
  match l with
  | [] => 0%R
  | x :: r => (x + suma_R r)%R
  end.

(** The empirical frequency [p(b) = count(b) / prefix_length]. *)
Definition p_empirica (datos : list byte) (i : nat) : R :=
  (INR (veces i datos) / INR (length datos))%R.

(** The Shannon entropy as the specification words it:
    [H = -Σ p(b) * log2(p(b))] over the byte values with nonzero frequency. *)
Definition shannon (datos : list byte) : R :=
  (- suma_R (map (λ i, p_empirica datos i * math_log2 (p_empirica datos i))
                 (filter (λ i, veces i datos ≠ 0%nat) (seq 0 256))))%R.

(** The contribution of one frequency to the sum of [calcular_entropia]. *)
Definition termino (longitud freq : nat) : R :=
  if (freq =? 0)%nat then 0%R
  else (- (INR freq / INR longitud * math_log2 (INR freq / INR longitud)))%R.

(** The file system a call of [shutil.move] leaves. *)
Definition fs_tras (m : movimiento) : FS :=
  match m with Movido fs | Fallido _ fs => fs end.

(** The value a call returned, [d] when it raised. *)
Definition valor_o {A : Type} (d : A) (r : resultado A) : A :=
  match r with Vale a => a | Lanza _ => d end.

(** The system refuses nothing. *)
Definition nada_vedado (w : Mundo) : Prop := ∀ c, mundo_veto w c = None.

(** The name given to a finding whose plain name is taken. *)
Definition nombre_con_sello (nombre sello : string) : string :=
  Path_stem [nombre] +:+ "_" +:+ sello +:+ Path_suffix [nombre].

(** The files [recorrer_directorio] visits, in the order of the walk. *)
Definition ficheros_visitados (fs : FS) : list Path :=
  flat_map (λ t : Path * list string * list string, map (barra t.1.1) t.2)
           (os_walk fs RUTA_BASE).

(** The scan root can be listed. *)
Definition raiz_accesible (fs : FS) : bool :=
  match nodo_en fs RUTA_BASE with
  | Some (Directorio true _) => true
  | _ => false
  end.

(** The number of byte values that occur in [datos]. *)
Definition valores_distintos (datos : list byte) : nat :=
  length (filter (λ i, veces i datos ≠ 0%nat) (seq 0 256)).

(** Every component of every path of the file system is a non-empty name. *)
Definition nombres_validos (fs : FS) : Prop :=
  map_Forall (λ (p : Path) (_ : nodo), "" ∉ p) fs.

(** [p] is a directory that can be listed. *)
Definition es_listable (fs : FS) (p : Path) : bool :=
  match nodo_en fs p with
  | Some (Directorio true _) => true
  | _ => false
  end.

(** [top] and every directory on the way down to [top ++ rel] can be listed. *)
Fixpoint listable_hasta (fs : FS) (top : Path) (rel : list string) : bool :=
  es_listable fs top &&
  match rel with
  | [] => true
  | d :: resto => listable_hasta fs (top ++ [d]) resto
  end.

(** [x] is a regular file. *)
Definition es_fichero (x : option nodo) : bool :=
  match x with
  | Some (Fichero _ _) => true
  | _ => false
  end.

(** The quarantine root holds no directory. *)
Definition cuarentena_sin_directorios (fs : FS) : Prop :=
  map_Forall (λ (p : Path) (x : nodo),
                RUTA_CUARENTENA `prefix_of` p → p ≠ RUTA_CUARENTENA →
                es_fichero (Some x) = true) fs.

(** A finding that can be moved: a regular file outside the quarantine root,
    with a name. *)
Definition movible (fs : FS) (i : info) : Prop :=
  es_fichero (nodo_en fs (ruta i)) = true ∧
  ¬ RUTA_CUARENTENA `prefix_of` ruta i ∧
  Path_name (ruta i) ≠ "".

(** ** Worlds used as examples *)

(** A world with file system [fs] where the system refuses nothing, with a
    clock stopped at one second, nothing read from it and nothing printed. *)
Definition mundo_de (fs : FS) : Mundo :=
  {| mundo_fs := fs; mundo_veto := sin_veto;
     mundo_reloj := λ _, "20250101120000";
     mundo_lecturas := 0; mundo_salida := []; mundo_hallazgos := [] |}.

(** The same with a table of refusals. *)
Definition mundo_con (veto : Veto) (fs : FS) : Mundo :=
  {| mundo_fs := fs; mundo_veto := veto;
     mundo_reloj := λ _, "20250101120000";
     mundo_lecturas := 0; mundo_salida := []; mundo_hallazgos := [] |}.

(** A process that may not make a directory. *)
Definition veto_mkdir : Veto :=
  λ c, match c with LlMkdir p => Some (PermissionError p) | _ => None end.

(** A process that may not look inside the quarantine directory. *)
Definition veto_stat : Veto :=
  λ c, match c with LlStat p => Some (PermissionError p) | _ => None end.

(** A process that may write in the quarantine and not in the shared tree:
    it can copy a file from there, but neither rename nor remove it. *)
Definition veto_origen : Veto :=
  λ c, match c with
       | LlRename src _ => Some (PermissionError src)
       | LlUnlink p => Some (PermissionError p)
       | _ => None
       end.

(** Two files named [x.locked] in two directories of the shared tree, and an
    empty quarantine. *)
Definition fs_homonimos : FS :=
  list_to_map
    [ (["Compartido"], Directorio true 4096);
      (["Compartido"; "a"], Directorio true 4096);
      (["Compartido"; "a"; "x.locked"], Fichero ["001"%byte] true);
      (["Compartido"; "b"], Directorio true 4096);
      (["Compartido"; "b"; "x.locked"], Fichero ["002"%byte] true);
      (["cuarentena_ransomware"], Directorio true 4096) ].

(** The same, with an [x.locked] already in quarantine. *)
Definition fs_colision : FS :=
  <[ ["cuarentena_ransomware"; "x.locked"] := Fichero ["000"%byte] true ]> fs_homonimos.

Definition hallazgo_a : info :=
  {| ruta := ["Compartido"; "a"; "x.locked"]; tamano := 1;
     entropia := Some 0%R; motivos := ["extension"] |}.

Definition hallazgo_b : info :=
  {| ruta := ["Compartido"; "b"; "x.locked"]; tamano := 1;
     entropia := Some 0%R; motivos := ["extension"] |}.

(** A finding whose file is gone by the time it is to be moved. *)
Definition hallazgo_ausente : info :=
  {| ruta := ["Compartido"; "c"; "y.enc"]; tamano := 7;
     entropia := None; motivos := ["extension"] |}.


(** A readable one-byte file. *)
Definition fs_un_byte : FS := {[ ["f.bin"] := Fichero ["000"%byte] true ]}.

(** What the analysis of a missing [report.locked] gives. *)
Definition hallazgo_informe : info :=
  {| ruta := ["Compartido"; "report.locked"]; tamano := -1;
     entropia := None; motivos := ["extension"] |}.

(** The 256 byte values, each once. *)
Definition todos_los_bytes : list byte := omap Byte.of_nat (seq 0 256).

Definition fs_todos_los_bytes : FS := {[ ["g.bin"] := Fichero todos_los_bytes true ]}.

(** A suspicious file that cannot be read, and the quarantine root in place. *)
Definition fs_ilegible : FS :=
  list_to_map
    [ (["Compartido"], Directorio true 4096);
      (["Compartido"; "x.locked"], Fichero ["007"%byte; "007"%byte] false);
      (["cuarentena_ransomware"], Directorio true 4096) ].

(** The same tree, with a regular file where the quarantine root should be. *)
Definition fs_cuarentena_ocupada : FS :=
  <[ ["cuarentena_ransomware"] := Fichero [] true ]> fs_ilegible.

(** A readable file of 181 distinct bytes under a ransomware-style name. *)
Definition fs_corto : FS :=
  {[ ["c.locked"] := Fichero (take 181 todos_los_bytes) true ]}.

(** A readable file in which two byte values occur twice each. *)
Definition fs_uniforme : FS :=
  {[ ["u.bin"] := Fichero ["000"%byte; "001"%byte; "000"%byte; "001"%byte] true ]}.

(** A picture holding every byte value, and nothing else in the tree. *)
Definition fs_foto : FS :=
  list_to_map
    [ (["Compartido"], Directorio true 4096);
      (["Compartido"; "photo.jpg"], Fichero todos_los_bytes true) ].

(** Every byte value once under a ransomware-style name. *)
Definition fs_cifrado : FS := {[ ["g.locked"] := Fichero todos_los_bytes true ]}.

(** Two files with the same bytes in a different order. *)
Definition fs_permutados : FS :=
  list_to_map
    [ (["a.bin"], Fichero ["000"%byte; "001"%byte; "001"%byte] true);
      (["b.bin"], Fichero ["001"%byte; "000"%byte; "001"%byte] true) ].

(** What the scan of [fs_ilegible] finds. *)
Definition hallazgo_ilegible : info :=
  {| ruta := ["Compartido"; "x.locked"]; tamano := 2;
     entropia := None; motivos := ["extension"] |}.

(** * Properties *)

(** ** Strings and path names *)

Section Cadenas.

Lemma app_nil_s (b : string) : "" +:+ b = b.
Proof. reflexivity. Qed.

Lemma app_cons_s (x : ascii) (a b : string) :
  String x a +:+ b = String x (a +:+ b).
Proof. reflexivity. Qed.

Lemma app_nil_r_s (a : string) : a +:+ "" = a.
Proof. induction a as [|x a IH]; [done|]. by rewrite app_cons_s, IH. Qed.

Lemma app_length (a b : string) :
  String.length (a +:+ b) = (String.length a + String.length b)%nat.
Proof. induction a as [|c a IH]; simpl; [done|]. by rewrite IH. Qed.

Lemma len_app (a b : string) : PyStr.len (a +:+ b) = PyStr.len a + PyStr.len b.
Proof. unfold PyStr.len. rewrite app_length. lia. Qed.

Lemma len_nonneg (s : string) : 0 ≤ PyStr.len s.
Proof. unfold PyStr.len. lia. Qed.

Lemma app_assoc_s (a b c : string) : (a +:+ b) +:+ c = a +:+ (b +:+ c).
Proof. induction a as [|x a IH]; [done|]. by rewrite !app_cons_s, IH. Qed.

Lemma app_inv_tail_s (a b c : string) : a +:+ c = b +:+ c → a = b.
Proof.
  revert b. induction a as [|x a IH]; intros [|y b] H;
    rewrite ?app_cons_s, ?app_nil_s in H.
  - done.
  - apply (f_equal String.length) in H. simpl in H. rewrite app_length in H. lia.
  - apply (f_equal String.length) in H. simpl in H. rewrite app_length in H. lia.
  - injection H as -> H. f_equal. by apply IH.
Qed.

Lemma rfind_rango (s : string) (c : ascii) : -1 ≤ PyStr.rfind s c < PyStr.len s.
Proof.
  unfold PyStr.len. induction s as [|a s IH]; simpl; [lia|].
  destruct (Z.leb_spec 0 (PyStr.rfind s c)); [lia|].
  destruct (Ascii.eqb a c); lia.
Qed.

Lemma rfind_app (a b : string) (c : ascii) :
  PyStr.rfind (a +:+ b) c
  = if 0 <=? PyStr.rfind b c then PyStr.len a + PyStr.rfind b c
    else PyStr.rfind a c.
Proof.
  unfold PyStr.len. induction a as [|x a IH];
    rewrite ?app_cons_s, ?app_nil_s; simpl.
  - destruct (Z.leb_spec 0 (PyStr.rfind b c)); [lia|].
    pose proof (rfind_rango b c). lia.
  - rewrite IH. destruct (Z.leb_spec 0 (PyStr.rfind b c)) as [Hb|Hb].
    + destruct (Z.leb_spec 0 (Z.of_nat (String.length a) + PyStr.rfind b c)); lia.
    + done.
Qed.

Lemma lower_ascii_punto (c : ascii) :
  Ascii.eqb (PyStr.lower_ascii c) "." = Ascii.eqb c ".".
Proof.
  destruct c as [[] [] [] [] [] [] [] []]; reflexivity.
Qed.

Lemma rfind_lower (s : string) :
  PyStr.rfind (PyStr.lower s) "." = PyStr.rfind s ".".
Proof.
  induction s as [|a s IH]; simpl; [done|].
  by rewrite IH, lower_ascii_punto.
Qed.

Lemma lower_length (s : string) : String.length (PyStr.lower s) = String.length s.
Proof. induction s as [|a s IH]; simpl; [done|]. by rewrite IH. Qed.

Lemma lower_app (a b : string) :
  PyStr.lower (a +:+ b) = PyStr.lower a +:+ PyStr.lower b.
Proof.
  induction a as [|x a IH]; [done|]. rewrite !app_cons_s. simpl. by rewrite IH.
Qed.

Lemma hasta_desde (i : nat) (s : string) : PyStr.hasta i s +:+ PyStr.desde i s = s.
Proof.
  revert s. induction i as [|i IH]; intros [|a s]; simpl; try done.
  by rewrite app_cons_s, IH.
Qed.

Lemma hasta_length (i : nat) (s : string) :
  (i ≤ String.length s)%nat → String.length (PyStr.hasta i s) = i.
Proof.
  revert s. induction i as [|i IH]; intros [|a s] H; simpl in *; try done; try lia.
  rewrite IH; lia.
Qed.

Lemma desde_app (a b : string) : PyStr.desde (String.length a) (a +:+ b) = b.
Proof. induction a as [|x a IH]; [by destruct b|by rewrite app_cons_s]. Qed.

Lemma hasta_app (a b : string) : PyStr.hasta (String.length a) (a +:+ b) = a.
Proof.
  induction a as [|x a IH]; [by destruct b|].
  rewrite app_cons_s. simpl. by rewrite IH.
Qed.

(** The stem and the suffix split the name. *)
Lemma stem_suffix (p : Path) : Path_stem p +:+ Path_suffix p = Path_name p.
Proof.
  unfold Path_stem, Path_suffix.
  destruct ((0 <? _) && _); [apply hasta_desde|apply app_nil_r_s].
Qed.

Lemma suffix_app (p : Path) (base ext : string) :
  Path_name p = base +:+ String "." ext →
  base ≠ "" → ext ≠ "" → PyStr.rfind ext "." = -1 →
  Path_suffix p = String "." ext ∧ Path_stem p = base.
Proof.
  intros Hn Hb He Hr. unfold Path_suffix, Path_stem. rewrite Hn.
  assert (Hrf : PyStr.rfind (base +:+ String "." ext) "." = PyStr.len base).
  { rewrite rfind_app. simpl. rewrite Hr. simpl. lia. }
  rewrite Hrf, len_app. unfold PyStr.len. simpl String.length.
  assert (0 < String.length base)%nat by (destruct base; [done|simpl; lia]).
  assert (0 < String.length ext)%nat by (destruct ext; [done|simpl; lia]).
  destruct (Z.ltb_spec 0 (Z.of_nat (String.length base))); [|lia].
  destruct (Z.ltb_spec (Z.of_nat (String.length base))
              (Z.of_nat (String.length base) + Z.of_nat (S (String.length ext)) - 1));
    [|lia].
  simpl. rewrite Nat2Z.id. by rewrite desde_app, hasta_app.
Qed.

Lemma suffix_inv (p : Path) :
  Path_suffix p ≠ "" →
  ∃ base ext, Path_name p = base +:+ String "." ext ∧ base ≠ "" ∧ ext ≠ "" ∧
              PyStr.rfind ext "." = -1 ∧ Path_suffix p = String "." ext.
Proof.
  unfold Path_suffix. set (s := Path_name p). intros H.
  destruct (Z.ltb_spec 0 (PyStr.rfind s ".")) as [H0|]; [|done].
  destruct (Z.ltb_spec (PyStr.rfind s ".") (PyStr.len s - 1)) as [H1|]; [|done].
  simpl in *.
  set (i := Z.to_nat (PyStr.rfind s ".")) in *.
  exists (PyStr.hasta i s).
  assert (Hs : PyStr.hasta i s +:+ PyStr.desde i s = s) by apply hasta_desde.
  assert (Hi : (i ≤ String.length s)%nat) by (unfold PyStr.len in H1; lia).
  pose proof (hasta_length i s Hi) as Hl.
  pose proof (f_equal (λ x, PyStr.rfind x ".") Hs) as Hr. simpl in Hr.
  rewrite rfind_app in Hr.
  pose proof (f_equal String.length Hs) as Hlen. rewrite app_length, Hl in Hlen.
  destruct (PyStr.desde i s) as [|c ext] eqn:Hd.
  { simpl in Hlen. unfold PyStr.len in H1. lia. }
  exists ext.
  pose proof (rfind_rango (PyStr.hasta i s) ".") as Hra.
  unfold PyStr.len in Hr, Hra. rewrite Hl in Hr, Hra.
  destruct (Z.leb_spec 0 (PyStr.rfind (String c ext) ".")) as [Hge|Hlt]; [|lia].
  assert (Hz : PyStr.rfind (String c ext) "." = 0) by lia.
  simpl in Hz.
  destruct (Z.leb_spec 0 (PyStr.rfind ext ".")) as [|Hneg]; [lia|].
  destruct (Ascii.eqb_spec c ".") as [->|]; [|lia].
  pose proof (rfind_rango ext ".").
  split_and!; try done.
  - intros Hh. rewrite Hh in Hl. simpl in Hl. lia.
  - intros ->. simpl in Hlen. unfold PyStr.len in H1. lia.
  - lia.
Qed.

End Cadenas.

(** ** The entropy sum *)

Section Entropia.

Local Open Scope nat_scope.

Lemma contar_paso_length (fr : list nat) (datos : list byte) :
  length (foldl (λ frecuencias b, alter S (Byte.to_nat b) frecuencias) fr datos)
  = length fr.
Proof.
  revert fr. induction datos as [|b d IH]; intros fr; simpl; [done|].
  rewrite IH. apply length_alter.
Qed.

Lemma contar_frecuencias_length datos : length (contar_frecuencias datos) = 256.
Proof. unfold contar_frecuencias. rewrite contar_paso_length. apply length_replicate. Qed.

Lemma veces_cons i b d :
  veces i (b :: d) = (if decide (Byte.to_nat b = i) then 1 else 0) + veces i d.
Proof. unfold veces. rewrite filter_cons. by case_decide. Qed.

Lemma contar_paso_lookup (fr : list nat) (datos : list byte) (i : nat) :
  foldl (λ frecuencias b, alter S (Byte.to_nat b) frecuencias) fr datos !! i
  = (λ f, f + veces i datos) <$> fr !! i.
Proof.
  revert fr. induction datos as [|b d IH]; intros fr; simpl.
  - destruct (fr !! i); simpl; [|done]. f_equal. unfold veces. simpl. lia.
  - rewrite IH, veces_cons. destruct (decide (Byte.to_nat b = i)) as [->|Hne].
    + rewrite list_lookup_alter_eq. destruct (fr !! i); simpl; [|done]. f_equal; lia.
    + rewrite list_lookup_alter_ne by done. destruct (fr !! i); simpl; [|done]. f_equal; lia.
Qed.

Lemma contar_frecuencias_lookup datos i :
  i < 256 → contar_frecuencias datos !! i = Some (veces i datos).
Proof.
  intros Hi. unfold contar_frecuencias. rewrite contar_paso_lookup.
  rewrite lookup_replicate_2 by done. done.
Qed.

Lemma contar_frecuencias_eq datos :
  contar_frecuencias datos = map (λ i, veces i datos) (seq 0 256).
Proof.
  apply list_eq. intros i. destruct (decide (i < 256)) as [Hi|Hi].
  - rewrite contar_frecuencias_lookup by done.
    rewrite list_lookup_fmap, lookup_seq_lt by done. done.
  - rewrite !lookup_ge_None_2; [done| |].
    + rewrite length_map, length_seq. lia.
    + rewrite contar_frecuencias_length. lia.
Qed.

Lemma sum_list_alter_S (fr : list nat) i :
  i < length fr → sum_list (alter S i fr) = S (sum_list fr).
Proof.
  unfold alter. revert i.
  induction fr as [|f fr IH]; intros [|i] Hi; simpl in *; try lia.
  rewrite IH by lia. lia.
Qed.

Lemma contar_paso_sum (fr : list nat) (datos : list byte) :
  length fr = 256 →
  sum_list (foldl (λ frecuencias b, alter S (Byte.to_nat b) frecuencias) fr datos)
  = sum_list fr + length datos.
Proof.
  revert fr. induction datos as [|b d IH]; intros fr Hfr; simpl; [lia|].
  rewrite IH by (by rewrite length_alter).
  rewrite sum_list_alter_S; [lia|].
  pose proof (Byte.to_nat_bounded b). lia.
Qed.

Lemma contar_frecuencias_sum datos :
  sum_list (contar_frecuencias datos) = length datos.
Proof.
  unfold contar_frecuencias. rewrite contar_paso_sum by apply length_replicate.
  rewrite sum_list_replicate. lia.
Qed.

Local Open Scope R_scope.

Lemma foldl_acumular n e fr :
  foldl (acumular n) e fr = e + suma_R (map (termino n) fr).
Proof.
  revert e. induction fr as [|f fr IH]; intros e; simpl; [lra|].
  rewrite IH. unfold acumular, termino. destruct (f =? 0)%nat; lra.
Qed.

Lemma ln2_pos : 0 < ln 2.
Proof. rewrite <- ln_1. apply ln_increasing; lra. Qed.

Lemma ln_le_minus_1 x : 0 < x → ln x <= x - 1.
Proof.
  intros Hx. pose proof (exp_ineq1_le (ln x)) as H.
  rewrite exp_ln in H by done. lra.
Qed.

Lemma INR_256 : INR 256 = 256.
Proof. rewrite INR_IZR_INZ. apply f_equal. by vm_compute. Qed.

Lemma ln_256 : ln 256 = 8 * ln 2.
Proof.
  replace 256 with (2 ^ 8) by (simpl; lra).
  rewrite ln_pow by lra. simpl. lra.
Qed.

Lemma suma_R_le {A} (f g : A → R) (l : list A) :
  (∀ x, x ∈ l → f x <= g x) → suma_R (map f l) <= suma_R (map g l).
Proof.
  induction l as [|a l IH]; intros H; simpl; [lra|].
  pose proof (H a ltac:(left)). 
  assert (suma_R (map f l) <= suma_R (map g l)) by (apply IH; intros; apply H; by right).
  lra.
Qed.

Lemma suma_R_lineal (a b : R) (l : list nat) :
  suma_R (map (λ f, a * INR f + b) l)
  = a * INR (sum_list l) + b * INR (length l).
Proof.
  induction l as [|f l IH]; [simpl; lra|].
  simpl. rewrite IH, plus_INR. destruct (length l); [simpl|]; lra.
Qed.

Lemma suma_R_const {A} (c : R) (l : list A) :
  suma_R (map (λ _, c) l) = INR (length l) * c.
Proof.
  induction l as [|f l IH]; [simpl; lra|].
  simpl map. simpl suma_R. rewrite IH, length_cons, S_INR. lra.
Qed.

Lemma elem_le_sum_list (f : nat) (l : list nat) : f ∈ l → (f ≤ sum_list l)%nat.
Proof.
  induction 1 as [|??? _ IH]; simpl; lia.
Qed.

Lemma termino_nonneg n f : (0 < n)%nat → (f ≤ n)%nat → 0 <= termino n f.
Proof.
  intros Hn Hf. unfold termino. destruct (Nat.eqb_spec f 0) as [|Hf0]; [lra|].
  assert (0 < INR n) by (apply lt_0_INR; lia).
  assert (0 < INR f) by (apply lt_0_INR; lia).
  assert (INR f <= INR n) by (apply le_INR; lia).
  set (p := INR f / INR n).
  assert (0 < p) by (apply Rdiv_lt_0_compat; lra).
  assert (p <= 1).
  { unfold p. apply Rmult_le_reg_r with (INR n); [done|].
    unfold Rdiv. rewrite Rmult_assoc, Rinv_l by lra. lra. }
  pose proof (ln_le_minus_1 p ltac:(done)).
  pose proof ln2_pos.
  unfold math_log2.
  assert (ln p / ln 2 <= 0).
  { unfold Rdiv. assert (0 < / ln 2) by (by apply Rinv_0_lt_compat). nra. }
  nra.
Qed.

Lemma termino_cota n f :
  (0 < n)%nat →
  termino n f <= (8 - / ln 2) / INR n * INR f + / (256 * ln 2).
Proof.
  intros Hn. pose proof ln2_pos as HL.
  assert (0 < INR n) by (apply lt_0_INR; lia).
  assert (0 < / ln 2) by (by apply Rinv_0_lt_compat).
  unfold termino. destruct (Nat.eqb_spec f 0) as [->|Hf0].
  - simpl. rewrite Rmult_0_r, Rplus_0_l.
    apply Rlt_le, Rinv_0_lt_compat. lra.
  - assert (0 < INR f) by (apply lt_0_INR; lia).
    set (p := INR f / INR n).
    assert (Hp : 0 < p) by (apply Rdiv_lt_0_compat; lra).
    replace ((8 - / ln 2) / INR n * INR f) with ((8 - / ln 2) * p)
      by (unfold p; field; lra).
    assert (H256 : 0 < / (256 * p)) by (apply Rinv_0_lt_compat; lra).
    pose proof (ln_le_minus_1 _ H256) as Hle.
    rewrite ln_Rinv in Hle by lra.
    rewrite ln_mult in Hle by lra.
    rewrite ln_256 in Hle.
    assert (Hm : - (p * ln p) <= 8 * p * ln 2 + / 256 - p).
    { assert (p * (- (8 * ln 2 + ln p)) <= p * (/ (256 * p) - 1))
        by (apply Rmult_le_compat_l; lra).
      replace (p * (/ (256 * p) - 1)) with (/ 256 - p) in * by (field; lra).
      lra. }
    unfold math_log2.
    replace (- (p * (ln p / ln 2))) with (- (p * ln p) * / ln 2) by (field; lra).
    replace ((8 - / ln 2) * p + / (256 * ln 2))
      with ((8 * p * ln 2 + / 256 - p) * / ln 2) by (field; lra).
    apply Rmult_le_compat_r; lra.
Qed.

Lemma entropia_de_suma datos :
  datos ≠ [] →
  entropia_de datos
  = suma_R (map (termino (length datos)) (contar_frecuencias datos)).
Proof.
  intros Hne. destruct datos as [|b d]; [done|].
  unfold entropia_de. rewrite foldl_acumular. lra.
Qed.

Lemma suma_terminos_shannon datos (l : list nat) :
  suma_R (map (termino (length datos)) (map (λ i, veces i datos) l))
  = - suma_R (map (λ i, p_empirica datos i * math_log2 (p_empirica datos i))
                  (filter (λ i, veces i datos ≠ 0%nat) l)).
Proof.
  induction l as [|i l IH]; [simpl; lra|].
  rewrite filter_cons. cbn [map suma_R]. rewrite IH.
  unfold termino at 1. destruct (Nat.eqb_spec (veces i datos) 0) as [H0|H0].
  - rewrite decide_False by (intros ?; done). lra.
  - rewrite decide_True by done. cbn [map suma_R]. unfold p_empirica. lra.
Qed.

Lemma entropia_de_shannon datos : datos ≠ [] → entropia_de datos = shannon datos.
Proof.
  intros Hne. rewrite entropia_de_suma by done.
  rewrite contar_frecuencias_eq. apply suma_terminos_shannon.
Qed.

Lemma entropia_de_rango datos : datos ≠ [] → 0 <= entropia_de datos <= 8.
Proof.
  intros Hne. rewrite entropia_de_suma by done.
  assert (Hn : (0 < length datos)%nat) by (destruct datos; [done|simpl; lia]).
  split.
  - transitivity (suma_R (map (λ _ : nat, 0) (contar_frecuencias datos))).
    + rewrite suma_R_const. lra.
    + apply suma_R_le. intros f Hf. apply termino_nonneg; [done|].
      rewrite <- contar_frecuencias_sum. by apply elem_le_sum_list.
  - etransitivity.
    + apply suma_R_le with
        (g := λ f, (8 - / ln 2) / INR (length datos) * INR f + / (256 * ln 2)).
      intros f _. by apply termino_cota.
    + rewrite suma_R_lineal, contar_frecuencias_sum, contar_frecuencias_length.
      assert (0 < INR (length datos)) by (apply lt_0_INR; lia).
      pose proof ln2_pos.
      rewrite INR_256.
      apply Req_le. field. lra.
Qed.

Lemma veces_identicos b datos i :
  Forall (eq b) datos → veces i datos = 0%nat ∨ veces i datos = length datos.
Proof.
  intros Hall. destruct (decide (Byte.to_nat b = i)) as [Hi|Hi].
  - right. induction Hall as [|x d Hx _ IH]; [done|].
    rewrite veces_cons, decide_True by (by subst x). simpl. by rewrite IH.
  - left. induction Hall as [|x d Hx _ IH]; [done|].
    rewrite veces_cons, decide_False by (by subst x). done.
Qed.

Lemma termino_total n : (0 < n)%nat → termino n n = 0.
Proof.
  intros Hn. unfold termino. destruct (Nat.eqb_spec n 0); [lra|].
  assert (0 < INR n) by (apply lt_0_INR; lia).
  replace (INR n / INR n) with 1 by (field; lra).
  unfold math_log2. rewrite ln_1. lra.
Qed.

Lemma entropia_de_identicos b datos :
  datos ≠ [] → Forall (eq b) datos → entropia_de datos = 0.
Proof.
  intros Hne Hall. rewrite entropia_de_suma, contar_frecuencias_eq by done.
  assert (Hn : (0 < length datos)%nat) by (destruct datos; [done|simpl; lia]).
  rewrite map_map. 
  rewrite map_ext with (g := λ _, 0); [rewrite suma_R_const; lra|].
  intros i. simpl. destruct (veces_identicos b datos i Hall) as [-> | ->].
  - done.
  - by apply termino_total.
Qed.

Lemma termino_uno_256 : termino 256 1 = / 32.
Proof.
  unfold termino. simpl Nat.eqb. cbv iota.
  rewrite INR_256.
  replace (INR 1) with 1 by (simpl; lra).
  unfold math_log2, Rdiv. rewrite Rmult_1_l, ln_Rinv by lra.
  rewrite ln_256. pose proof ln2_pos. field. lra.
Qed.

Lemma entropia_de_cada_uno datos :
  length datos = 256%nat →
  (∀ b : byte, veces (Byte.to_nat b) datos = 1%nat) →
  entropia_de datos = 8.
Proof.
  intros Hlen Huno.
  assert (Hne : datos ≠ []) by (intros ->; done).
  rewrite entropia_de_suma, contar_frecuencias_eq, Hlen by done.
  rewrite map_map.
  erewrite map_ext_in with (g := λ _, / 32).
  - rewrite suma_R_const, length_seq.
    rewrite INR_256. lra.
  - intros i Hi%in_seq. simpl.
    destruct (Byte.of_nat i) as [b|] eqn:Hb.
    + apply Byte.to_of_nat in Hb. subst i. rewrite Huno. apply termino_uno_256.
    + apply Byte.of_nat_None_iff in Hb. lia.
Qed.

End Entropia.

(** ** Moves into the quarantine *)

Section Cuarentena.

Lemma existe_false_lookup (fs : FS) p : existe fs p = false → fs !! p = None ∧ p ≠ [].
Proof.
  unfold existe, nodo_en. destruct p; [done|]. by destruct (fs !! _).
Qed.

Lemma existe_es_dir (fs : FS) p : existe fs p = false → es_dir fs p = false.
Proof. unfold existe, es_dir. by destruct (nodo_en fs p). Qed.

Lemma nodo_en_fichero (fs : FS) p c l :
  nodo_en fs p = Some (Fichero c l) → fs !! p = Some (Fichero c l) ∧ p ≠ [].
Proof. unfold nodo_en. by destruct p. Qed.

Lemma nodo_en_lookup (fs : FS) p : p ≠ [] → nodo_en fs p = fs !! p.
Proof. by destruct p. Qed.

Lemma Path_exists_vale (w : Mundo) (p : Path) (b : bool) :
  Path_exists w p = Vale b → b = existe (mundo_fs w) p.
Proof.
  unfold Path_exists. destruct (_ && _); [destruct (mundo_veto w _); [done|]|];
    by intros [= <-].
Qed.

Lemma Path_exists_lanza (w : Mundo) (p : Path) (e : OSError) :
  Path_exists w p = Lanza e →
  mundo_veto w (LlStat p) = Some e ∧ es_dir (mundo_fs w) (Path_parent p) = true ∧
  Path_parent p ≠ [].
Proof.
  unfold Path_exists.
  destruct (es_dir (mundo_fs w) (Path_parent p)) eqn:Hd; [|done].
  destruct (bool_decide (Path_parent p = [])) eqn:Hp; [done|].
  apply bool_decide_eq_false in Hp. cbn [andb negb].
  destruct (mundo_veto w (LlStat p)); [|done]. by intros [= <-].
Qed.

Lemma Path_exists_sin_veto (w : Mundo) (p : Path) :
  mundo_veto w (LlStat p) = None → Path_exists w p = Vale (existe (mundo_fs w) p).
Proof. intros H. unfold Path_exists. rewrite H. by destruct (_ && _). Qed.

Lemma Path_exists_sin_directorio (w : Mundo) (p : Path) :
  es_dir (mundo_fs w) (Path_parent p) = false →
  Path_exists w p = Vale (existe (mundo_fs w) p).
Proof. intros H. unfold Path_exists. by rewrite H. Qed.

(** The quarantine root is an entry of [/]. *)
Lemma Path_exists_cuarentena (w : Mundo) :
  Path_exists w RUTA_CUARENTENA = Vale (existe (mundo_fs w) RUTA_CUARENTENA).
Proof.
  unfold Path_exists, RUTA_CUARENTENA.
  change (Path_parent ["cuarentena_ransomware"]) with (@nil string).
  by rewrite bool_decide_true, andb_false_r.
Qed.

Lemma shutil_move_fichero (veto : Veto) (fs : FS) src dst c l :
  nodo_en fs src = Some (Fichero c l) →
  existe fs dst = false →
  es_dir fs (Path_parent dst) = true →
  veto (LlRename src dst) = None →
  shutil_move veto fs src dst = Movido (<[dst := Fichero c l]> (delete src fs)).
Proof.
  intros Hsrc Hdst Hpar Hv. unfold shutil_move, rename_fichero.
  rewrite (existe_es_dir _ _ Hdst). cbn [andb]. rewrite Hsrc, Hpar, Hv.
  by rewrite bool_decide_true.
Qed.

Lemma barra_nombre (p : Path) (n : string) : n ≠ "" → barra p n = p ++ [n].
Proof. intros Hn. unfold barra. by rewrite decide_False. Qed.

Lemma Path_name_snoc (p : Path) n : Path_name (p ++ [n]) = n.
Proof. unfold Path_name. apply last_last. Qed.

Lemma Path_parent_snoc (p : Path) n : Path_parent (p ++ [n]) = p.
Proof. unfold Path_parent. apply removelast_last. Qed.

Lemma Path_stem_snoc (p : Path) n : Path_stem (p ++ [n]) = Path_stem [n].
Proof. unfold Path_stem. by rewrite Path_name_snoc. Qed.

Lemma Path_suffix_snoc (p : Path) n : Path_suffix (p ++ [n]) = Path_suffix [n].
Proof. unfold Path_suffix. by rewrite Path_name_snoc. Qed.

Lemma nombre_con_sello_no_vacio n ts : nombre_con_sello n ts ≠ "".
Proof.
  unfold nombre_con_sello. destruct (Path_stem [n]); [|done].
  rewrite app_nil_s. done.
Qed.

Lemma nombre_con_sello_distinto n ts : nombre_con_sello n ts ≠ n.
Proof.
  intros H. apply (f_equal String.length) in H.
  unfold nombre_con_sello in H.
  pose proof (f_equal String.length (stem_suffix [n])) as Hs.
  change (Path_name [n]) with n in Hs.
  rewrite !app_length in H. rewrite !app_length in Hs.
  change (String.length "_") with 1%nat in H. lia.
Qed.

Lemma nombre_con_sello_inj n ts1 ts2 :
  nombre_con_sello n ts1 = nombre_con_sello n ts2 → ts1 = ts2.
Proof.
  unfold nombre_con_sello. intros H.
  apply (inj (String.app _)) in H. rewrite !app_cons_s, !app_nil_s in H.
  injection H as H. by apply app_inv_tail_s in H.
Qed.

Lemma elegir_destino_libre origen w :
  Path_name origen ≠ "" →
  existe (mundo_fs w) (RUTA_CUARENTENA ++ [Path_name origen]) = false →
  elegir_destino origen w = (RUTA_CUARENTENA ++ [Path_name origen], w).
Proof.
  intros Hn He. unfold elegir_destino. rewrite barra_nombre by done. by rewrite He.
Qed.

Lemma elegir_destino_ocupado origen w :
  Path_name origen ≠ "" →
  existe (mundo_fs w) (RUTA_CUARENTENA ++ [Path_name origen]) = true →
  elegir_destino origen w
  = (RUTA_CUARENTENA ++
       [nombre_con_sello (Path_name origen) (mundo_reloj w (mundo_lecturas w))],
     (datetime_now w).2).
Proof.
  intros Hn He. unfold elegir_destino. rewrite (barra_nombre _ _ Hn), He.
  unfold datetime_now. lazy beta iota zeta. cbn [snd].
  rewrite Path_stem_snoc, Path_suffix_snoc.
  fold (nombre_con_sello (Path_name origen) (mundo_reloj w (mundo_lecturas w))).
  by rewrite barra_nombre by apply nombre_con_sello_no_vacio.
Qed.

Lemma nodo_en_tras_mover (fs : FS) o d F p :
  p ≠ d → p ≠ o → nodo_en (<[d := F]> (delete o fs)) p = nodo_en fs p.
Proof.
  intros Hd Ho. destruct p as [|x p]; [done|]. unfold nodo_en.
  by rewrite lookup_insert_ne, lookup_delete_ne.
Qed.

Lemma existe_tras_mover_libre (fs : FS) o d F p :
  p ≠ d → existe fs p = false → existe (<[d := F]> (delete o fs)) p = false.
Proof.
  intros Hd [Hp Hne]%existe_false_lookup. unfold existe.
  rewrite nodo_en_lookup, lookup_insert_ne by done.
  by rewrite (proj2 (lookup_delete_None fs o p)) by by right.
Qed.

(** One turn of the loop. *)
Lemma mover_cada_uno_paso i resto acc w b d w1 :
  Path_exists w (barra RUTA_CUARENTENA (Path_name (ruta i))) = Vale b →
  elegir_destino (ruta i) w = (d, w1) →
  mover_cada_uno (i :: resto) acc w
  = match shutil_move (mundo_veto w1) (mundo_fs w1) (ruta i) d with
    | Movido fs' => mover_cada_uno resto (acc ++ [str d]) (con_fs w1 fs')
    | Fallido e fs' =>
        mover_cada_uno resto acc (print (linea_error (ruta i) e) (con_fs w1 fs'))
    end.
Proof. intros Hx He. cbn [mover_cada_uno]. by rewrite Hx, He. Qed.

(** One turn of the loop when the system refuses nothing and the move goes
    through. *)
Lemma mover_cada_uno_vale i resto acc w d w1 fs' :
  nada_vedado w →
  elegir_destino (ruta i) w = (d, w1) →
  shutil_move (mundo_veto w1) (mundo_fs w1) (ruta i) d = Movido fs' →
  mover_cada_uno (i :: resto) acc w
  = mover_cada_uno resto (acc ++ [str d]) (con_fs w1 fs').
Proof.
  intros Hv He Hm.
  by rewrite (mover_cada_uno_paso _ _ _ _ _ _ _ (Path_exists_sin_veto _ _ (Hv _)) He), Hm.
Qed.

(** [destino.exists()] raises: the loop ends there. *)
Lemma mover_cada_uno_lanza i resto acc w e :
  Path_exists w (barra RUTA_CUARENTENA (Path_name (ruta i))) = Lanza e →
  mover_cada_uno (i :: resto) acc w = Lanza e.
Proof. intros Hx. cbn [mover_cada_uno]. by rewrite Hx. Qed.

Lemma str_cuarentena_inj a b :
  str (RUTA_CUARENTENA ++ [a]) = str (RUTA_CUARENTENA ++ [b]) → a = b.
Proof.
  unfold str, RUTA_CUARENTENA. simpl. intros H.
  apply (inj (String.app _)) in H. rewrite !app_nil_s in H.
  by apply (inj (String.app _)) in H.
Qed.

Lemma snoc_inj (p : Path) a b : p ++ [a] = p ++ [b] → a = b.
Proof. intros H. apply app_inv_head in H. by injection H. Qed.

Lemma asegurar_cuarentena_existe w :
  existe (mundo_fs w) RUTA_CUARENTENA = true → asegurar_cuarentena w = Vale w.
Proof.
  intros H. unfold asegurar_cuarentena. by rewrite Path_exists_cuarentena, H.
Qed.

(** With nothing at the quarantine path the directory is made, unless the
    system refuses. *)
Lemma asegurar_cuarentena_ausente w :
  existe (mundo_fs w) RUTA_CUARENTENA = false →
  asegurar_cuarentena w
  = match mundo_veto w (LlMkdir RUTA_CUARENTENA) with
    | Some e => Lanza e
    | None => Vale (con_fs w (<[RUTA_CUARENTENA := Directorio true 4096]> (mundo_fs w)))
    end.
Proof.
  intros He. unfold asegurar_cuarentena. rewrite Path_exists_cuarentena, He.
  assert (Hd : es_dir (mundo_fs w) RUTA_CUARENTENA = false) by by apply existe_es_dir.
  unfold Path_mkdir, RUTA_CUARENTENA in *. cbn [rev app Path_mkdir_rev].
  unfold os_mkdir. rewrite He.
  change (Path_parent ["cuarentena_ransomware"]) with (@nil string).
  cbn [nodo_en].
  destruct (mundo_veto w (LlMkdir ["cuarentena_ransomware"])) as [e|] eqn:Hv; [|done].
  destruct e; rewrite ?Hd; try done.
  unfold Path_mkdir_hoja, os_mkdir. cbn [rev existe nodo_en es_dir].
  rewrite He. change (Path_parent ["cuarentena_ransomware"]) with (@nil string).
  cbn [nodo_en]. by rewrite Hv.
Qed.

Lemma es_dir_existe (fs : FS) p : es_dir fs p = true → existe fs p = true.
Proof. unfold es_dir, existe. by destruct (nodo_en fs p). Qed.

(** Two files of one name, the plain name free in the quarantine. *)
Lemma dos_homonimos_libre (w : Mundo) (i1 i2 : info) c1 l1 c2 l2 :
  let fs := mundo_fs w in
  let n := Path_name (ruta i1) in
  let t1 := mundo_reloj w (mundo_lecturas w) in
  let d1 := RUTA_CUARENTENA ++ [n] in
  let d2 := RUTA_CUARENTENA ++ [nombre_con_sello n t1] in
  nada_vedado w →
  es_dir fs RUTA_CUARENTENA = true →
  nodo_en fs (ruta i1) = Some (Fichero c1 l1) →
  nodo_en fs (ruta i2) = Some (Fichero c2 l2) →
  ruta i1 ≠ ruta i2 → Path_name (ruta i2) = n → n ≠ "" →
  existe fs d1 = false → existe fs d2 = false →
  ∃ w', mover_cada_uno [i1; i2] [] w = Vale ([str d1; str d2], w') ∧
        mundo_fs w' !! d1 = Some (Fichero c1 l1) ∧
        mundo_fs w' !! d2 = Some (Fichero c2 l2).
Proof.
  intros fs n t1 d1 d2 Hv HQ H1 H2 Hne Hn2 Hn Hd1 Hd2.
  pose proof (nodo_en_fichero _ _ _ _ H1) as [L1 N1].
  pose proof (nodo_en_fichero _ _ _ _ H2) as [L2 N2].
  pose proof (existe_false_lookup _ _ Hd1) as [Ld1 _].
  pose proof (existe_false_lookup _ _ Hd2) as [Ld2 _].
  assert (Hd12 : d1 ≠ d2).
  { intros H%snoc_inj. by apply (nombre_con_sello_distinto n t1). }
  assert (ruta i1 ≠ d1) by (intros E; rewrite E in L1; fold fs in L1; congruence).
  assert (ruta i2 ≠ d1) by (intros E; rewrite E in L2; fold fs in L2; congruence).
  assert (ruta i2 ≠ d2) by (intros E; rewrite E in L2; fold fs in L2; congruence).
  assert (HQ1 : RUTA_CUARENTENA ≠ d1) by (unfold d1; intros E; by apply (f_equal length) in E).
  assert (HQ2 : RUTA_CUARENTENA ≠ ruta i1).
  { intros E. rewrite <- E in H1. unfold es_dir in HQ. fold fs in H1. by rewrite H1 in HQ. }
  assert (HQ3 : RUTA_CUARENTENA ≠ ruta i2).
  { intros E. rewrite <- E in H2. unfold es_dir in HQ. fold fs in H2. by rewrite H2 in HQ. }
  set (fs1 := <[d1 := Fichero c1 l1]> (delete (ruta i1) fs)).
  set (fs2 := <[d2 := Fichero c2 l2]> (delete (ruta i2) fs1)).
  exists (con_fs (datetime_now (con_fs w fs1)).2 fs2).
  rewrite (mover_cada_uno_vale i1 [i2] [] w d1 w fs1); cycle 1.
  { done. }
  { by apply elegir_destino_libre. }
  { apply shutil_move_fichero; [done|done| |apply Hv]. unfold d1. by rewrite Path_parent_snoc. }
  rewrite (mover_cada_uno_vale i2 [] _ (con_fs w fs1) d2
             (datetime_now (con_fs w fs1)).2 fs2); cycle 1.
  { intros c. apply Hv. }
  { rewrite elegir_destino_ocupado; rewrite Hn2; [done|done|].
    unfold existe. simpl mundo_fs. unfold fs1. fold d1.
    rewrite nodo_en_lookup by (by destruct d1).
    by rewrite lookup_insert_eq. }
  { apply shutil_move_fichero; [| | |apply Hv].
    - simpl mundo_fs. unfold fs1. by rewrite nodo_en_tras_mover.
    - simpl mundo_fs. unfold fs1. apply existe_tras_mover_libre; [done|done].
    - simpl mundo_fs. unfold d2. rewrite Path_parent_snoc. unfold es_dir, fs1.
      by rewrite nodo_en_tras_mover. }
  split; [done|]. simpl mundo_fs. unfold fs2. split.
  - rewrite lookup_insert_ne, lookup_delete_ne by done.
    unfold fs1. by rewrite lookup_insert_eq.
  - by rewrite lookup_insert_eq.
Qed.

(** Two files of one name, the plain name taken in the quarantine, the two
    clock readings different. *)
Lemma dos_homonimos_ocupado (w : Mundo) (i1 i2 : info) c1 l1 c2 l2 :
  let fs := mundo_fs w in
  let n := Path_name (ruta i1) in
  let t1 := mundo_reloj w (mundo_lecturas w) in
  let t2 := mundo_reloj w (S (mundo_lecturas w)) in
  let d1 := RUTA_CUARENTENA ++ [nombre_con_sello n t1] in
  let d2 := RUTA_CUARENTENA ++ [nombre_con_sello n t2] in
  nada_vedado w →
  es_dir fs RUTA_CUARENTENA = true →
  nodo_en fs (ruta i1) = Some (Fichero c1 l1) →
  nodo_en fs (ruta i2) = Some (Fichero c2 l2) →
  ruta i1 ≠ ruta i2 → Path_name (ruta i2) = n → n ≠ "" →
  ruta i1 ≠ RUTA_CUARENTENA ++ [n] →
  existe fs (RUTA_CUARENTENA ++ [n]) = true →
  t1 ≠ t2 → existe fs d1 = false → existe fs d2 = false →
  ∃ w', mover_cada_uno [i1; i2] [] w = Vale ([str d1; str d2], w') ∧
        mundo_fs w' !! d1 = Some (Fichero c1 l1) ∧
        mundo_fs w' !! d2 = Some (Fichero c2 l2).
Proof.
  intros fs n t1 t2 d1 d2 Hv HQ H1 H2 Hne Hn2 Hn Hpar Hd0 Ht Hd1 Hd2.
  pose proof (nodo_en_fichero _ _ _ _ H1) as [L1 N1].
  pose proof (nodo_en_fichero _ _ _ _ H2) as [L2 N2].
  pose proof (existe_false_lookup _ _ Hd1) as [Ld1 _].
  pose proof (existe_false_lookup _ _ Hd2) as [Ld2 _].
  set (d0 := RUTA_CUARENTENA ++ [n]) in *.
  assert (Hd12 : d1 ≠ d2).
  { intros H%snoc_inj. by apply nombre_con_sello_inj in H. }
  assert (Hd01 : d0 ≠ d1).
  { intros H%snoc_inj. by apply (nombre_con_sello_distinto n t1). }
  assert (Hd0o : d0 ≠ ruta i1) by (intros E; by apply Hpar).
  assert (ruta i2 ≠ d1) by (intros E; rewrite E in L2; fold fs in L2; congruence).
  assert (ruta i2 ≠ d2) by (intros E; rewrite E in L2; fold fs in L2; congruence).
  assert (HQ1 : RUTA_CUARENTENA ≠ d1) by (unfold d1; intros E; by apply (f_equal length) in E).
  assert (HQ2 : RUTA_CUARENTENA ≠ ruta i1).
  { intros E. rewrite <- E in H1. unfold es_dir in HQ. fold fs in H1. by rewrite H1 in HQ. }
  set (w0 := (datetime_now w).2).
  set (fs1 := <[d1 := Fichero c1 l1]> (delete (ruta i1) fs)).
  set (fs2 := <[d2 := Fichero c2 l2]> (delete (ruta i2) fs1)).
  exists (con_fs (datetime_now (con_fs w0 fs1)).2 fs2).
  rewrite (mover_cada_uno_vale i1 [i2] [] w d1 w0 fs1); cycle 1.
  { done. }
  { by apply elegir_destino_ocupado. }
  { apply shutil_move_fichero; [done|done| |apply Hv]. unfold d1.
    by rewrite Path_parent_snoc. }
  rewrite (mover_cada_uno_vale i2 [] _ (con_fs w0 fs1) d2
             (datetime_now (con_fs w0 fs1)).2 fs2); cycle 1.
  { intros c. apply Hv. }
  { rewrite elegir_destino_ocupado; rewrite Hn2; [done|done|].
    fold d0. unfold existe. simpl mundo_fs. unfold fs1.
    rewrite nodo_en_tras_mover by done. by apply Hd0. }
  { apply shutil_move_fichero; [| | |apply Hv].
    - simpl mundo_fs. unfold fs1. by rewrite nodo_en_tras_mover.
    - simpl mundo_fs. unfold fs1. apply existe_tras_mover_libre; [done|done].
    - simpl mundo_fs. unfold d2. rewrite Path_parent_snoc. unfold es_dir, fs1.
      by rewrite nodo_en_tras_mover. }
  split; [done|]. simpl mundo_fs. unfold fs2. split.
  - rewrite lookup_insert_ne, lookup_delete_ne by done.
    unfold fs1. by rewrite lookup_insert_eq.
  - by rewrite lookup_insert_eq.
Qed.

(** Two files of one name, the first of them being the entry of that name in
    the quarantine root. *)
Lemma dos_homonimos_interno (w : Mundo) (i1 i2 : info) c1 l1 c2 l2 :
  let fs := mundo_fs w in
  let n := Path_name (ruta i1) in
  let t1 := mundo_reloj w (mundo_lecturas w) in
  let d1 := RUTA_CUARENTENA ++ [nombre_con_sello n t1] in
  let d2 := RUTA_CUARENTENA ++ [n] in
  nada_vedado w →
  es_dir fs RUTA_CUARENTENA = true →
  nodo_en fs (ruta i1) = Some (Fichero c1 l1) →
  nodo_en fs (ruta i2) = Some (Fichero c2 l2) →
  ruta i1 ≠ ruta i2 → Path_name (ruta i2) = n → n ≠ "" →
  ruta i1 = d2 →
  existe fs d1 = false →
  ∃ w', mover_cada_uno [i1; i2] [] w = Vale ([str d1; str d2], w') ∧
        mundo_fs w' !! d1 = Some (Fichero c1 l1) ∧
        mundo_fs w' !! d2 = Some (Fichero c2 l2).
Proof.
  intros fs n t1 d1 d2 Hv HQ H1 H2 Hne Hn2 Hn Ho1 Hd1.
  pose proof (nodo_en_fichero _ _ _ _ H1) as [L1 N1].
  pose proof (nodo_en_fichero _ _ _ _ H2) as [L2 N2].
  pose proof (existe_false_lookup _ _ Hd1) as [Ld1 _].
  assert (Hd12 : d1 ≠ d2).
  { intros H%snoc_inj. by apply (nombre_con_sello_distinto n t1). }
  assert (ruta i2 ≠ d1) by (intros E; rewrite E in L2; fold fs in L2; congruence).
  assert (ruta i2 ≠ d2) by congruence.
  assert (HQ1 : RUTA_CUARENTENA ≠ d1) by (unfold d1; intros E; by apply (f_equal length) in E).
  assert (HQ2 : RUTA_CUARENTENA ≠ d2) by (unfold d2; intros E; by apply (f_equal length) in E).
  set (w0 := (datetime_now w).2).
  set (fs1 := <[d1 := Fichero c1 l1]> (delete (ruta i1) fs)).
  set (fs2 := <[d2 := Fichero c2 l2]> (delete (ruta i2) fs1)).
  assert (Hlibre : existe fs1 d2 = false).
  { unfold existe. rewrite nodo_en_lookup by (by destruct d2). unfold fs1.
    rewrite lookup_insert_ne by done. by rewrite Ho1, lookup_delete_eq. }
  exists (con_fs (con_fs w0 fs1) fs2).
  rewrite (mover_cada_uno_vale i1 [i2] [] w d1 w0 fs1); cycle 1.
  { done. }
  { apply elegir_destino_ocupado; [done|]. unfold existe. fold n d2.
    rewrite <- Ho1. fold fs. by rewrite H1. }
  { apply shutil_move_fichero; [done|done| |apply Hv]. unfold d1.
    by rewrite Path_parent_snoc. }
  rewrite (mover_cada_uno_vale i2 [] _ (con_fs w0 fs1) d2 (con_fs w0 fs1) fs2);
    cycle 1.
  { intros c. apply Hv. }
  { rewrite elegir_destino_libre; rewrite Hn2; done. }
  { apply shutil_move_fichero; [| | |apply Hv].
    - simpl mundo_fs. unfold fs1. rewrite nodo_en_tras_mover; [done|done|congruence].
    - done.
    - simpl mundo_fs. unfold d2. rewrite Path_parent_snoc. unfold es_dir, fs1.
      rewrite nodo_en_tras_mover; [done|done|congruence]. }
  split; [done|]. simpl mundo_fs. unfold fs2. split.
  - rewrite lookup_insert_ne, lookup_delete_ne by done.
    unfold fs1. by rewrite lookup_insert_eq.
  - by rewrite lookup_insert_eq.
Qed.

(** The three cases together: two distinct files of one name end at two
    distinct entries of the quarantine root, each holding its file. *)
Lemma dos_homonimos (w : Mundo) (i1 i2 : info) c1 l1 c2 l2 :
  let fs := mundo_fs w in
  let n := Path_name (ruta i1) in
  let t1 := mundo_reloj w (mundo_lecturas w) in
  let t2 := mundo_reloj w (S (mundo_lecturas w)) in
  nada_vedado w →
  es_dir fs RUTA_CUARENTENA = true →
  nodo_en fs (ruta i1) = Some (Fichero c1 l1) →
  nodo_en fs (ruta i2) = Some (Fichero c2 l2) →
  ruta i1 ≠ ruta i2 → Path_name (ruta i2) = n → n ≠ "" →
  existe fs (RUTA_CUARENTENA ++ [nombre_con_sello n t1]) = false →
  (existe fs (RUTA_CUARENTENA ++ [n]) = false ∨
   (t1 ≠ t2 ∧ existe fs (RUTA_CUARENTENA ++ [nombre_con_sello n t2]) = false)) →
  ∃ m1 m2 w',
    mover_cada_uno [i1; i2] [] w
    = Vale ([str (RUTA_CUARENTENA ++ [m1]); str (RUTA_CUARENTENA ++ [m2])], w') ∧
    (m1 = n ∨ m1 = nombre_con_sello n t1) ∧
    (m2 = n ∨ m2 = nombre_con_sello n t1 ∨ m2 = nombre_con_sello n t2) ∧
    m1 ≠ m2 ∧
    mundo_fs w' !! (RUTA_CUARENTENA ++ [m1]) = Some (Fichero c1 l1) ∧
    mundo_fs w' !! (RUTA_CUARENTENA ++ [m2]) = Some (Fichero c2 l2).
Proof.
  intros fs n t1 t2 Hv HQ H1 H2 Hne Hn2 Hn Hd1 Hcaso.
  destruct (existe fs (RUTA_CUARENTENA ++ [n])) eqn:Hd0.
  - destruct (decide (ruta i1 = RUTA_CUARENTENA ++ [n])) as [Ho|Ho].
    + destruct (dos_homonimos_interno w i1 i2 c1 l1 c2 l2)
        as (w' & Hm & L1 & L2); try done.
      exists (nombre_con_sello n t1), n, w'. split_and!; try done; auto.
      apply nombre_con_sello_distinto.
    + destruct Hcaso as [?|(Ht & Hd2)]; [done|].
      destruct (dos_homonimos_ocupado w i1 i2 c1 l1 c2 l2)
        as (w' & Hm & L1 & L2); try done.
      exists (nombre_con_sello n t1), (nombre_con_sello n t2), w'.
      split_and!; try done; auto.
      intros H. by apply nombre_con_sello_inj in H.
  - destruct (dos_homonimos_libre w i1 i2 c1 l1 c2 l2)
      as (w' & Hm & L1 & L2); try done.
    exists n, (nombre_con_sello n t1), w'. split_and!; try done; auto.
    intros H. by apply (nombre_con_sello_distinto n t1).
Qed.

Lemma nodo_en_insert_ne (fs : FS) q x p :
  p ≠ q → nodo_en (<[q := x]> fs) p = nodo_en fs p.
Proof.
  intros H. destruct p as [|c p]; [done|]. unfold nodo_en.
  by rewrite lookup_insert_ne.
Qed.

Lemma elegir_destino_mundo origen w :
  mundo_fs (elegir_destino origen w).2 = mundo_fs w ∧
  mundo_salida (elegir_destino origen w).2 = mundo_salida w.
Proof. unfold elegir_destino. by destruct (existe _ _). Qed.

Lemma elegir_destino_campos origen w :
  mundo_veto (elegir_destino origen w).2 = mundo_veto w ∧
  mundo_hallazgos (elegir_destino origen w).2 = mundo_hallazgos w ∧
  mundo_reloj (elegir_destino origen w).2 = mundo_reloj w.
Proof. unfold elegir_destino. by destruct (existe _ _). Qed.

(** The destinations gathered so far stay at the head of the list. *)
Lemma mover_cada_uno_acc (sospechosos : list info) :
  ∀ acc w,
    mover_cada_uno sospechosos acc w
    = match mover_cada_uno sospechosos [] w with
      | Vale (d, w') => Vale (acc ++ d, w')
      | Lanza e => Lanza e
      end.
Proof.
  induction sospechosos as [|i resto IH]; intros acc w.
  - cbn. by rewrite app_nil_r.
  - cbn [mover_cada_uno].
    destruct (Path_exists w _) as [b|e]; [|done].
    destruct (elegir_destino (ruta i) w) as [d w1].
    destruct (shutil_move _ _ _ _) as [fs'|e fs'].
    + rewrite (IH (acc ++ [str d])), (IH ([] ++ [str d])).
      destruct (mover_cada_uno resto [] _) as [[d0 w']|e]; [|done].
      by rewrite <- app_assoc.
    + apply IH.
Qed.

(** The loop on a list in two parts is the loop on the first part followed by
    the loop on the second. *)
Lemma mover_cada_uno_app (s1 s2 : list info) :
  ∀ acc w,
    mover_cada_uno (s1 ++ s2) acc w
    = match mover_cada_uno s1 acc w with
      | Vale (d, w1) => mover_cada_uno s2 d w1
      | Lanza e => Lanza e
      end.
Proof.
  induction s1 as [|i resto IH]; intros acc w.
  - done.
  - cbn [app mover_cada_uno].
    destruct (Path_exists w _) as [b|e]; [|done].
    destruct (elegir_destino (ruta i) w) as [d w1].
    destruct (shutil_move _ _ _ _) as [fs'|e fs']; apply IH.
Qed.

(** What the loop leaves alone: the table of refusals, the clock, the list
    object of the findings. *)
Lemma mover_cada_uno_campos (sospechosos : list info) :
  ∀ acc w destinos w',
    mover_cada_uno sospechosos acc w = Vale (destinos, w') →
    mundo_veto w' = mundo_veto w ∧ mundo_hallazgos w' = mundo_hallazgos w ∧
    mundo_reloj w' = mundo_reloj w.
Proof.
  induction sospechosos as [|i resto IH]; intros acc w destinos w'.
  - by intros [= _ <-].
  - cbn [mover_cada_uno].
    destruct (Path_exists w _) as [b|e]; [|done].
    pose proof (elegir_destino_campos (ruta i) w) as (Hv & Hh & Hr).
    destruct (elegir_destino (ruta i) w) as [d w1]. cbn [snd] in Hv, Hh, Hr.
    destruct (shutil_move _ _ _ _) as [fs'|e fs']; intros H;
      apply IH in H as (-> & -> & ->); by rewrite <- Hv, <- Hh, <- Hr.
Qed.

(** An exception leaves the loop only from a [destino.exists()]. *)
Lemma mover_cada_uno_lanza_inv (sospechosos : list info) :
  ∀ acc w e,
    mover_cada_uno sospechosos acc w = Lanza e →
    ∃ antes i despues dk wk,
      sospechosos = antes ++ i :: despues ∧
      mover_cada_uno antes acc w = Vale (dk, wk) ∧
      Path_exists wk (barra RUTA_CUARENTENA (Path_name (ruta i))) = Lanza e.
Proof.
  induction sospechosos as [|i resto IH]; intros acc w e; [done|].
  destruct (Path_exists w (barra RUTA_CUARENTENA (Path_name (ruta i))))
    as [b|e'] eqn:Hx.
  - destruct (elegir_destino (ruta i) w) as [d w1] eqn:He.
    rewrite (mover_cada_uno_paso _ _ _ _ _ _ _ Hx He).
    destruct (shutil_move _ _ _ _) as [fs'|e1 fs'] eqn:Hm; intros H;
      apply IH in H as (antes & j & despues & dk & wk & -> & Hk & Hj);
      exists (i :: antes), j, despues, dk, wk; (split_and!; [done| |done]);
      by rewrite (mover_cada_uno_paso _ _ _ _ _ _ _ Hx He), Hm.
  - rewrite (mover_cada_uno_lanza _ _ _ _ _ Hx). intros [= <-].
    by exists [], i, resto, acc, w.
Qed.

(** The outcome of the loop, finding by finding: [inl d] for a move that
    succeeded with destination [d], [inr m] for the line printed when it
    failed.  Each finding is handled in the state the findings before it
    have left, and its outcome is that of its own move. *)
Lemma mover_cada_uno_resultados (sospechosos : list info) :
  ∀ w destinos w',
    mover_cada_uno sospechosos [] w = Vale (destinos, w') →
    ∃ resultados : list (string + string),
      length resultados = length sospechosos ∧
      destinos = omap (λ r, match r with inl d => Some d | inr _ => None end) resultados ∧
      mundo_salida w'
      = mundo_salida w ++ omap (λ r, match r with inl _ => None | inr m => Some m end) resultados ∧
      ∀ antes i despues,
        sospechosos = antes ++ i :: despues →
        ∃ dk wk d wk1,
          mover_cada_uno antes [] w = Vale (dk, wk) ∧
          elegir_destino (ruta i) wk = (d, wk1) ∧
          match shutil_move (mundo_veto wk1) (mundo_fs wk1) (ruta i) d with
          | Movido fs' =>
              resultados !! length antes = Some (inl (str d)) ∧
              mover_cada_uno (antes ++ [i]) [] w
              = Vale (dk ++ [str d], con_fs wk1 fs')
          | Fallido e fs' =>
              resultados !! length antes = Some (inr (linea_error (ruta i) e)) ∧
              mover_cada_uno (antes ++ [i]) [] w
              = Vale (dk, print (linea_error (ruta i) e) (con_fs wk1 fs'))
          end.
Proof.
  induction sospechosos as [|x s IH] using rev_ind; intros w destinos w'.
  - intros [= <- <-]. exists []. split_and!; [done|done|by rewrite app_nil_r|].
    intros antes i despues H. by destruct antes.
  - rewrite mover_cada_uno_app.
    destruct (mover_cada_uno s [] w) as [[d1 w1]|e] eqn:Hs; [|done].
    destruct (IH _ _ _ Hs) as (rs & Hlen & Hd & Hsal & Hk).
    destruct (Path_exists w1 (barra RUTA_CUARENTENA (Path_name (ruta x))))
      as [b|e] eqn:Hx; [|by rewrite (mover_cada_uno_lanza _ _ _ _ _ Hx)].
    destruct (elegir_destino (ruta x) w1) as [d wk1] eqn:He.
    pose proof (elegir_destino_mundo (ruta x) w1) as [_ Hs1]. rewrite He in Hs1.
    cbn [snd] in Hs1.
    rewrite (mover_cada_uno_paso _ _ _ _ _ _ _ Hx He).
    assert (Hult : ∀ (r : string + string) antes i despues,
              s ++ [x] = antes ++ i :: despues →
              (despues = [] ∧ antes = s ∧ i = x) ∨
              (∃ despues', despues = despues' ++ [x] ∧ s = antes ++ i :: despues')).
    { intros _ antes i despues E.
      destruct despues as [|y despues _] using rev_ind.
      - apply app_inj_tail in E as [-> ->]. by left.
      - right. rewrite app_comm_cons, app_assoc in E.
        apply app_inj_tail in E as [-> ->]. by exists despues. }
    destruct (shutil_move (mundo_veto wk1) (mundo_fs wk1) (ruta x) d)
      as [fs'|e fs'] eqn:Hm; intros [= <- <-].
    + exists (rs ++ [inl (str d)]). split_and!.
      * rewrite !length_app. simpl. lia.
      * rewrite omap_app. simpl. by rewrite Hd.
      * rewrite omap_app. simpl. rewrite app_nil_r, Hs1. exact Hsal.
      * intros antes i despues E.
        destruct (Hult (inl "") _ _ _ E) as [(-> & -> & ->)|(despues' & -> & ->)].
        -- exists d1, w1, d, wk1. rewrite Hm. split_and!; [done|done| |].
           ++ rewrite lookup_app_r by lia. by rewrite Hlen, Nat.sub_diag.
           ++ rewrite mover_cada_uno_app, Hs.
              by rewrite (mover_cada_uno_paso _ _ _ _ _ _ _ Hx He), Hm.
        -- destruct (Hk antes i despues' eq_refl) as (dk & wk & d' & wk1' & H1 & H2 & H3).
           exists dk, wk, d', wk1'. split_and!; [done|done|].
           assert (Hlt : (length antes < length rs)%nat).
           { rewrite Hlen, length_app. simpl. lia. }
           destruct (shutil_move _ _ _ d'); rewrite lookup_app_l by done; exact H3.
    + exists (rs ++ [inr (linea_error (ruta x) e)]). split_and!.
      * rewrite !length_app. simpl. lia.
      * rewrite omap_app. simpl. by rewrite app_nil_r.
      * rewrite omap_app. simpl. rewrite Hs1, Hsal. by rewrite <- app_assoc.
      * intros antes i despues E.
        destruct (Hult (inl "") _ _ _ E) as [(-> & -> & ->)|(despues' & -> & ->)].
        -- exists d1, w1, d, wk1. rewrite Hm. split_and!; [done|done| |].
           ++ rewrite lookup_app_r by lia. by rewrite Hlen, Nat.sub_diag.
           ++ rewrite mover_cada_uno_app, Hs.
              by rewrite (mover_cada_uno_paso _ _ _ _ _ _ _ Hx He), Hm.
        -- destruct (Hk antes i despues' eq_refl) as (dk & wk & d' & wk1' & H1 & H2 & H3).
           exists dk, wk, d', wk1'. split_and!; [done|done|].
           assert (Hlt : (length antes < length rs)%nat).
           { rewrite Hlen, length_app. simpl. lia. }
           destruct (shutil_move _ _ _ d'); rewrite lookup_app_l by done; exact H3.
Qed.

Lemma omap_inl_inr_length {A B} (l : list (A + B)) :
  (length (omap (λ r, match r with inl d => Some d | inr _ => None end) l)
   + length (omap (λ r, match r with inl _ => None | inr m => Some m end) l)
   = length l)%nat.
Proof. unfold omap. induction l as [|[a|b] l IH]; simpl; lia. Qed.

(** What securing the quarantine root changes when it returns. *)
Lemma asegurar_cuarentena_inv w w1 :
  asegurar_cuarentena w = Vale w1 →
  mundo_salida w1 = mundo_salida w ∧ mundo_veto w1 = mundo_veto w ∧
  mundo_hallazgos w1 = mundo_hallazgos w ∧ mundo_reloj w1 = mundo_reloj w ∧
  mundo_lecturas w1 = mundo_lecturas w ∧
  ((existe (mundo_fs w) RUTA_CUARENTENA = true ∧ w1 = w) ∨
   (existe (mundo_fs w) RUTA_CUARENTENA = false ∧
    mundo_veto w (LlMkdir RUTA_CUARENTENA) = None ∧
    w1 = con_fs w (<[RUTA_CUARENTENA := Directorio true 4096]> (mundo_fs w)))).
Proof.
  destruct (existe (mundo_fs w) RUTA_CUARENTENA) eqn:He.
  - rewrite asegurar_cuarentena_existe by done. intros [= <-].
    split_and!; try done. by left.
  - rewrite asegurar_cuarentena_ausente by done.
    destruct (mundo_veto w (LlMkdir RUTA_CUARENTENA)); [done|].
    intros [= <-]. split_and!; try done. by right.
Qed.

End Cuarentena.

(** ** The walk *)

Section Recorrido.

Lemma lookup_profundidad (fs : FS) p x :
  fs !! p = Some x → (length p ≤ profundidad fs)%nat.
Proof.
  intros H. unfold profundidad. apply max_list_elem_of_le.
  apply list_elem_of_fmap. exists (p, x). split; [done|].
  by apply elem_of_map_to_list.
Qed.

Lemma scandir_elem (fs : FS) top e :
  e ∈ scandir fs top → fs !! (top ++ [e.1]) = Some e.2.
Proof.
  unfold scandir. intros ([k v] & Hkv & He)%list_elem_of_omap.
  simpl in He. destruct (decide _) as [[Hne Hpar]|]; [|done].
  injection He as <-. simpl. apply elem_of_map_to_list in Hkv.
  subst top. unfold Path_parent, Path_name.
  by rewrite <- app_removelast_last.
Qed.

(** The descent never needs more than [profundidad fs] steps. *)
Lemma walk_profundidad (fs : FS) (n m : nat) (top : Path) :
  (profundidad fs < n + length top)%nat →
  (profundidad fs < m + length top)%nat →
  walk n fs top = walk m fs top.
Proof.
  revert m top. induction n as [|n IH]; intros m top Hn Hm.
  - destruct m as [|m]; [done|]. simpl.
    destruct top as [|c top]; [simpl in Hn; lia|].
    unfold nodo_en. destruct (fs !! (c :: top)) as [x|] eqn:Hl; [|done].
    apply lookup_profundidad in Hl. simpl in *. lia.
  - destruct m as [|m].
    + simpl. destruct top as [|c top]; [simpl in Hm; lia|].
      unfold nodo_en. destruct (fs !! (c :: top)) as [x|] eqn:Hl; [|done].
      apply lookup_profundidad in Hl. simpl in *. lia.
    + simpl. destruct (nodo_en fs top) as [[|[] ?]|]; try done.
      f_equal. apply flat_map_ext. intros d.
      apply IH; rewrite length_app; simpl; lia.
Qed.

Lemma os_walk_estable (fs : FS) (n : nat) (top : Path) :
  (profundidad fs < n)%nat → walk n fs top = os_walk fs top.
Proof. intros H. unfold os_walk. apply walk_profundidad; lia. Qed.

Lemma os_walk_inaccesible (fs : FS) :
  raiz_accesible fs = false → os_walk fs RUTA_BASE = [].
Proof.
  unfold raiz_accesible, os_walk. cbn [walk].
  by destruct (nodo_en fs RUTA_BASE) as [[|[] ?]|].
Qed.

Lemma recorrer_archivos_spec (fs : FS) carpeta archivos acc :
  recorrer_archivos fs carpeta archivos acc
  = acc ++ omap (analizar_fichero fs)
             (filter (λ r, ignorado r = false) (map (barra carpeta) archivos)).
Proof.
  revert acc. induction archivos as [|a resto IH]; intros acc; simpl.
  - by rewrite app_nil_r.
  - rewrite filter_cons. destruct (ignorado (barra carpeta a)) eqn:Hi.
    + rewrite decide_False by done. apply IH.
    + rewrite decide_True by done. simpl.
      destruct (analizar_fichero fs (barra carpeta a)); rewrite IH; [|done].
      by rewrite <- app_assoc.
Qed.

Lemma recorrer_carpetas_spec (fs : FS) tripletas acc :
  recorrer_carpetas fs tripletas acc
  = acc ++ omap (analizar_fichero fs)
             (filter (λ r, ignorado r = false)
                (flat_map (λ t : Path * list string * list string,
                             map (barra t.1.1) t.2) tripletas)).
Proof.
  revert acc. induction tripletas as [|[[c s] a] resto IH]; intros acc; simpl.
  - by rewrite app_nil_r.
  - rewrite IH, recorrer_archivos_spec, filter_app, omap_app. by rewrite <- app_assoc.
Qed.

Lemma recorrer_directorio_spec (fs : FS) :
  recorrer_directorio fs
  = omap (analizar_fichero fs)
      (filter (λ r, ignorado r = false) (ficheros_visitados fs)).
Proof. unfold recorrer_directorio. by rewrite recorrer_carpetas_spec. Qed.

Lemma lower_ignoradas (ext : string) :
  PyStr.lower ext ∈ EXTENSIONES_IGNORADAS →
  ∃ e, ext = String "." e ∧ e ≠ "" ∧ PyStr.rfind e "." = -1.
Proof.
  intros Hin. destruct ext as [|c e].
  { exfalso. simpl in Hin. unfold EXTENSIONES_IGNORADAS in Hin.
    repeat (apply elem_of_cons in Hin as [Hin | Hin]; [done|]).
    by apply elem_of_nil in Hin. }
  assert (Hr : PyStr.rfind (PyStr.lower (String c e)) "." = 0).
  { unfold EXTENSIONES_IGNORADAS in Hin.
    repeat (apply elem_of_cons in Hin as [-> | Hin]; [reflexivity|]).
    by apply elem_of_nil in Hin. }
  assert (Hl : (2 ≤ String.length (PyStr.lower (String c e)))%nat).
  { unfold EXTENSIONES_IGNORADAS in Hin.
    repeat (apply elem_of_cons in Hin as [-> | Hin]; [simpl; lia|]).
    by apply elem_of_nil in Hin. }
  rewrite rfind_lower in Hr. rewrite lower_length in Hl. simpl in Hr, Hl.
  pose proof (rfind_rango e ".").
  destruct (Z.leb_spec 0 (PyStr.rfind e ".")); [lia|].
  destruct (Ascii.eqb_spec c ".") as [->|]; [|lia].
  exists e. split_and!; [done| |lia].
  intros ->. simpl in Hl. lia.
Qed.

(** A file is left out exactly when its name ends, after a non-empty stem,
    with one of the ignored extensions written in any case. *)
Lemma ignorado_spec (p : Path) :
  ignorado p = true ↔
  ∃ base ext, Path_name p = base +:+ ext ∧ base ≠ "" ∧
              PyStr.lower ext ∈ EXTENSIONES_IGNORADAS.
Proof.
  unfold ignorado. rewrite bool_decide_eq_true. split.
  - intros Hin.
    assert (Hne : Path_suffix p ≠ "").
    { intros E. rewrite E in Hin. unfold EXTENSIONES_IGNORADAS in Hin.
      simpl in Hin.
      repeat (apply elem_of_cons in Hin as [Hin | Hin]; [done|]).
      by apply elem_of_nil in Hin. }
    destruct (suffix_inv p Hne) as (base & ext & Hn & Hb & He & Hr & Hs).
    exists base, (String "." ext). split_and!; [done|done|by rewrite <- Hs].
  - intros (base & ext & Hn & Hb & Hin).
    destruct (lower_ignoradas ext Hin) as (e & -> & He & Hr).
    destruct (suffix_app p base e Hn Hb He Hr) as [-> _]. done.
Qed.

End Recorrido.

(** ** Worked examples *)

Section Ejemplos.

Lemma supera_umbral_8 : supera_umbral (Some (entropia_de todos_los_bytes)) = true.
Proof.
  unfold supera_umbral. apply bool_decide_eq_true.
  rewrite entropia_de_cada_uno.
  - unfold UMBRAL_ENTROPIA. lra.
  - by vm_compute.
  - intros b. destruct b; by vm_compute.
Qed.

Lemma supera_umbral_0 : supera_umbral (Some (entropia_de ["000"%byte])) = false.
Proof.
  unfold supera_umbral. apply bool_decide_eq_false.
  rewrite (entropia_de_identicos "000"%byte) by (by repeat constructor).
  unfold UMBRAL_ENTROPIA. lra.
Qed.

(** No finding: the name does not match and the entropy is absent. *)
Example analizar_sin_motivos_ausente : analizar_fichero ∅ ["data.bin"] = None.
Proof. reflexivity. Qed.

(** No finding: the name does not match and the entropy is below the
    threshold. *)
Example analizar_sin_motivos_bajo : analizar_fichero fs_un_byte ["f.bin"] = None.
Proof.
  unfold analizar_fichero.
  change (extension_sospechosa ["f.bin"]) with false.
  change (calcular_entropia fs_un_byte ["f.bin"])
    with (Some (entropia_de ["000"%byte])).
  by rewrite supera_umbral_0.
Qed.

(** High entropy under a plain name: the reason is the entropy alone. *)
Example analizar_solo_entropia :
  analizar_fichero fs_todos_los_bytes ["g.bin"]
  = Some {| ruta := ["g.bin"]; tamano := 256;
            entropia := Some (entropia_de todos_los_bytes);
            motivos := ["entropia"] |}.
Proof.
  unfold analizar_fichero.
  change (extension_sospechosa ["g.bin"]) with false.
  replace (calcular_entropia fs_todos_los_bytes ["g.bin"])
    with (Some (entropia_de todos_los_bytes)) by reflexivity.
  rewrite supera_umbral_8. reflexivity.
Qed.

(** High entropy under a suspicious name: both reasons, in order. *)
Example analizar_ambos_motivos :
  analizar_fichero fs_cifrado ["g.locked"]
  = Some {| ruta := ["g.locked"]; tamano := 256;
            entropia := Some (entropia_de todos_los_bytes);
            motivos := ["extension"; "entropia"] |}.
Proof.
  unfold analizar_fichero.
  change (extension_sospechosa ["g.locked"]) with true.
  replace (calcular_entropia fs_cifrado ["g.locked"])
    with (Some (entropia_de todos_los_bytes)) by reflexivity.
  rewrite supera_umbral_8. reflexivity.
Qed.

(** A suspicious name on a file that cannot be read: the extension alone, and
    no entropy. *)
Example analizar_solo_extension :
  analizar_fichero fs_ilegible ["Compartido"; "x.locked"]
  = Some {| ruta := ["Compartido"; "x.locked"]; tamano := 2;
            entropia := None; motivos := ["extension"] |}.
Proof. reflexivity. Qed.

(** A picture of the highest entropy is left out of the scan. *)
Example recorrer_directorio_foto :
  ficheros_visitados fs_foto = [["Compartido"; "photo.jpg"]] ∧
  recorrer_directorio fs_foto = [].
Proof. split; by vm_compute. Qed.

(** A failed move does not stop the next one. *)
Example mover_a_cuarentena_sigue :
  mover_a_cuarentena [hallazgo_ausente; hallazgo_a] (mundo_de fs_homonimos)
  = Vale (["/cuarentena_ransomware/x.locked"],
          print "[!] Error al mover /Compartido/c/y.enc a cuarentena: [Errno 2] No such file or directory: '/Compartido/c/y.enc'"
            (mundo_de (<[ ["cuarentena_ransomware"; "x.locked"] := Fichero ["001"%byte] true ]>
                         (delete ["Compartido"; "a"; "x.locked"] fs_homonimos)))).
Proof. by vm_compute. Qed.

(** [mkdir(parents=True)] makes the missing ancestors. *)
Example Path_mkdir_padres :
  Path_mkdir sin_veto ∅ ["a"; "b"; "c"]
  = Vale (list_to_map [ (["a"], Directorio true 4096);
                        (["a"; "b"], Directorio true 4096);
                        (["a"; "b"; "c"], Directorio true 4096) ]).
Proof. by vm_compute. Qed.

(** The same scan, the move succeeding in one world and failing in the
    other: the reports agree, the destinations do not. *)
Example informe_con_y_sin_movimiento :
  ∃ e1 e2,
    main (mundo_de fs_ilegible) = Vale e1 ∧
    main (mundo_de fs_cuarentena_ocupada) = Vale e2 ∧
    ej_destinos e1 = ["/cuarentena_ransomware/x.locked"] ∧
    ej_destinos e2 = [] ∧
    ej_informe e1 = ej_informe e2 ∧
    informe_total (ej_informe e1) = 1%nat.
Proof.
  eexists _, _. split; [by vm_compute|]. split; [by vm_compute|]. by split_and!.
Qed.

(** An unprivileged process and no quarantine directory: [mkdir] raises and
    the call ends there, also when there is nothing to move; the run ends
    before any report. *)
Example mover_a_cuarentena_sin_permiso :
  mover_a_cuarentena [] (mundo_con veto_mkdir fs_foto)
  = Lanza (PermissionError RUTA_CUARENTENA) ∧
  main (mundo_con veto_mkdir fs_foto) = Lanza (PermissionError RUTA_CUARENTENA).
Proof. split; by vm_compute. Qed.

(** A quarantine directory the process may not look into:
    [destino.exists()] raises, outside the [try]. *)
Example mover_a_cuarentena_exists_lanza :
  mover_a_cuarentena [hallazgo_a] (mundo_con veto_stat fs_homonimos)
  = Lanza (PermissionError ["cuarentena_ransomware"; "x.locked"]).
Proof. by vm_compute. Qed.

(** The rename refused, the copy made, the removal refused: an error line,
    no destination, and the file in both places. *)
Example mover_a_cuarentena_en_dos_sitios :
  ∃ w', mover_a_cuarentena [hallazgo_a] (mundo_con veto_origen fs_homonimos)
        = Vale ([], w') ∧
        mundo_salida w'
        = ["[!] Error al mover /Compartido/a/x.locked a cuarentena: [Errno 13] Permission denied: '/Compartido/a/x.locked'"] ∧
        mundo_fs w' !! ["Compartido"; "a"; "x.locked"] = Some (Fichero ["001"%byte] true) ∧
        mundo_fs w' !! ["cuarentena_ransomware"; "x.locked"]
        = Some (Fichero ["001"%byte] true).
Proof. eexists. split; [by vm_compute|]. split_and!; by vm_compute. Qed.

(** A regular file where the quarantine directory should be: the rename
    fails, and so does the copy, on the destination, which is not below a
    directory, or already on a source that cannot be read. *)
Example mover_a_cuarentena_sobre_fichero :
  ∃ w1 w2,
    mover_a_cuarentena [hallazgo_a]
      (mundo_de (<[ ["cuarentena_ransomware"] := Fichero [] true ]> fs_homonimos))
    = Vale ([], w1) ∧
    mundo_salida w1
    = ["[!] Error al mover /Compartido/a/x.locked a cuarentena: [Errno 20] Not a directory: '/cuarentena_ransomware/x.locked'"] ∧
    mover_a_cuarentena [hallazgo_ilegible] (mundo_de fs_cuarentena_ocupada)
    = Vale ([], w2) ∧
    mundo_salida w2
    = ["[!] Error al mover /Compartido/x.locked a cuarentena: [Errno 13] Permission denied: '/Compartido/x.locked'"].
Proof. eexists _, _. split_and!; by vm_compute. Qed.

End Ejemplos.

(** ** More on the entropy *)

Section MasEntropia.

Local Open Scope R_scope.

Lemma veces_Permutation (i : nat) (d1 d2 : list byte) :
  d1 ≡ₚ d2 → veces i d1 = veces i d2.
Proof. intros H. unfold veces. by rewrite H. Qed.

Lemma ln_le_mono (x y : R) : 0 < x → x <= y → ln x <= ln y.
Proof.
  intros Hx [Hlt| ->]; [|lra]. left. by apply ln_increasing.
Qed.

Lemma termino_cota_log n f :
  (0 < n)%nat → termino n f <= INR f / INR n * math_log2 (INR n).
Proof.
  intros Hn. pose proof ln2_pos as HL.
  assert (Hn0 : 0 < INR n) by (apply lt_0_INR; lia).
  unfold termino. destruct (Nat.eqb_spec f 0) as [->|Hf0].
  - simpl. lra.
  - assert (Hf : 1 <= INR f).
    { replace 1 with (INR 1) by done. apply le_INR. lia. }
    assert (Hlnf : 0 <= ln (INR f)).
    { rewrite <- ln_1. apply ln_le_mono; lra. }
    assert (Hln : ln (INR f / INR n) = ln (INR f) - ln (INR n)).
    { unfold Rdiv. rewrite ln_mult, ln_Rinv by (try apply Rinv_0_lt_compat; lra). lra. }
    unfold math_log2. rewrite Hln.
    assert (Hp : 0 < INR f / INR n) by (apply Rdiv_lt_0_compat; lra).
    assert (Hi : 0 < / ln 2) by (by apply Rinv_0_lt_compat).
    set (p := INR f / INR n) in *. set (a := ln (INR f)) in *.
    set (b := ln (INR n)) in *.
    assert (H1 : 0 <= p * a * / ln 2)
      by (apply Rmult_le_pos; [apply Rmult_le_pos|]; lra).
    unfold Rdiv. lra.
Qed.

Lemma entropia_de_cota_longitud (datos : list byte) :
  datos ≠ [] → entropia_de datos <= math_log2 (INR (length datos)).
Proof.
  intros Hne. rewrite entropia_de_suma by done.
  assert (Hn : (0 < length datos)%nat) by (destruct datos; [done|simpl; lia]).
  assert (Hn0 : 0 < INR (length datos)) by (apply lt_0_INR; lia).
  etransitivity.
  - apply suma_R_le with
      (g := λ f, math_log2 (INR (length datos)) / INR (length datos) * INR f + 0).
    intros f _. pose proof (termino_cota_log (length datos) f Hn). 
    unfold Rdiv in *. lra.
  - rewrite suma_R_lineal, contar_frecuencias_sum.
    apply Req_le. field. lra.
Qed.

Lemma ln_181 : 2 * ln 181 < 15 * ln 2.
Proof.
  replace (2 * ln 181) with (ln (181 * 181)) by (rewrite ln_mult; lra).
  replace (15 * ln 2) with (ln (2 ^ 15)) by (rewrite ln_pow by lra; simpl; lra).
  apply ln_increasing; simpl; lra.
Qed.

Lemma entropia_de_corta (datos : list byte) :
  (length datos ≤ 181)%nat → entropia_de datos < UMBRAL_ENTROPIA.
Proof.
  intros Hlen. unfold UMBRAL_ENTROPIA.
  destruct datos as [|b d] eqn:E; [simpl; lra|]. rewrite <- E in *.
  assert (Hne : datos ≠ []) by (by rewrite E).
  pose proof (entropia_de_cota_longitud datos Hne) as Hc.
  assert (Hn : (0 < length datos)%nat) by (rewrite E; simpl; lia).
  assert (Hn0 : 0 < INR (length datos)) by (apply lt_0_INR; lia).
  assert (H181 : INR (length datos) <= 181).
  { replace 181 with (INR 181) by (rewrite INR_IZR_INZ; apply f_equal; by vm_compute).
    apply le_INR. lia. }
  pose proof (ln_le_mono _ _ Hn0 H181) as Hln.
  pose proof ln_181. pose proof ln2_pos as HL.
  unfold math_log2 in Hc.
  assert (ln (INR (length datos)) / ln 2 < 7.5); [|lra].
  apply Rmult_lt_reg_r with (ln 2); [done|].
  unfold Rdiv. rewrite Rmult_assoc, Rinv_l by lra. lra.
Qed.

Lemma entropia_de_Permutation (d1 d2 : list byte) :
  d1 ≡ₚ d2 → entropia_de d1 = entropia_de d2.
Proof.
  intros H. destruct d1 as [|b1 d1], d2 as [|b2 d2].
  - done.
  - by apply Permutation_nil_cons in H.
  - symmetry in H. by apply Permutation_nil_cons in H.
  - rewrite !entropia_de_suma by done. rewrite !contar_frecuencias_eq.
    rewrite (Permutation_length H).
    f_equal. f_equal. apply map_ext. intros i. by apply veces_Permutation.
Qed.

Lemma suma_veces (datos : list byte) (l : list nat) (m : nat) :
  (∀ i, veces i datos = 0%nat ∨ veces i datos = m) →
  sum_list (map (λ i, veces i datos) l)
  = (m * length (filter (λ i, veces i datos ≠ 0%nat) l))%nat.
Proof.
  intros H. induction l as [|i l IH]; [simpl; lia|].
  rewrite filter_cons. simpl. rewrite IH.
  destruct (H i) as [E|E]; rewrite E.
  - rewrite decide_False by lia. lia.
  - destruct (decide (m ≠ 0%nat)); simpl; lia.
Qed.

Lemma entropia_de_uniforme (datos : list byte) (m : nat) :
  datos ≠ [] →
  (∀ i, veces i datos = 0%nat ∨ veces i datos = m) →
  entropia_de datos = math_log2 (INR (valores_distintos datos)).
Proof.
  intros Hne Hu. rewrite entropia_de_shannon by done. unfold shannon.
  assert (Hlen : length datos = (m * valores_distintos datos)%nat).
  { rewrite <- contar_frecuencias_sum, contar_frecuencias_eq.
    by apply suma_veces. }
  assert (Hn : (0 < length datos)%nat) by (destruct datos; [done|simpl; lia]).
  assert (Hm : (0 < m)%nat) by (destruct m; [lia|lia]).
  assert (Hk : (0 < valores_distintos datos)%nat)
    by (destruct (valores_distintos datos); lia).
  assert (Hm0 : 0 < INR m) by (apply lt_0_INR; lia).
  assert (Hk0 : 0 < INR (valores_distintos datos)) by (apply lt_0_INR; lia).
  set (k := valores_distintos datos) in *.
  rewrite map_ext_in with (g := λ _, / INR k * math_log2 (/ INR k)).
  - rewrite suma_R_const. fold (valores_distintos datos). fold k.
    unfold math_log2. rewrite ln_Rinv by done.
    pose proof ln2_pos. field. lra.
  - intros i Hi. apply list_elem_of_In, list_elem_of_filter in Hi as [Hi _].
    unfold p_empirica. destruct (Hu i) as [E|E]; [done|]. rewrite E, Hlen.
    rewrite mult_INR.
    replace (INR m / (INR m * INR k)) with (/ INR k) by (field; lra). done.
Qed.

End MasEntropia.

(** ** The pattern *)

Section Patron.

Lemma lower_ascii_idem (c : ascii) :
  PyStr.lower_ascii (PyStr.lower_ascii c) = PyStr.lower_ascii c.
Proof. destruct c as [[] [] [] [] [] [] [] []]; reflexivity. Qed.

Lemma es_palabra_lower (c : ascii) : es_palabra (PyStr.lower_ascii c) = es_palabra c.
Proof. destruct c as [[] [] [] [] [] [] [] []]; reflexivity. Qed.

Lemma lower_ascii_salto (c : ascii) :
  Ascii.eqb (PyStr.lower_ascii c) "010" = Ascii.eqb c "010".
Proof. destruct c as [[] [] [] [] [] [] [] []]; reflexivity. Qed.

Lemma es_palabra_punto (c : ascii) : es_palabra c = true → Ascii.eqb c "." = false.
Proof. destruct c as [[] [] [] [] [] [] [] []]; by vm_compute. Qed.

Lemma lower_idem (s : string) : PyStr.lower (PyStr.lower s) = PyStr.lower s.
Proof. induction s as [|c s IH]; simpl; [done|]. by rewrite lower_ascii_idem, IH. Qed.

Lemma lower_desde (i : nat) (s : string) :
  PyStr.desde i (PyStr.lower s) = PyStr.lower (PyStr.desde i s).
Proof. revert s. induction i as [|i IH]; intros [|c s]; simpl; auto. Qed.

Lemma lower_hasta (i : nat) (s : string) :
  PyStr.hasta i (PyStr.lower s) = PyStr.lower (PyStr.hasta i s).
Proof.
  revert s. induction i as [|i IH]; intros [|c s]; simpl; auto.
  by rewrite IH.
Qed.

Lemma todos_es_palabra_lower (s : string) :
  PyStr.todos es_palabra (PyStr.lower s) = PyStr.todos es_palabra s.
Proof. induction s as [|c s IH]; simpl; [done|]. by rewrite es_palabra_lower, IH. Qed.

Lemma eqb_salto_lower (s : string) :
  String.eqb (PyStr.lower s) (String "010" "") = String.eqb s (String "010" "").
Proof.
  destruct s as [|c [|d s]]; simpl; [done| |].
  - by rewrite lower_ascii_salto.
  - rewrite lower_ascii_salto. by destruct (Ascii.eqb c "010").
Qed.

Lemma casa_grupo_lower (s : string) : casa_grupo (PyStr.lower s) = casa_grupo s.
Proof.
  unfold casa_grupo, PyStr.len.
  by rewrite lower_idem, lower_length, lower_desde, todos_es_palabra_lower.
Qed.

Lemma casa_hasta_el_final_lower (s : string) :
  casa_hasta_el_final (PyStr.lower s) = casa_hasta_el_final s.
Proof.
  unfold casa_hasta_el_final.
  by rewrite casa_grupo_lower, lower_length, lower_desde, lower_hasta,
     eqb_salto_lower, casa_grupo_lower.
Qed.

Lemma patron_search_lower (s : string) :
  patron_search (PyStr.lower s) = patron_search s.
Proof.
  induction s as [|c s IH]; simpl; [done|].
  by rewrite lower_ascii_punto, casa_hasta_el_final_lower, IH.
Qed.

Lemma todos_es_palabra_sin_punto (s : string) :
  PyStr.todos es_palabra s = true → PyStr.rfind s "." = -1.
Proof.
  induction s as [|c s IH]; simpl; [done|].
  intros [Hc Hs]%andb_true_iff. rewrite (IH Hs). simpl.
  by rewrite (es_palabra_punto c Hc).
Qed.

Lemma startswith_hasta (pre s : string) :
  PyStr.startswith pre s = true → PyStr.hasta (String.length pre) s = pre.
Proof.
  revert s. induction pre as [|a pre IH]; intros [|b s]; simpl; try done.
  intros [Hab Hs]%andb_true_iff. apply Ascii.eqb_eq in Hab as ->.
  by rewrite (IH s Hs).
Qed.

Lemma casa_grupo_sin_punto (s : string) :
  casa_grupo s = true → PyStr.rfind s "." = -1.
Proof.
  unfold casa_grupo. intros [Hw|He]%orb_true_iff.
  - rewrite <- rfind_lower. unfold PALABRAS_PATRON in Hw. simpl in Hw.
    repeat (apply orb_true_iff in Hw as [Hw|Hw];
            [apply String.eqb_eq in Hw as ->; reflexivity|]).
    done.
  - apply andb_true_iff in He as [He Ht]. apply andb_true_iff in He as [He _].
    apply startswith_hasta in He. rewrite lower_hasta in He.
    simpl String.length in He.
    rewrite <- (hasta_desde 10 s), rfind_app.
    rewrite (todos_es_palabra_sin_punto _ Ht).
    change (0 <=? -1) with false. cbv iota.
    by rewrite <- rfind_lower, He.
Qed.

Lemma rfind_salto : PyStr.rfind (String "010" "") "." = -1.
Proof. reflexivity. Qed.

Lemma casa_hasta_el_final_sin_punto (s : string) :
  casa_hasta_el_final s = true → PyStr.rfind s "." = -1.
Proof.
  unfold casa_hasta_el_final. intros [H|H]%orb_true_iff.
  - by apply casa_grupo_sin_punto.
  - apply andb_true_iff in H as [Hn Hg]. apply String.eqb_eq in Hn.
    rewrite <- (hasta_desde (String.length s - 1) s), rfind_app, Hn.
    rewrite rfind_salto. change (0 <=? -1) with false. cbv iota.
    by apply casa_grupo_sin_punto.
Qed.

(** The pattern looks at the text after the last dot only. *)
Lemma patron_search_ultimo_punto (base resto : string) :
  PyStr.rfind resto "." = -1 →
  patron_search (base +:+ String "." resto) = casa_hasta_el_final resto.
Proof.
  intros Hr.
  assert (Hno : ∀ t, PyStr.rfind t "." = -1 → patron_search t = false).
  { intros t. induction t as [|c t IH]; simpl; [done|].
    destruct (Z.leb_spec 0 (PyStr.rfind t ".")) as [|Hlt]; [lia|].
    destruct (Ascii.eqb c "."); [done|]. intros _. simpl. apply IH.
    pose proof (rfind_rango t "."). lia. }
  induction base as [|c base IH].
  - rewrite app_nil_s. simpl. rewrite (Hno _ Hr). by rewrite orb_false_r.
  - rewrite app_cons_s. simpl. rewrite IH.
    destruct (Ascii.eqb c ".") eqn:Hc; [|done]. simpl.
    destruct (casa_hasta_el_final (base +:+ String "." resto)) eqn:Hm; [|done].
    apply casa_hasta_el_final_sin_punto in Hm. rewrite rfind_app in Hm.
    simpl in Hm. rewrite Hr in Hm. simpl in Hm.
    pose proof (len_nonneg base).
    destruct (Z.leb_spec 0 1); lia.
Qed.

Lemma patron_search_sin_punto (s : string) :
  PyStr.rfind s "." = -1 → patron_search s = false.
Proof.
  induction s as [|c t IH]; simpl; [done|].
  destruct (Z.leb_spec 0 (PyStr.rfind t ".")) as [|Hlt]; [lia|].
  destruct (Ascii.eqb c "."); [done|]. intros _. simpl. apply IH.
  pose proof (rfind_rango t "."). lia.
Qed.

Lemma ignorado_no_sospechoso (p : Path) :
  ignorado p = true → extension_sospechosa p = false.
Proof.
  intros (base & ext & Hn & Hb & Hin)%ignorado_spec.
  destruct (lower_ignoradas ext Hin) as (e & -> & He & Hr).
  unfold extension_sospechosa. rewrite Hn, patron_search_ultimo_punto by done.
  rewrite <- casa_hasta_el_final_lower.
  simpl in Hin. unfold EXTENSIONES_IGNORADAS in Hin.
  assert (Hp : PyStr.lower_ascii "." = "."%char) by reflexivity.
  rewrite Hp in Hin.
  repeat (apply elem_of_cons in Hin as [Hin|Hin];
          [injection Hin as ->; reflexivity|]).
  by apply elem_of_nil in Hin.
Qed.

End Patron.

(** ** What the scan visits *)

Section MasRecorrido.

Lemma scandir_elem_inv (fs : FS) (top : Path) (x : string) (v : nodo) :
  fs !! (top ++ [x]) = Some v → (x, v) ∈ scandir fs top.
Proof.
  intros H. unfold scandir. apply list_elem_of_omap.
  exists (top ++ [x], v). split; [by apply elem_of_map_to_list|].
  simpl. rewrite decide_True.
  - by rewrite Path_name_snoc.
  - split; [by destruct top|]. apply Path_parent_snoc.
Qed.

Lemma scandir_nombres (fs : FS) (top : Path) : NoDup (scandir fs top).*1.
Proof.
  assert (H : ∀ l : list (Path * nodo),
            NoDup l.*1 →
            NoDup (omap (λ kv : Path * nodo,
                     if decide (kv.1 ≠ [] ∧ Path_parent kv.1 = top)
                     then Some (Path_name kv.1, kv.2) else None) l).*1).
  { induction l as [|[k v] l IH]; simpl; [constructor|].
    intros [Hk Hl]%NoDup_cons. destruct (decide _) as [[Hne Hp]|]; [|by apply IH].
    simpl. apply NoDup_cons. split; [|by apply IH].
    intros ([n' v'] & Hn & ([k' v''] & Hin & Hf)%list_elem_of_omap)%list_elem_of_fmap.
    simpl in *. destruct (decide _) as [[Hne' Hp']|]; [|done].
    injection Hf as <- <-. apply Hk. apply list_elem_of_fmap.
    exists (k', v''). split; [|done]. simpl.
    rewrite (app_removelast_last "" Hne), (app_removelast_last "" Hne').
    unfold Path_parent, Path_name in *. by rewrite Hp, Hp', Hn. }
  apply H, NoDup_fst_map_to_list.
Qed.

Lemma walk_elem (fs : FS) (n : nat) (top : Path) t :
  t ∈ walk n fs top →
  ∃ rel, t.1.1 = top ++ rel ∧ listable_hasta fs top rel = true ∧
         t.1.2 = map fst (filter (λ e, es_directorio e = true) (scandir fs (top ++ rel))) ∧
         t.2 = map fst (filter (λ e, es_directorio e = false) (scandir fs (top ++ rel))).
Proof.
  revert top. induction n as [|n IH]; intros top; simpl; [by intros ?%elem_of_nil|].
  destruct (nodo_en fs top) as [[|[] tam]|] eqn:Hn; try by intros ?%elem_of_nil.
  intros [->|Hin]%elem_of_cons.
  - exists []. rewrite app_nil_r. simpl. unfold es_listable. by rewrite Hn.
  - apply list_elem_of_In, in_flat_map in Hin as (d & Hd & Hin).
    apply list_elem_of_In, IH in Hin as (rel & Ht & Hl & Hds & Hfs).
    exists (d :: rel). rewrite <- !app_assoc in *. simpl in *.
    split_and!; try done. unfold es_listable at 1. by rewrite Hn.
Qed.

Lemma walk_elem_inv (fs : FS) (n : nat) (top : Path) (rel : list string) :
  listable_hasta fs top rel = true → (length rel < n)%nat →
  (top ++ rel,
   map fst (filter (λ e, es_directorio e = true) (scandir fs (top ++ rel))),
   map fst (filter (λ e, es_directorio e = false) (scandir fs (top ++ rel))))
  ∈ walk n fs top.
Proof.
  revert top rel. induction n as [|n IH]; intros top rel Hl Hn; [lia|].
  destruct rel as [|d rel]; simpl in Hl; apply andb_true_iff in Hl as [Ht Hl].
  - simpl. unfold es_listable in Ht.
    destruct (nodo_en fs top) as [[|[] tam]|]; try done.
    rewrite app_nil_r. by left.
  - simpl walk. pose proof Ht as Ht'. unfold es_listable in Ht.
    destruct (nodo_en fs top) as [[|[] tam]|]; try done.
    right. apply list_elem_of_In, in_flat_map. exists d. split.
    + assert (Hd : es_listable fs (top ++ [d]) = true).
      { destruct rel; simpl in Hl; by apply andb_true_iff in Hl as [? _]. }
      unfold es_listable in Hd.
      destruct (nodo_en fs (top ++ [d])) as [[|l tam']|] eqn:Hnd; try done.
      rewrite nodo_en_lookup in Hnd by (by destruct top).
      apply scandir_elem_inv in Hnd.
      apply list_elem_of_In, list_elem_of_fmap. exists (d, Directorio l tam').
      split; [done|]. by apply list_elem_of_filter.
    + apply list_elem_of_In.
      replace (top ++ d :: rel) with ((top ++ [d]) ++ rel) by (by rewrite <- app_assoc).
      apply IH; [done|simpl in Hn; lia].
Qed.

Lemma scandir_nombre_valido (fs : FS) (top : Path) e :
  nombres_validos fs → e ∈ scandir fs top → e.1 ≠ "" ∧ barra top e.1 = top ++ [e.1].
Proof.
  intros Hv He. pose proof (scandir_elem fs top e He) as Hl.
  apply Hv in Hl. simpl in Hl.
  assert (e.1 ≠ "").
  { intros E. apply Hl. rewrite E. apply elem_of_app. right. by left. }
  split; [done|]. by apply barra_nombre.
Qed.

Lemma nondirs_elem (fs : FS) (top : Path) (x : string) :
  x ∈ map fst (filter (λ e, es_directorio e = false) (scandir fs top)) ↔
  ∃ c l, (x, Fichero c l) ∈ scandir fs top.
Proof.
  rewrite list_elem_of_fmap. split.
  - intros ([n v] & -> & [Hd Hin]%list_elem_of_filter). simpl.
    destruct v as [c l|]; [by exists c, l|done].
  - intros (c & l & Hin). exists (x, Fichero c l). split; [done|].
    by apply list_elem_of_filter.
Qed.

(** The files the scan visits are the regular files found by going down from
    [RUTA_BASE] through directories that can be listed. *)
Lemma ficheros_visitados_spec (fs : FS) (p : Path) :
  nombres_validos fs →
  p ∈ ficheros_visitados fs ↔
  ∃ rel nombre c l,
    p = RUTA_BASE ++ rel ++ [nombre] ∧
    listable_hasta fs RUTA_BASE rel = true ∧
    fs !! p = Some (Fichero c l).
Proof.
  intros Hv. unfold ficheros_visitados. split.
  - intros ([[carpeta ds] fsn] & Ht & Hp)%list_elem_of_In%in_flat_map.
    apply list_elem_of_In in Ht. apply walk_elem in Ht as (rel & Hc & Hl & _ & Hf).
    cbn [fst snd] in *. subst carpeta fsn.
    apply list_elem_of_In, list_elem_of_fmap in Hp as (x & -> & Hx).
    apply nondirs_elem in Hx as (c & l & Hx).
    destruct (scandir_nombre_valido fs _ _ Hv Hx) as [_ Hb]. cbn [fst] in Hb.
    apply scandir_elem in Hx. cbn [fst snd] in Hx.
    exists rel, x, c, l. rewrite Hb.
    split_and!; [by rewrite <- app_assoc|done|done].
  - intros (rel & nombre & c & l & -> & Hl & Hp).
    apply list_elem_of_In, in_flat_map.
    eexists. split.
    + apply list_elem_of_In. unfold os_walk.
      apply (walk_elem_inv fs _ RUTA_BASE rel Hl).
      apply lookup_profundidad in Hp. rewrite !length_app in Hp. simpl in Hp. lia.
    + cbn [fst snd]. rewrite app_assoc in Hp. apply scandir_elem_inv in Hp.
      destruct (scandir_nombre_valido fs _ _ Hv Hp) as [_ Hb]. cbn [fst] in Hb.
      apply list_elem_of_In, list_elem_of_fmap. exists nombre.
      rewrite Hb, <- app_assoc. split; [done|].
      apply nondirs_elem. by exists c, l.
Qed.

Lemma analizar_fichero_ruta (fs : FS) (p : Path) (i : info) :
  analizar_fichero fs p = Some i → ruta i = p.
Proof.
  unfold analizar_fichero.
  destruct (extension_sospechosa p), (supera_umbral (calcular_entropia fs p));
    simpl; by intros [= <-].
Qed.

Lemma recorrer_directorio_elem (fs : FS) (i : info) :
  i ∈ recorrer_directorio fs ↔
  ruta i ∈ ficheros_visitados fs ∧ ignorado (ruta i) = false ∧
  analizar_fichero fs (ruta i) = Some i.
Proof.
  rewrite recorrer_directorio_spec, list_elem_of_omap. split.
  - intros (p & [Hi Hp]%list_elem_of_filter & Ha).
    rewrite (analizar_fichero_ruta _ _ _ Ha). done.
  - intros (Hp & Hi & Ha). exists (ruta i). split; [|done].
    by apply list_elem_of_filter.
Qed.

Lemma ficheros_walk_elem (fs : FS) (n : nat) (top p : Path) :
  nombres_validos fs →
  p ∈ flat_map (λ t : Path * list string * list string, map (barra t.1.1) t.2)
        (walk n fs top) →
  ∃ rel nombre, p = top ++ rel ++ [nombre].
Proof.
  intros Hv ([[carpeta ds] fsn] & Ht & Hp)%list_elem_of_In%in_flat_map.
  apply list_elem_of_In in Ht. apply walk_elem in Ht as (rel & Hc & Hl & _ & Hf).
  cbn [fst snd] in *. subst carpeta fsn.
  apply list_elem_of_In, list_elem_of_fmap in Hp as (x & -> & Hx).
  apply nondirs_elem in Hx as (c & l & Hx).
  destruct (scandir_nombre_valido fs _ _ Hv Hx) as [_ Hb]. cbn [fst] in Hb.
  exists rel, x. by rewrite Hb, <- app_assoc.
Qed.

Lemma NoDup_fst_filter {A B} (P : A * B → Prop) `{∀ x, Decision (P x)}
    (l : list (A * B)) :
  NoDup l.*1 → NoDup (map fst (filter P l)).
Proof.
  induction l as [|[a b] l IH]; [constructor|].
  intros [Ha Hl]%NoDup_cons. rewrite filter_cons.
  destruct (decide (P (a, b))); [|by apply IH].
  simpl. apply NoDup_cons. split; [|by apply IH].
  intros ([a' b'] & Ha' & [_ Hin]%list_elem_of_filter)%list_elem_of_fmap.
  simpl in Ha'. subst a'. apply Ha. apply list_elem_of_fmap. by exists (a, b').
Qed.

Lemma flat_map_flat_map {A B C} (f : B → list C) (g : A → list B) (l : list A) :
  flat_map f (flat_map g l) = flat_map (λ x, flat_map f (g x)) l.
Proof.
  induction l as [|a l IH]; [done|]. simpl. by rewrite flat_map_app, IH.
Qed.

Lemma NoDup_flat_map {A B} (f : A → list B) (l : list A) :
  NoDup l →
  (∀ x, x ∈ l → NoDup (f x)) →
  (∀ x1 x2 y, x1 ∈ l → x2 ∈ l → y ∈ f x1 → y ∈ f x2 → x1 = x2) →
  NoDup (flat_map f l).
Proof.
  induction l as [|a l IH]; intros Hl Hf Hd; [constructor|]. simpl.
  apply NoDup_cons in Hl as [Ha Hl]. apply NoDup_app. split_and!.
  - apply Hf. by left.
  - intros y Hy (x & Hx & Hyx)%list_elem_of_In%in_flat_map.
    apply list_elem_of_In in Hx, Hyx.
    assert (a = x) as -> by (apply (Hd a x y); [by left|by right|done|done]).
    done.
  - apply IH; [done| |].
    + intros x Hx. apply Hf. by right.
    + intros x1 x2 y H1 H2. apply Hd; by right.
Qed.

(** Every file is visited once. *)
Lemma ficheros_walk_NoDup (fs : FS) (n : nat) (top : Path) :
  nombres_validos fs →
  NoDup (flat_map (λ t : Path * list string * list string, map (barra t.1.1) t.2)
           (walk n fs top)).
Proof.
  intros Hv. revert top. induction n as [|n IH]; intros top; [constructor|].
  simpl walk. destruct (nodo_en fs top) as [[|[] tam]|]; try constructor.
  cbn [flat_map fst snd]. rewrite flat_map_flat_map.
  pose proof (scandir_nombres fs top) as Hn.
  apply NoDup_app. split_and!.
  - apply NoDup_fmap_2_strong; [|by apply NoDup_fst_filter].
    intros x y (cx & lx & Hx)%nondirs_elem (cy & ly & Hy)%nondirs_elem E.
    destruct (scandir_nombre_valido fs _ _ Hv Hx) as [_ Hbx].
    destruct (scandir_nombre_valido fs _ _ Hv Hy) as [_ Hby].
    cbn [fst] in *. rewrite Hbx, Hby in E. apply app_inv_head in E. by injection E.
  - intros p (x & -> & (c & l & Hx)%nondirs_elem)%list_elem_of_fmap.
    destruct (scandir_nombre_valido fs _ _ Hv Hx) as [_ Hbx]. cbn [fst] in Hbx.
    rewrite Hbx.
    intros (d & _ & Hp)%list_elem_of_In%in_flat_map.
    apply list_elem_of_In, ficheros_walk_elem in Hp as (rel & nombre & E); [|done].
    apply (f_equal length) in E. rewrite !length_app in E. simpl in E. lia.
  - apply NoDup_flat_map.
    + by apply NoDup_fst_filter.
    + intros d _. apply IH.
    + intros d1 d2 p _ _ (r1 & n1 & E1)%ficheros_walk_elem
                        (r2 & n2 & E2)%ficheros_walk_elem; try done.
      rewrite E1, <- !app_assoc in E2. apply app_inv_head in E2. by injection E2.
Qed.

Lemma NoDup_omap_inv {A B} (f : A → option B) (g : B → A) (l : list A) :
  (∀ a b, f a = Some b → g b = a) → NoDup l → NoDup (map g (omap f l)).
Proof.
  intros Hfg. induction l as [|a l IH]; [constructor|].
  intros [Ha Hl]%NoDup_cons. simpl. destruct (f a) as [b|] eqn:Hb; [|by apply IH].
  simpl. apply NoDup_cons. split; [|by apply IH].
  rewrite (Hfg _ _ Hb).
  intros (b' & Hg & (a' & Ha' & Hf')%list_elem_of_omap)%list_elem_of_fmap.
  rewrite (Hfg _ _ Hf') in Hg. by subst a'.
Qed.

Lemma recorrer_directorio_NoDup (fs : FS) :
  nombres_validos fs → NoDup (map ruta (recorrer_directorio fs)).
Proof.
  intros Hv. rewrite recorrer_directorio_spec.
  apply NoDup_omap_inv; [apply analizar_fichero_ruta|].
  apply NoDup_filter. by apply ficheros_walk_NoDup.
Qed.

End MasRecorrido.

(** ** What the moves change *)

Section MasCuarentena.

Lemma prefijo_cuarentena (p : Path) :
  p ≠ [] → p `prefix_of` RUTA_CUARENTENA → p = RUTA_CUARENTENA.
Proof.
  intros Hne [k Hk]. unfold RUTA_CUARENTENA in *.
  destruct p as [|c [|c' p]]; [done| |done].
  simpl in Hk. by injection Hk as <- _.
Qed.

Lemma bajo_cuarentena_prefijo (q p : Path) :
  RUTA_CUARENTENA `prefix_of` q → p ≠ [] → p `prefix_of` q →
  RUTA_CUARENTENA `prefix_of` p.
Proof.
  intros [k ->] Hne [k' Hk']. unfold RUTA_CUARENTENA in *.
  destruct p as [|c p]; [done|]. simpl in Hk'. injection Hk' as <- _.
  by exists p.
Qed.

Lemma barra_prefijo (p : Path) (x : string) : p `prefix_of` barra p x.
Proof.
  unfold barra. destruct (decide (x = "")); [done|]. by exists [x].
Qed.

Lemma os_mkdir_vale (veto : Veto) (fs fs' : FS) (p : Path) :
  os_mkdir veto fs p = Vale fs' → fs' = <[p := Directorio true 4096]> fs ∧ p ≠ [].
Proof.
  unfold os_mkdir. destruct (existe fs p) eqn:He; [done|].
  destruct (nodo_en fs (Path_parent p)) as [[|]|]; try done.
  destruct (veto (LlMkdir p)); [done|].
  intros [= <-]. split; [done|]. by intros ->.
Qed.

Lemma Path_mkdir_hoja_marco (veto : Veto) (fs fs' : FS) (q p : Path) :
  Path_mkdir_hoja veto fs q = Vale fs' → (p = [] ∨ p ≠ q) → fs' !! p = fs !! p.
Proof.
  unfold Path_mkdir_hoja. destruct (os_mkdir veto fs q) as [fs1|e] eqn:Hm.
  - intros [= <-] Hp. apply os_mkdir_vale in Hm as [-> Hq].
    rewrite lookup_insert_ne; [done|]. destruct Hp; congruence.
  - destruct e; try done; destruct (es_dir fs q); try done; by intros [= <-].
Qed.

Lemma Path_mkdir_rev_marco (veto : Veto) (rp : list string) (fs fs' : FS) (p : Path) :
  Path_mkdir_rev veto fs rp = Vale fs' →
  (p = [] ∨ ¬ p `prefix_of` rev rp) → fs' !! p = fs !! p.
Proof.
  revert fs fs'. induction rp as [|x rp IH]; intros fs fs'.
  - simpl. destruct (os_mkdir veto fs []) as [fs1|e] eqn:Hm.
    + apply os_mkdir_vale in Hm as [_ ?]. done.
    + destruct e; try done; destruct (es_dir fs []); try done; by intros [= <-].
  - cbn [Path_mkdir_rev]. destruct (os_mkdir veto fs (rev (x :: rp))) as [fs1|e] eqn:Hm.
    + intros [= <-] Hp. apply os_mkdir_vale in Hm as [-> Hq].
      rewrite lookup_insert_ne; [done|]. intros <-. destruct Hp as [?|Hp]; [done|].
      by apply Hp.
    + destruct e; try (destruct (es_dir fs (rev (x :: rp))); try done; by intros [= <-]).
      destruct (Path_mkdir_rev veto fs rp) as [fs1|e] eqn:Hr; [|done].
      intros Hh Hp.
      rewrite (Path_mkdir_hoja_marco _ _ _ _ p Hh).
      * apply (IH _ _ Hr). destruct Hp as [?|Hp]; [by left|right].
        intros Hpre. apply Hp. simpl. by apply prefix_app_r.
      * destruct Hp as [?|Hp]; [by left|right]. intros ->. by apply Hp.
Qed.

Lemma mover_arbol_marco (fs : FS) (src dst p : Path) :
  ¬ src `prefix_of` p → ¬ dst `prefix_of` p →
  mover_arbol fs src dst !! p = fs !! p.
Proof.
  intros Hs Hd. unfold mover_arbol.
  rewrite lookup_union_r.
  - rewrite map_lookup_filter.
    destruct (fs !! p) as [x|]; [|done]. simpl.
    rewrite option_guard_True; [done|]. unfold bajo. simpl.
    by apply bool_decide_eq_false.
  - apply not_elem_of_list_to_map_1.
    intros ([k v] & Hk & Hin)%list_elem_of_fmap. simpl in Hk. subst k.
    apply list_elem_of_fmap in Hin as ([k' v'] & E & _). simpl in E.
    injection E as -> _. apply Hd. by eexists.
Qed.

Lemma copiar_arbol_marco (fs : FS) (src dst p : Path) :
  ¬ dst `prefix_of` p → copiar_arbol fs src dst !! p = fs !! p.
Proof.
  intros Hd. unfold copiar_arbol. apply lookup_union_r.
  apply not_elem_of_list_to_map_1.
  intros ([k v] & Hk & Hin)%list_elem_of_fmap. simpl in Hk. subst k.
  apply list_elem_of_fmap in Hin as ([k' v'] & E & _). simpl in E.
  injection E as -> _. apply Hd. by eexists.
Qed.

(** Whether it returns or raises, a move into the quarantine touches the
    source, the destination and what lies below them only. *)
Lemma shutil_move_marco (veto : Veto) (fs : FS) (src dst p : Path) :
  RUTA_CUARENTENA `prefix_of` dst →
  ¬ RUTA_CUARENTENA `prefix_of` p → ¬ src `prefix_of` p →
  fs_tras (shutil_move veto fs src dst) !! p = fs !! p.
Proof.
  intros HQ Hp Hs. unfold shutil_move.
  destruct (es_dir fs dst && bool_decide (src = dst)); [done|].
  set (real_dst := if es_dir fs dst then barra dst (Path_name src) else dst) in *.
  assert (HQr : RUTA_CUARENTENA `prefix_of` real_dst).
  { unfold real_dst. destruct (es_dir fs dst); [|done].
    etransitivity; [exact HQ|apply barra_prefijo]. }
  assert (Hpr : ¬ real_dst `prefix_of` p).
  { intros H. apply Hp. by etransitivity. }
  assert (Hpd : p ≠ real_dst) by (intros ->; by apply Hpr).
  assert (Hps : p ≠ src) by (intros ->; by apply Hs).
  destruct (es_dir fs dst && existe fs real_dst); [done|].
  destruct (nodo_en fs src) as [[c l|l t]|]; [| |done].
  - destruct (rename_fichero veto fs src real_dst).
    { cbn [fs_tras]. by rewrite lookup_insert_ne, lookup_delete_ne. }
    destruct (bool_decide (src = real_dst)); [done|].
    destruct (negb l); [done|].
    destruct (nodo_en fs (Path_parent real_dst)) as [[|]|]; [done| |done].
    destruct (veto (LlCopy src real_dst)); [done|].
    destruct (veto (LlCopystat src real_dst));
      [cbn [fs_tras]; by rewrite lookup_insert_ne|].
    destruct (veto (LlUnlink src)); cbn [fs_tras].
    + by rewrite lookup_insert_ne.
    + by rewrite lookup_delete_ne, lookup_insert_ne.
  - destruct (rename_directorio veto fs src dst real_dst).
    { cbn [fs_tras]. by apply mover_arbol_marco. }
    destruct (bajo src dst); [done|]. destruct (negb l); [done|].
    destruct (existe fs real_dst); [done|].
    destruct (veto (LlCopy src real_dst)); [done|].
    destruct (Path_mkdir veto fs real_dst) as [fs1|e] eqn:Hmk; [|done].
    assert (Hfs1 : fs1 !! p = fs !! p).
    { apply (Path_mkdir_rev_marco _ _ _ _ p Hmk).
      destruct (decide (p = [])) as [|Hne]; [by left|right].
      rewrite rev_involutive. intros Hpre. apply Hp.
      by apply (bajo_cuarentena_prefijo real_dst). }
    destruct (veto (LlUnlink src)); cbn [fs_tras].
    + by rewrite copiar_arbol_marco.
    + by rewrite mover_arbol_marco.
Qed.

Lemma elegir_destino_prefijo (origen : Path) (w : Mundo) :
  RUTA_CUARENTENA `prefix_of` (elegir_destino origen w).1.
Proof.
  unfold elegir_destino. destruct (existe _ _); apply barra_prefijo.
Qed.

Lemma mover_cada_uno_marco (sospechosos : list info) (p : Path) :
  ¬ RUTA_CUARENTENA `prefix_of` p →
  ∀ acc w destinos w',
    mover_cada_uno sospechosos acc w = Vale (destinos, w') →
    (∀ i, i ∈ sospechosos → ¬ ruta i `prefix_of` p) →
    mundo_fs w' !! p = mundo_fs w !! p.
Proof.
  intros Hp. induction sospechosos as [|i resto IH]; intros acc w destinos w' H Hs.
  - by injection H as _ <-.
  - destruct (Path_exists w (barra RUTA_CUARENTENA (Path_name (ruta i))))
      as [b|e] eqn:Hx; [|by rewrite (mover_cada_uno_lanza _ _ _ _ _ Hx) in H].
    destruct (elegir_destino (ruta i) w) as [d w1] eqn:He.
    pose proof (elegir_destino_mundo (ruta i) w) as [Hfs _].
    pose proof (elegir_destino_prefijo (ruta i) w) as Hd.
    rewrite He in Hfs, Hd. simpl in Hfs, Hd.
    assert (Hr : ∀ j, j ∈ resto → ¬ ruta j `prefix_of` p)
      by (intros j Hj; apply Hs; by right).
    rewrite (mover_cada_uno_paso _ _ _ _ _ _ _ Hx He) in H.
    pose proof (shutil_move_marco (mundo_veto w1) (mundo_fs w1) (ruta i) d p Hd Hp
                  (Hs i ltac:(by left))) as Hm.
    destruct (shutil_move _ _ _ _) as [fs'|e fs']; cbn [fs_tras] in Hm;
      rewrite (IH _ _ _ _ H Hr); simpl; by rewrite Hm, Hfs.
Qed.

Lemma asegurar_cuarentena_marco (w w1 : Mundo) (p : Path) :
  asegurar_cuarentena w = Vale w1 → p ≠ RUTA_CUARENTENA →
  mundo_fs w1 !! p = mundo_fs w !! p.
Proof.
  intros Hw Hp.
  destruct (asegurar_cuarentena_inv _ _ Hw) as (_ & _ & _ & _ & _ & [[_ ->]|(_ & _ & ->)]).
  - done.
  - simpl. by rewrite lookup_insert_ne.
Qed.

Lemma shutil_move_sobre_fichero (veto : Veto) (fs : FS) src dst c l :
  nodo_en fs src = Some (Fichero c l) →
  es_dir fs dst = false →
  es_dir fs (Path_parent dst) = true →
  veto (LlRename src dst) = None →
  shutil_move veto fs src dst = Movido (<[dst := Fichero c l]> (delete src fs)).
Proof.
  intros Hsrc Hdst Hpar Hv. unfold shutil_move, rename_fichero.
  rewrite Hdst. cbn [andb]. rewrite Hsrc, Hpar, Hv. by rewrite bool_decide_true.
Qed.

Lemma elegir_destino_nombre (origen : Path) (w : Mundo) :
  Path_name origen ≠ "" →
  ∃ m, (elegir_destino origen w).1 = RUTA_CUARENTENA ++ [m] ∧
       (m = Path_name origen ∨
        m = nombre_con_sello (Path_name origen) (mundo_reloj w (mundo_lecturas w))).
Proof.
  intros Hn.
  destruct (existe (mundo_fs w) (RUTA_CUARENTENA ++ [Path_name origen])) eqn:He.
  - rewrite elegir_destino_ocupado by done. eexists. split; [done|]. by right.
  - rewrite elegir_destino_libre by done. eexists. split; [done|]. by left.
Qed.

Lemma elegir_destino_salida (origen : Path) (w : Mundo) :
  mundo_salida (elegir_destino origen w).2 = mundo_salida w.
Proof. apply elegir_destino_mundo. Qed.

(** The loop on findings that can all be moved, the system refusing nothing. *)
Lemma mover_cada_uno_movibles (sospechosos : list info) :
  ∀ (acc : list string) (w : Mundo),
    nada_vedado w →
    es_dir (mundo_fs w) RUTA_CUARENTENA = true →
    cuarentena_sin_directorios (mundo_fs w) →
    Forall (movible (mundo_fs w)) sospechosos →
    NoDup (map ruta sospechosos) →
    ∃ destinos w',
      mover_cada_uno sospechosos acc w = Vale (destinos, w') ∧
      (∃ nuevos, destinos = acc ++ nuevos ∧ length nuevos = length sospechosos) ∧
      mundo_salida w' = mundo_salida w ∧
      es_dir (mundo_fs w') RUTA_CUARENTENA = true ∧
      (∀ i, i ∈ sospechosos → mundo_fs w' !! ruta i = None) ∧
      (∀ p, ¬ RUTA_CUARENTENA `prefix_of` p → p ∉ map ruta sospechosos →
            mundo_fs w' !! p = mundo_fs w !! p) ∧
      (nombres_validos (mundo_fs w) → nombres_validos (mundo_fs w')).
Proof.
  induction sospechosos as [|i resto IH]; intros acc w Hnv HQ Hsd Hmov Hnd.
  - exists acc, w. split_and!; try done.
    + exists []. by rewrite app_nil_r.
    + by intros i ?%elem_of_nil.
  - apply Forall_cons in Hmov as [(Hsrc & HnQ & Hname) Hmov].
    unfold es_fichero in Hsrc.
    destruct (nodo_en (mundo_fs w) (ruta i)) as [[c l|]|] eqn:Hsrc'; try done.
    clear Hsrc. rename Hsrc' into Hsrc.
    simpl in Hnd. apply NoDup_cons in Hnd as [Hni Hnd].
    destruct (elegir_destino (ruta i) w) as [d w1] eqn:He.
    pose proof (elegir_destino_mundo (ruta i) w) as [Hfs Hsal].
    pose proof (elegir_destino_campos (ruta i) w) as [Hveto _].
    destruct (elegir_destino_nombre (ruta i) w Hname) as (m & Hd & Hm0).
    assert (Hmne : m ≠ "").
    { destruct Hm0 as [->| ->]; [done|apply nombre_con_sello_no_vacio]. }
    clear Hm0.
    rewrite He in Hfs, Hsal, Hd, Hveto. simpl in Hfs, Hsal, Hd, Hveto. subst d.
    set (d := RUTA_CUARENTENA ++ [m]) in *.
    assert (HdQ : RUTA_CUARENTENA `prefix_of` d) by (by exists [m]).
    assert (HdneQ : d ≠ RUTA_CUARENTENA).
    { unfold d. intros E. by apply (f_equal length) in E. }
    assert (Hdne : d ≠ []) by (by destruct RUTA_CUARENTENA).
    assert (Hsrcd : ruta i ≠ d) by (intros E; apply HnQ; by rewrite E).
    assert (HsrcQ : ruta i ≠ RUTA_CUARENTENA) by (intros E; apply HnQ; by rewrite E).
    assert (Hm : shutil_move (mundo_veto w1) (mundo_fs w1) (ruta i) d
                 = Movido (<[d := Fichero c l]> (delete (ruta i) (mundo_fs w)))).
    { rewrite Hfs, Hveto. apply shutil_move_sobre_fichero; [done| | |apply Hnv].
      - unfold es_dir. rewrite nodo_en_lookup by done.
        destruct (mundo_fs w !! d) as [[|l' t']|] eqn:Hl; try done.
        by pose proof (Hsd _ _ Hl HdQ HdneQ).
      - unfold d. by rewrite Path_parent_snoc. }
    set (fs' := <[d := Fichero c l]> (delete (ruta i) (mundo_fs w))) in *.
    rewrite (mover_cada_uno_vale _ _ _ _ _ _ _ Hnv He Hm).
    assert (Higual : ∀ p, p ≠ d → p ≠ ruta i → nodo_en fs' p = nodo_en (mundo_fs w) p).
    { intros p ??. unfold fs'. by apply nodo_en_tras_mover. }
    destruct (IH (acc ++ [str d]) (con_fs w1 fs')) as
      (destinos & w' & Hmv & (nuevos & Hn1 & Hn2) & Hs' & HQ' & Hgone & Hframe & Hval).
    + intros k. simpl. rewrite Hveto. apply Hnv.
    + simpl. unfold es_dir. rewrite Higual by done. exact HQ.
    + simpl. intros p x Hx HpQ HpneQ. unfold fs' in Hx.
      destruct (decide (p = d)) as [->|Hpd].
      { rewrite lookup_insert_eq in Hx. by injection Hx as <-. }
      rewrite lookup_insert_ne in Hx by done.
      destruct (decide (p = ruta i)) as [->|Hpi]; [by rewrite lookup_delete_eq in Hx|].
      rewrite lookup_delete_ne in Hx by done. by apply (Hsd p x).
    + simpl. apply Forall_forall. intros j Hj.
      pose proof (proj1 (Forall_forall _ _) Hmov j Hj) as (Hj1 & Hj2 & Hj3).
      split_and!; try done. rewrite Higual; [done| |].
      * intros E. apply Hj2. by rewrite E.
      * intros E. apply Hni. rewrite <- E. apply list_elem_of_fmap. by exists j.
    + done.
    + exists destinos, w'. simpl in *. split_and!.
      * done.
      * exists (str d :: nuevos). rewrite Hn1, <- app_assoc. split; [done|].
        simpl. by rewrite Hn2.
      * by rewrite Hs', Hsal.
      * done.
      * intros j [->|Hj]%elem_of_cons; [|by apply Hgone].
        rewrite Hframe; [|done|done]. unfold fs'.
        by rewrite lookup_insert_ne, lookup_delete_eq.
      * intros p HpQ Hp. apply not_elem_of_cons in Hp as [Hpi Hp].
        rewrite Hframe by done. unfold fs'.
        rewrite lookup_insert_ne, lookup_delete_ne; [done|done|].
        intros E. apply HpQ. by rewrite <- E.
      * intros Hv. apply Hval. unfold fs'. apply map_Forall_insert_2.
        -- unfold d, RUTA_CUARENTENA. simpl.
           rewrite !elem_of_cons, elem_of_nil. intros [?|[?|?]]; congruence.
        -- by apply map_Forall_delete.
Qed.

Lemma mover_cada_uno_destinos (sospechosos : list info) :
  Forall (λ i, Path_name (ruta i) ≠ "") sospechosos →
  ∀ (acc : list string) (w : Mundo) destinos w',
    mover_cada_uno sospechosos acc w = Vale (destinos, w') →
    ∃ nuevos,
      destinos = acc ++ nuevos ∧
      Forall (λ d, ∃ i m, i ∈ sospechosos ∧ d = str (RUTA_CUARENTENA ++ [m]) ∧
                          (m = Path_name (ruta i) ∨
                           ∃ t, m = nombre_con_sello (Path_name (ruta i)) t))
             nuevos.
Proof.
  induction sospechosos as [|i resto IH]; intros Hn acc w destinos w' H.
  - injection H as <- _. exists []. by rewrite app_nil_r.
  - apply Forall_cons in Hn as [Hi Hn].
    destruct (Path_exists w (barra RUTA_CUARENTENA (Path_name (ruta i))))
      as [b|e] eqn:Hx; [|by rewrite (mover_cada_uno_lanza _ _ _ _ _ Hx) in H].
    destruct (elegir_destino (ruta i) w) as [d w1] eqn:He.
    destruct (elegir_destino_nombre (ruta i) w Hi) as (m & Hd & Hm').
    rewrite He in Hd. cbn [fst] in Hd. subst d.
    assert (Hmono : ∀ nuevos,
              Forall (λ d, ∃ j m, j ∈ resto ∧ d = str (RUTA_CUARENTENA ++ [m]) ∧
                          (m = Path_name (ruta j) ∨
                           ∃ t, m = nombre_con_sello (Path_name (ruta j)) t)) nuevos →
              Forall (λ d, ∃ j m, j ∈ i :: resto ∧ d = str (RUTA_CUARENTENA ++ [m]) ∧
                          (m = Path_name (ruta j) ∨
                           ∃ t, m = nombre_con_sello (Path_name (ruta j)) t)) nuevos).
    { intros nuevos HF. eapply Forall_impl; [exact HF|].
      intros d (j & m' & Hj & ?). exists j, m'. split; [by right|done]. }
    rewrite (mover_cada_uno_paso _ _ _ _ _ _ _ Hx He) in H.
    destruct (shutil_move (mundo_veto w1) (mundo_fs w1) (ruta i) (RUTA_CUARENTENA ++ [m]))
      as [fs'|e fs'] eqn:Hmv.
    + destruct (IH Hn _ _ _ _ H) as (nuevos & Hd & HF).
      exists (str (RUTA_CUARENTENA ++ [m]) :: nuevos). split.
      * rewrite Hd. by rewrite <- app_assoc.
      * apply Forall_cons. split; [|by apply Hmono].
        exists i, m. split; [by left|]. split; [done|].
        destruct Hm' as [?|?]; [by left|right; by eexists].
    + destruct (IH Hn _ _ _ _ H) as (nuevos & Hd & HF).
      exists nuevos. split; [done|]. by apply Hmono.
Qed.

(** The call on findings that can all be moved, the system refusing nothing. *)
Lemma mover_a_cuarentena_todos (sospechosos : list info) (w : Mundo) :
  nada_vedado w →
  (es_dir (mundo_fs w) RUTA_CUARENTENA = true ∨
   existe (mundo_fs w) RUTA_CUARENTENA = false) →
  cuarentena_sin_directorios (mundo_fs w) →
  Forall (movible (mundo_fs w)) sospechosos →
  NoDup (map ruta sospechosos) →
  ∃ destinos w',
    mover_a_cuarentena sospechosos w = Vale (destinos, w') ∧
    length destinos = length sospechosos ∧
    mundo_salida w' = mundo_salida w ∧
    es_dir (mundo_fs w') RUTA_CUARENTENA = true ∧
    (∀ i, i ∈ sospechosos → mundo_fs w' !! ruta i = None) ∧
    (∀ p, ¬ RUTA_CUARENTENA `prefix_of` p → p ∉ map ruta sospechosos →
          mundo_fs w' !! p = mundo_fs w !! p) ∧
    (nombres_validos (mundo_fs w) → nombres_validos (mundo_fs w')) ∧
    mundo_veto w' = mundo_veto w ∧ mundo_hallazgos w' = mundo_hallazgos w.
Proof.
  intros Hnv HQ Hsd Hmov Hnd.
  assert (Hw : ∃ w1, asegurar_cuarentena w = Vale w1).
  { destruct HQ as [HQ|HQ].
    - exists w. by apply asegurar_cuarentena_existe, es_dir_existe.
    - rewrite asegurar_cuarentena_ausente, Hnv by done. by eexists. }
  destruct Hw as [w1 Hw].
  destruct (asegurar_cuarentena_inv _ _ Hw) as (Hsal & Hveto & Hhal & _ & _ & Hcasos).
  assert (Higual : ∀ p, p ≠ RUTA_CUARENTENA → mundo_fs w1 !! p = mundo_fs w !! p).
  { intros p Hp. by apply (asegurar_cuarentena_marco _ _ _ Hw). }
  assert (Hdir : es_dir (mundo_fs w1) RUTA_CUARENTENA = true).
  { destruct Hcasos as [[He ->]|(He & _ & ->)].
    - destruct HQ as [HQ|HQ]; [done|congruence].
    - unfold es_dir, nodo_en, RUTA_CUARENTENA. simpl. by rewrite lookup_insert_eq. }
  destruct (mover_cada_uno_movibles sospechosos [] w1)
    as (destinos & w' & Hmv & (nuevos & Hd & Hlen) & Hsal' & HQ' & Hgone & Hframe & Hval).
  - intros c. rewrite Hveto. apply Hnv.
  - done.
  - intros p x Hx Hpre Hne. rewrite Higual in Hx by done. by apply (Hsd p x).
  - eapply Forall_impl; [exact Hmov|]. intros i (Hf & HnQ & Hname).
    split_and!; try done. rewrite <- Hf. destruct (ruta i) as [|c r] eqn:E; [done|].
    unfold nodo_en. rewrite Higual; [done|]. intros E'. apply HnQ. by rewrite E'.
  - done.
  - destruct (mover_cada_uno_campos _ _ _ _ _ Hmv) as (Hv' & Hh' & _).
    exists destinos, w'. unfold mover_a_cuarentena. rewrite Hw. split_and!; try done.
    + by rewrite Hd.
    + by rewrite Hsal'.
    + intros p Hp Hnp. rewrite Hframe by done. apply Higual. by intros ->.
    + intros Hv. apply Hval. destruct Hcasos as [[_ ->]|(_ & _ & ->)]; [done|].
      simpl. apply map_Forall_insert_2; [|done].
      unfold RUTA_CUARENTENA. rewrite !elem_of_cons, elem_of_nil.
      intros [?|?]; congruence.
    + by rewrite Hv'.
    + by rewrite Hh'.
Qed.

End MasCuarentena.

(** ** Stamped names and thresholds *)

Section Varios.

Lemma nombre_con_sello_extension (n ts : string) :
  Path_suffix [n] ≠ "" →
  Path_suffix [nombre_con_sello n ts] = Path_suffix [n] ∧
  Path_stem [nombre_con_sello n ts] = Path_stem [n] +:+ "_" +:+ ts.
Proof.
  intros Hs. destruct (suffix_inv [n] Hs) as (base & ext & Hn & Hb & He & Hr & Hsuf).
  destruct (suffix_app [n] base ext Hn Hb He Hr) as [_ Hst].
  unfold nombre_con_sello. rewrite Hsuf, Hst.
  assert (Hne : base +:+ "_" +:+ ts ≠ "").
  { destruct base; [done|]. by rewrite app_cons_s. }
  assert (Hnn : Path_name [base +:+ "_" +:+ ts +:+ String "." ext]
                = (base +:+ "_" +:+ ts) +:+ String "." ext).
  { unfold Path_name. simpl. by rewrite !app_assoc_s. }
  by destruct (suffix_app _ _ ext Hnn Hne He Hr) as [-> ->].
Qed.

Lemma nombre_con_sello_patron (n ts : string) :
  Path_suffix [n] ≠ "" →
  patron_search (nombre_con_sello n ts) = patron_search n ∧
  ignorado [nombre_con_sello n ts] = ignorado [n].
Proof.
  intros Hs. destruct (nombre_con_sello_extension n ts Hs) as [Hsuf Hst].
  split; [|unfold ignorado; by rewrite Hsuf].
  destruct (suffix_inv [n] Hs) as (base & ext & Hn & Hb & He & Hr & Hsuf').
  pose proof (stem_suffix [nombre_con_sello n ts]) as Hname.
  rewrite Hsuf, Hsuf' in Hname. change (Path_name [nombre_con_sello n ts])
    with (nombre_con_sello n ts) in Hname.
  change (Path_name [n]) with n in Hn.
  rewrite <- Hname, Hn. by rewrite !patron_search_ultimo_punto.
Qed.

Lemma veces_NoDup (i : nat) (datos : list byte) :
  NoDup datos → veces i datos = 0%nat ∨ veces i datos = 1%nat.
Proof.
  intros Hnd. unfold veces.
  pose proof (NoDup_filter (λ b, Byte.to_nat b = i) datos Hnd) as Hf.
  destruct (filter _ datos) as [|a [|b l]] eqn:E; [by left|by right|].
  exfalso.
  assert (Ha : a ∈ filter (λ b, Byte.to_nat b = i) datos) by (rewrite E; by left).
  assert (Hb : b ∈ filter (λ b, Byte.to_nat b = i) datos)
    by (rewrite E; right; by left).
  apply list_elem_of_filter in Ha as [Ha _]. apply list_elem_of_filter in Hb as [Hb _].
  assert (a = b).
  { apply (f_equal Byte.of_nat) in Ha, Hb. rewrite Byte.of_to_nat in Ha, Hb. congruence. }
  subst b. apply NoDup_cons in Hf as [Hf _]. apply Hf. by left.
Qed.

Lemma longitud_uniforme (datos : list byte) (m : nat) :
  (∀ i, veces i datos = 0%nat ∨ veces i datos = m) →
  length datos = (m * valores_distintos datos)%nat.
Proof.
  intros Hu. rewrite <- contar_frecuencias_sum, contar_frecuencias_eq.
  by apply suma_veces.
Qed.

Local Open Scope R_scope.

Lemma ln_182 : 15 * ln 2 < 2 * ln 182.
Proof.
  replace (2 * ln 182) with (ln (182 * 182)) by (rewrite ln_mult; lra).
  replace (15 * ln 2) with (ln (2 ^ 15)) by (rewrite ln_pow by lra; simpl; lra).
  apply ln_increasing; simpl; lra.
Qed.

Lemma entropia_de_distintos (datos : list byte) :
  datos ≠ [] → NoDup datos →
  entropia_de datos = math_log2 (INR (length datos)).
Proof.
  intros Hne Hnd.
  rewrite (entropia_de_uniforme datos 1 Hne) by (intros i; by apply veces_NoDup).
  rewrite (longitud_uniforme datos 1) by (intros i; by apply veces_NoDup).
  by rewrite Nat.mul_1_l.
Qed.

Lemma log2_umbral (n : nat) :
  (182 ≤ n)%nat → UMBRAL_ENTROPIA <= math_log2 (INR n).
Proof.
  intros Hn. unfold UMBRAL_ENTROPIA, math_log2.
  assert (H182 : 182 <= INR n).
  { replace 182 with (INR 182) by (rewrite INR_IZR_INZ; apply f_equal; by vm_compute).
    by apply le_INR. }
  pose proof (ln_le_mono 182 (INR n) ltac:(lra) H182).
  pose proof ln_182. pose proof ln2_pos.
  apply Rmult_le_reg_r with (ln 2); [done|].
  unfold Rdiv. rewrite Rmult_assoc, Rinv_l by lra. lra.
Qed.

Lemma log2_bajo_umbral (n : nat) :
  (1 ≤ n ≤ 181)%nat → math_log2 (INR n) < UMBRAL_ENTROPIA.
Proof.
  intros [H1 Hn]. unfold UMBRAL_ENTROPIA, math_log2.
  assert (Hn0 : 0 < INR n) by (apply lt_0_INR; lia).
  assert (H181 : INR n <= 181).
  { replace 181 with (INR 181) by (rewrite INR_IZR_INZ; apply f_equal; by vm_compute).
    by apply le_INR. }
  pose proof (ln_le_mono _ _ Hn0 H181) as Hln.
  pose proof ln_181. pose proof ln2_pos as HL.
  apply Rmult_lt_reg_r with (ln 2); [done|].
  unfold Rdiv. rewrite Rmult_assoc, Rinv_l by lra. lra.
Qed.

End Varios.

(** ** The scan after a run *)

Section Ejecucion.

Lemma analizar_fichero_ext (fs1 fs2 : FS) (p : Path) :
  nodo_en fs1 p = nodo_en fs2 p → analizar_fichero fs1 p = analizar_fichero fs2 p.
Proof.
  intros H. unfold analizar_fichero, calcular_entropia, abrir_y_leer, stat_st_size.
  by rewrite H.
Qed.

Lemma listable_hasta_ext (fs1 fs2 : FS) (top : Path) (rel : list string) :
  (∀ q, top `prefix_of` q → es_listable fs1 q = true → es_listable fs2 q = true) →
  listable_hasta fs1 top rel = true → listable_hasta fs2 top rel = true.
Proof.
  revert top. induction rel as [|d rel IH]; intros top H; simpl.
  - rewrite !andb_true_r. by apply H.
  - intros [Ht Hr]%andb_true_iff. apply andb_true_iff. split; [by apply H|].
    apply IH; [|done]. intros q Hq. apply H. etransitivity; [|exact Hq].
    by exists [d].
Qed.

Lemma base_fuera_de_cuarentena (k : list string) :
  ¬ RUTA_CUARENTENA `prefix_of` RUTA_BASE ++ k.
Proof. intros [k' Hk]. unfold RUTA_BASE, RUTA_CUARENTENA in Hk. simpl in Hk. done. Qed.

(** What the scan finds can be moved. *)
Lemma recorrer_directorio_movibles (fs : FS) :
  nombres_validos fs → Forall (movible fs) (recorrer_directorio fs).
Proof.
  intros Hv. apply Forall_forall. intros i Hi.
  apply (recorrer_directorio_elem fs) in Hi as (Hp & _ & _).
  apply (ficheros_visitados_spec _ _ Hv) in Hp as (rel & nombre & c & l & Hr & _ & Hf).
  pose proof (Hv _ _ Hf) as Hval. simpl in Hval.
  unfold movible. rewrite Hr in *. split_and!.
  - unfold RUTA_BASE. simpl. unfold RUTA_BASE in Hf. simpl in Hf. by rewrite Hf.
  - apply base_fuera_de_cuarentena.
  - rewrite app_assoc, Path_name_snoc. intros ->. apply Hval.
    apply elem_of_app. right. apply elem_of_app. right. by left.
Qed.

(** After a run that moved everything, a second scan finds nothing. *)
Lemma segunda_pasada (fs fs' : FS) :
  nombres_validos fs → nombres_validos fs' →
  (∀ i, i ∈ recorrer_directorio fs → fs' !! ruta i = None) →
  (∀ p, ¬ RUTA_CUARENTENA `prefix_of` p → p ∉ map ruta (recorrer_directorio fs) →
        fs' !! p = fs !! p) →
  recorrer_directorio fs' = [].
Proof.
  intros Hv Hv' Hgone Hframe.
  destruct (recorrer_directorio fs') as [|i resto] eqn:E; [done|]. exfalso.
  assert (Hi : i ∈ recorrer_directorio fs') by (rewrite E; by left).
  apply recorrer_directorio_elem in Hi as (Hp & Hig & Ha).
  apply (ficheros_visitados_spec _ _ Hv') in Hp
    as (rel & nombre & c & l & Hr & Hl & Hf).
  assert (Hsame : ∀ q x, RUTA_BASE `prefix_of` q → fs' !! q = Some x →
                         fs !! q = Some x).
  { intros q x [k ->] Hq. rewrite <- Hframe; [done|apply base_fuera_de_cuarentena|].
    intros (j & Hj & Hjin)%list_elem_of_fmap.
    rewrite Hj, (Hgone j Hjin) in Hq. done. }
  assert (Hnodo : ∀ q x, RUTA_BASE `prefix_of` q → nodo_en fs' q = Some x →
                         nodo_en fs q = Some x).
  { intros q x Hpre. destruct q as [|a q]; [done|]. unfold nodo_en.
    by apply Hsame. }
  assert (Hpre : RUTA_BASE `prefix_of` ruta i) by (rewrite Hr; by eexists).
  assert (Hin : i ∈ recorrer_directorio fs).
  { apply recorrer_directorio_elem. split_and!; [|done|].
    - apply (ficheros_visitados_spec _ _ Hv). exists rel, nombre, c, l.
      split_and!; [done| |by apply Hsame].
      apply (listable_hasta_ext fs' fs); [|done].
      intros q Hq. unfold es_listable.
      destruct (nodo_en fs' q) as [[|[] t]|] eqn:Hn; try done.
      by rewrite (Hnodo _ _ Hq Hn).
    - rewrite <- Ha. apply analizar_fichero_ext.
      assert (Hne : ruta i ≠ []) by (rewrite Hr; unfold RUTA_BASE; done).
      rewrite !nodo_en_lookup by done. rewrite Hf. by apply Hsame. }
  rewrite (Hgone i Hin) in Hf. done.
Qed.

End Ejecucion.

(** ** The quarantine path taken by a regular file *)

Section CuarentenaOcupada.

Lemma bien_formado_padre (fs : FS) (p : Path) (x : nodo) :
  bien_formado fs = true → fs !! p = Some x →
  es_dir fs (Path_parent p) = true ∧ p ≠ [].
Proof.
  unfold bien_formado. rewrite forallb_forall. intros H Hp.
  specialize (H (p, x)). cbn [fst] in H.
  destruct (andb_prop _ _ (H ltac:(by apply list_elem_of_In, elem_of_map_to_list)))
    as [H1 H2].
  split; [done|]. by apply bool_decide_eq_true in H2.
Qed.

(** In a well-formed file system nothing lies below a regular file. *)
Lemma bajo_fichero_vacio (fs : FS) (q : Path) (c : list byte) (l : bool)
    (rel : list string) :
  bien_formado fs = true → nodo_en fs q = Some (Fichero c l) → rel ≠ [] →
  fs !! (q ++ rel) = None.
Proof.
  intros Hb Hq. apply nodo_en_fichero in Hq as [Hq Hqne].
  induction rel as [|x r IH] using rev_ind; [done|]. intros _.
  destruct (fs !! (q ++ r ++ [x])) as [y|] eqn:E; [|done]. exfalso.
  destruct (bien_formado_padre _ _ _ Hb E) as [Hd _].
  rewrite app_assoc, Path_parent_snoc in Hd. unfold es_dir in Hd.
  rewrite nodo_en_lookup in Hd by (by destruct q).
  destruct r as [|x' r'].
  - rewrite app_nil_r, Hq in Hd. done.
  - rewrite IH in Hd by done. done.
Qed.

Lemma app_no_vacia (a b : string) : a +:+ "_" +:+ b ≠ "".
Proof. destruct a; [rewrite app_nil_s|rewrite app_cons_s]; done. Qed.

(** With the quarantine root in place the destination chosen is an entry of
    it. *)
Lemma elegir_destino_hijo (origen : Path) (w : Mundo) :
  existe (mundo_fs w) RUTA_CUARENTENA = true →
  ∃ m, (elegir_destino origen w).1 = RUTA_CUARENTENA ++ [m].
Proof.
  intros HQ. unfold elegir_destino.
  destruct (existe (mundo_fs w) (barra RUTA_CUARENTENA (Path_name origen))) eqn:He.
  - cbn [datetime_now fst]. eexists. apply barra_nombre.
    apply app_no_vacia.
  - cbn [fst]. unfold barra in *.
    destruct (decide (Path_name origen = "")); [congruence|]. by eexists.
Qed.

(** No move into a directory that is a regular file succeeds, and none
    leaves a trace. *)
Lemma shutil_move_sin_directorio (veto : Veto) (fs : FS) (src q : Path) (m : string)
    (c : list byte) (l : bool) :
  bien_formado fs = true → nodo_en fs q = Some (Fichero c l) →
  ∃ e, shutil_move veto fs src (q ++ [m]) = Fallido e fs.
Proof.
  intros Hb Hq.
  assert (Hd : nodo_en fs (q ++ [m]) = None).
  { rewrite nodo_en_lookup by (by destruct q).
    by apply (bajo_fichero_vacio fs q c l). }
  unfold shutil_move, rename_fichero, rename_directorio, es_dir, existe.
  rewrite Hd. cbn [andb]. lazy beta iota.
  rewrite ?Hd, Path_parent_snoc, Hq. cbn [andb negb]. lazy beta iota.
  destruct (nodo_en fs src) as [[c' l'|l' t]|]; [|  |by eexists].
  - destruct (bool_decide (src = q ++ [m])); [by eexists|].
    destruct (negb l'); by eexists.
  - destruct (bajo src (q ++ [m])); [by eexists|].
    destruct (negb l'); [by eexists|]. cbn [negb].
    destruct (veto (LlCopy src (q ++ [m]))); [by eexists|].
    unfold Path_mkdir. rewrite rev_unit. cbn [Path_mkdir_rev].
    change (rev (m :: rev q)) with (rev (rev q) ++ [m]). rewrite rev_involutive.
    unfold os_mkdir, existe, es_dir. rewrite Hd, Path_parent_snoc, Hq. by eexists.
Qed.

(** The loop when the quarantine root is a regular file. *)
Lemma mover_cada_uno_sin_directorio (sospechosos : list info) (c : list byte)
    (l : bool) :
  ∀ acc w,
    bien_formado (mundo_fs w) = true →
    nodo_en (mundo_fs w) RUTA_CUARENTENA = Some (Fichero c l) →
    ∃ w', mover_cada_uno sospechosos acc w = Vale (acc, w') ∧
          mundo_fs w' = mundo_fs w ∧
          length (mundo_salida w')
          = (length (mundo_salida w) + length sospechosos)%nat.
Proof.
  induction sospechosos as [|i resto IH]; intros acc w Hb HQ.
  - exists w. cbn. split_and!; [done|done|lia].
  - assert (Hx : Path_exists w (barra RUTA_CUARENTENA (Path_name (ruta i)))
                 = Vale (existe (mundo_fs w)
                           (barra RUTA_CUARENTENA (Path_name (ruta i))))).
    { unfold barra. destruct (decide (Path_name (ruta i) = "")).
      - apply Path_exists_cuarentena.
      - apply Path_exists_sin_directorio. rewrite Path_parent_snoc.
        unfold es_dir. by rewrite HQ. }
    destruct (elegir_destino (ruta i) w) as [d w1] eqn:He.
    pose proof (elegir_destino_mundo (ruta i) w) as [Hfs Hsal].
    destruct (elegir_destino_hijo (ruta i) w) as [m Hm].
    { unfold existe. by rewrite HQ. }
    rewrite He in Hfs, Hsal, Hm. cbn [fst snd] in Hfs, Hsal, Hm. subst d.
    destruct (shutil_move_sin_directorio (mundo_veto w1) (mundo_fs w1) (ruta i)
                RUTA_CUARENTENA m c l)
      as [e Hmov]; [by rewrite Hfs|by rewrite Hfs|].
    rewrite (mover_cada_uno_paso _ _ _ _ _ _ _ Hx He), Hmov.
    destruct (IH acc (print (linea_error (ruta i) e) (con_fs w1 (mundo_fs w1))))
      as (w' & H1 & H2 & H3); [by rewrite <- Hfs in Hb|by rewrite <- Hfs in HQ|].
    exists w'. rewrite H1, H2, H3. cbn [print con_fs mundo_fs mundo_salida].
    rewrite Hfs, length_app, Hsal. cbn [length]. split_and!; [done|done|lia].
Qed.

End CuarentenaOcupada.

(** * The statements of the specification *)

(** ** C1 *)

(** C1, as stated, fails: a finding whose move fails leaves nothing in the
    list [mover_a_cuarentena] returns, so the output is shorter than the
    input. *)
Lemma mover_a_cuarentena_omite_fallidos :
  ∃ w', mover_a_cuarentena [hallazgo_ausente] (mundo_de fs_homonimos) = Vale ([], w') ∧
        length ([] : list string) ≠ length [hallazgo_ausente] ∧
        mundo_salida w' =
          ["[!] Error al mover /Compartido/c/y.enc a cuarentena: [Errno 2] No such file or directory: '/Compartido/c/y.enc'"].
Proof. eexists. split; [vm_compute; reflexivity|]. split; [simpl; lia|reflexivity]. Qed.

(** C1 (amended): when [mover_a_cuarentena] returns, it has gone through
    every finding exactly once, in order, each in the state the findings
    before it have left.  Finding by finding there is one outcome, that of
    its own call of [shutil.move] on the destination chosen for it: when the
    move returns, the destination is appended to the list; when it raises,
    the error is caught, a line with the source and the error is printed, and
    the loop goes on.  The list returned holds the destinations of the moves
    that succeeded and nothing else, so a failed move has a line on standard
    output and no entry in the list.  The call raises only from outside the
    [try]: from securing the quarantine root, or from a [destino.exists()],
    which ends the loop at that finding; never from a move. *)
Theorem mover_a_cuarentena_resultados (sospechosos : list info) (w : Mundo) :
  match mover_a_cuarentena sospechosos w with
  | Vale (destinos, w') =>
      ∃ resultados : list (string + string),
        length resultados = length sospechosos ∧
        destinos = omap (λ r, match r with inl d => Some d | inr _ => None end) resultados ∧
        mundo_salida w'
        = mundo_salida w ++ omap (λ r, match r with inl _ => None | inr m => Some m end) resultados ∧
        (length destinos + (length (mundo_salida w') - length (mundo_salida w))
         = length sospechosos)%nat ∧
        ∀ antes i despues,
          sospechosos = antes ++ i :: despues →
          ∃ dk wk d wk1,
            mover_a_cuarentena antes w = Vale (dk, wk) ∧
            elegir_destino (ruta i) wk = (d, wk1) ∧
            match shutil_move (mundo_veto wk1) (mundo_fs wk1) (ruta i) d with
            | Movido fs' =>
                resultados !! length antes = Some (inl (str d)) ∧
                mover_a_cuarentena (antes ++ [i]) w
                = Vale (dk ++ [str d], con_fs wk1 fs')
            | Fallido e fs' =>
                resultados !! length antes = Some (inr (linea_error (ruta i) e)) ∧
                mover_a_cuarentena (antes ++ [i]) w
                = Vale (dk, print (linea_error (ruta i) e) (con_fs wk1 fs'))
            end
  | Lanza e =>
      asegurar_cuarentena w = Lanza e ∨
      ∃ antes i despues dk wk,
        sospechosos = antes ++ i :: despues ∧
        mover_a_cuarentena antes w = Vale (dk, wk) ∧
        Path_exists wk (barra RUTA_CUARENTENA (Path_name (ruta i))) = Lanza e
  end.
Proof.
  unfold mover_a_cuarentena.
  destruct (asegurar_cuarentena w) as [w0|e0] eqn:Hw; [|by left].
  destruct (asegurar_cuarentena_inv _ _ Hw) as (Hsal0 & _).
  destruct (mover_cada_uno sospechosos [] w0) as [[destinos w']|e] eqn:Hm.
  - destruct (mover_cada_uno_resultados _ _ _ _ Hm) as (rs & Hlen & Hd & Hsal & Hk).
    exists rs. split_and!; [done|done|by rewrite Hsal, Hsal0| |done].
    rewrite Hsal, Hsal0, Hd, !length_app.
    pose proof (omap_inl_inr_length rs) as Hn. lia.
  - right. by apply mover_cada_uno_lanza_inv in Hm.
Qed.

(** ** C2 *)

(** C2, as stated, fails: with the scan root absent the scan returns the
    empty list and the run ends normally with an empty report, as it does
    for a tree without suspicious files; no failure reaches the caller. *)
Lemma recorrer_directorio_raiz_ausente :
  raiz_accesible ∅ = false ∧
  recorrer_directorio ∅ = [] ∧
  ∃ e, main (mundo_de ∅) = Vale e ∧ ej_sospechosos e = [] ∧
       informe_total (ej_informe e) = 0%nat ∧ mundo_salida (ej_mundo e) = [].
Proof.
  split; [reflexivity|]. split; [reflexivity|].
  eexists. split; [vm_compute; reflexivity|]. by split_and!.
Qed.

(** C2 (amended): when the scan root does not exist, is not a directory or
    cannot be listed, [recorrer_directorio] returns the empty list and raises
    nothing.  The run goes on to the quarantine step with no finding: it ends
    with an empty report and nothing moved, and the only exception it can end
    with is that of securing the quarantine root, none about the scan. *)
Theorem recorrer_directorio_inaccesible (w : Mundo) :
  raiz_accesible (mundo_fs w) = false →
  recorrer_directorio (mundo_fs w) = [] ∧
  main w = match asegurar_cuarentena (con_hallazgos w []) with
           | Lanza e => Lanza e
           | Vale w1 =>
               Vale {| ej_sospechosos := [];
                       ej_informe := {| informe_filas := []; informe_total := 0 |};
                       ej_destinos := []; ej_mundo := w1 |}
           end.
Proof.
  intros H.
  assert (Hr : recorrer_directorio (mundo_fs w) = []).
  { unfold recorrer_directorio. by rewrite os_walk_inaccesible. }
  split; [done|]. unfold main. rewrite Hr. cbn [mundo_hallazgos con_hallazgos].
  unfold mover_a_cuarentena.
  destruct (asegurar_cuarentena (con_hallazgos w [])) as [w1|e] eqn:Hw; [|done].
  destruct (asegurar_cuarentena_inv _ _ Hw) as (_ & _ & Hh & _).
  cbn [mover_cada_uno]. by rewrite Hh.
Qed.

Lemma recorrer_directorio_inaccesible_witness :
  recorrer_directorio (mundo_fs (mundo_con veto_mkdir ∅)) = [] ∧
  main (mundo_con veto_mkdir ∅)
  = match asegurar_cuarentena (con_hallazgos (mundo_con veto_mkdir ∅) []) with
    | Lanza e => Lanza e
    | Vale w1 =>
        Vale {| ej_sospechosos := [];
                ej_informe := {| informe_filas := []; informe_total := 0 |};
                ej_destinos := []; ej_mundo := w1 |}
    end.
Proof. apply (recorrer_directorio_inaccesible (mundo_con veto_mkdir ∅)). reflexivity. Defined.

(** ** C3 *)

(** C3: the code sets out not to overwrite ("Evitar sobreescribir si ya
    existe") and misses it when the clock shows the same second for two
    collisions: with an [x.locked] already in quarantine, the two files named
    [x.locked] get the same destination; the second move replaces the first
    file, whose contents are then nowhere in the file system. *)
Lemma colision_en_el_mismo_segundo :
  bien_formado fs_colision = true ∧
  nodo_en fs_colision (ruta hallazgo_a) = Some (Fichero ["001"%byte] true) ∧
  nodo_en fs_colision (ruta hallazgo_b) = Some (Fichero ["002"%byte] true) ∧
  Path_parent (ruta hallazgo_a) ≠ Path_parent (ruta hallazgo_b) ∧
  Path_name (ruta hallazgo_a) = Path_name (ruta hallazgo_b) ∧
  ∃ w', mover_a_cuarentena [hallazgo_a; hallazgo_b] (mundo_de fs_colision)
        = Vale (["/cuarentena_ransomware/x_20250101120000.locked";
                 "/cuarentena_ransomware/x_20250101120000.locked"], w') ∧
        mundo_fs w' !! ["cuarentena_ransomware"; "x_20250101120000.locked"]
        = Some (Fichero ["002"%byte] true) ∧
        ∀ p, mundo_fs w' !! p ≠ Some (Fichero ["001"%byte] true).
Proof.
  split; [vm_compute; reflexivity|].
  split; [vm_compute; reflexivity|]. split; [vm_compute; reflexivity|].
  split; [discriminate|]. split; [reflexivity|].
  eexists. split; [vm_compute; reflexivity|]. split; [vm_compute; reflexivity|].
  intros p Hp. apply elem_of_map_to_list in Hp. revert Hp.
  match goal with
  | |- (?k, ?v) ∈ ?l → _ =>
      assert (HF : Forall (λ kv : Path * nodo, kv.2 ≠ v) l)
        by (vm_compute; repeat constructor; discriminate);
      intros Hp; by apply (proj1 (Forall_forall _ _) HF _ Hp)
  end.
Qed.

(** ** C4 *)

(** C4: [analizar_fichero] returns a finding exactly when the extension check
    or the entropy check holds, and the reasons of the finding are exactly
    the checks that hold: ["extension"] is among them iff the name matches
    the pattern, ["entropia"] iff the entropy was computed and reaches the
    threshold, whatever the other check says.  An entropy that could not be
    computed never counts, and the extension check reads the name only. *)
Theorem analizar_fichero_motivos (fs : FS) (ruta_fichero : Path) :
  let por_extension := extension_sospechosa ruta_fichero in
  let por_entropia := supera_umbral (calcular_entropia fs ruta_fichero) in
  (por_extension = patron_search (Path_name ruta_fichero)) ∧
  (por_entropia = true ↔
   ∃ e, calcular_entropia fs ruta_fichero = Some e ∧ (e >= UMBRAL_ENTROPIA)%R) ∧
  (calcular_entropia fs ruta_fichero = None → por_entropia = false) ∧
  (is_Some (analizar_fichero fs ruta_fichero) ↔
   por_extension = true ∨ por_entropia = true) ∧
  (∀ i, analizar_fichero fs ruta_fichero = Some i →
     ∀ m, m ∈ motivos i ↔
          (m = "extension" ∧ por_extension = true) ∨
          (m = "entropia" ∧ por_entropia = true)).
Proof.
  intros por_extension por_entropia. split_and!.
  - done.
  - unfold por_entropia, supera_umbral.
    destruct (calcular_entropia fs ruta_fichero) as [e|].
    + rewrite bool_decide_eq_true. split; [by exists e|].
      by intros (e' & [= <-] & He).
    + split; [done|]. by intros (e & ? & _).
  - by intros H; unfold por_entropia; rewrite H.
  - unfold analizar_fichero. fold por_extension por_entropia.
    destruct por_extension, por_entropia; simpl; split;
      try (intros _; by eauto); try (by intros [??]); by intros [?|?].
  - intros i. unfold analizar_fichero. fold por_extension por_entropia.
    destruct por_extension, por_entropia; simpl;
      intros [= <-] m; simpl; rewrite ?elem_of_cons, ?elem_of_nil;
      intuition (try congruence; try discriminate).
Qed.

(** ** C5 *)

(** C5: [calcular_entropia] reads the first [MAX_BYTES_LECTURA] bytes at
    most, so its result depends on that prefix only; a path that cannot be
    opened or read (absent, a directory, an unreadable file) gives [None],
    and the function has a result in every case; an empty read gives [0]. *)
Theorem calcular_entropia_lectura :
  (∀ (fs : FS) ruta contenido,
     nodo_en fs ruta = Some (Fichero contenido true) →
     abrir_y_leer fs ruta MAX_BYTES_LECTURA
     = Vale (take (N.to_nat MAX_BYTES_LECTURA) contenido) ∧
     (length (take (N.to_nat MAX_BYTES_LECTURA) contenido)
      ≤ N.to_nat MAX_BYTES_LECTURA)%nat ∧
     calcular_entropia fs ruta
     = Some (entropia_de (take (N.to_nat MAX_BYTES_LECTURA) contenido))) ∧
  (∀ (fs1 fs2 : FS) r1 r2 c1 c2,
     nodo_en fs1 r1 = Some (Fichero c1 true) →
     nodo_en fs2 r2 = Some (Fichero c2 true) →
     take (N.to_nat MAX_BYTES_LECTURA) c1 = take (N.to_nat MAX_BYTES_LECTURA) c2 →
     calcular_entropia fs1 r1 = calcular_entropia fs2 r2) ∧
  (∀ (fs1 fs2 : FS) r1 r2 c resto,
     (N.to_nat MAX_BYTES_LECTURA ≤ length c)%nat →
     nodo_en fs1 r1 = Some (Fichero c true) →
     nodo_en fs2 r2 = Some (Fichero (c ++ resto) true) →
     calcular_entropia fs1 r1 = calcular_entropia fs2 r2) ∧
  (∀ (fs : FS) ruta e,
     abrir_y_leer fs ruta MAX_BYTES_LECTURA = Lanza e →
     calcular_entropia fs ruta = None) ∧
  (∀ (fs : FS) ruta,
     (nodo_en fs ruta = None ∨
      (∃ l t, nodo_en fs ruta = Some (Directorio l t)) ∨
      (∃ c, nodo_en fs ruta = Some (Fichero c false))) →
     calcular_entropia fs ruta = None) ∧
  (∀ (fs : FS) ruta,
     abrir_y_leer fs ruta MAX_BYTES_LECTURA = Vale [] →
     calcular_entropia fs ruta = Some 0%R) ∧
  (∀ (fs : FS) ruta,
     nodo_en fs ruta = Some (Fichero [] true) →
     calcular_entropia fs ruta = Some 0%R).
Proof.
  split_and!.
  - intros fs ruta contenido H. unfold calcular_entropia, abrir_y_leer. rewrite H.
    split_and!; [done| |done]. rewrite length_take. lia.
  - intros fs1 fs2 r1 r2 c1 c2 H1 H2 Ht.
    unfold calcular_entropia, abrir_y_leer. by rewrite H1, H2, Ht.
  - intros fs1 fs2 r1 r2 c resto Hc H1 H2.
    unfold calcular_entropia, abrir_y_leer. rewrite H1, H2.
    by rewrite take_app_le.
  - intros fs ruta e H. unfold calcular_entropia. by rewrite H.
  - intros fs ruta H. unfold calcular_entropia, abrir_y_leer.
    destruct H as [-> | [(l & t & ->) | (c & ->)]]; done.
  - intros fs ruta H. unfold calcular_entropia. by rewrite H.
  - intros fs ruta H. unfold calcular_entropia, abrir_y_leer. rewrite H.
    by rewrite take_nil.
Qed.

(** ** C6 *)

(** C6: for a file whose prefix read is not empty, [calcular_entropia]
    returns the Shannon entropy [-Σ p(b) * log2(p(b))] over the byte values
    that occur, with [p(b)] the share of [b] in the prefix; the value lies
    between 0 and 8, is 0 when all the bytes are the same, and is 8 when the
    prefix has length 256 and holds every byte value once.  (The arithmetic
    is that of the real numbers.) *)
Theorem calcular_entropia_shannon (fs : FS) (ruta_fichero : Path)
    (contenido : list byte) :
  let datos := take (N.to_nat MAX_BYTES_LECTURA) contenido in
  nodo_en fs ruta_fichero = Some (Fichero contenido true) →
  datos ≠ [] →
  ∃ h : R,
    calcular_entropia fs ruta_fichero = Some h ∧
    h = shannon datos ∧
    (0 <= h <= 8)%R ∧
    (∀ b, Forall (eq b) datos → h = 0%R) ∧
    (length datos = 256%nat → (∀ b : byte, veces (Byte.to_nat b) datos = 1%nat) →
     h = 8%R).
Proof.
  intros datos Hn Hne. exists (entropia_de datos). split_and!.
  - unfold calcular_entropia, abrir_y_leer. by rewrite Hn.
  - by apply entropia_de_shannon.
  - by apply entropia_de_rango.
  - by apply entropia_de_rango.
  - intros b Hb. by apply (entropia_de_identicos b).
  - apply entropia_de_cada_uno.
Qed.

Lemma calcular_entropia_shannon_witness :
  calcular_entropia fs_todos_los_bytes ["g.bin"] = Some 8%R.
Proof.
  destruct (calcular_entropia_shannon fs_todos_los_bytes ["g.bin"] todos_los_bytes)
    as (h & Hc & _ & _ & _ & H8).
  - reflexivity.
  - vm_compute. discriminate.
  - rewrite Hc. f_equal. apply H8.
    + vm_compute. reflexivity.
    + intros b. destruct b; vm_compute; reflexivity.
Defined.

(** ** C7 *)

(** C7: [recorrer_directorio] analyses, in the order of the walk, the files
    that are not ignored and no others; a file is ignored exactly when the
    lower-cased suffix of its name, the part from the last dot on, is one of
    the ignored extensions, that is when the name is a non-empty stem
    followed by such an extension written in any case.  So
    [photo.locked.jpg] is ignored, even where its analysis would give a
    finding, and [archive.jpg.locked] is analysed and flagged by its
    extension. *)
Theorem recorrer_directorio_ignorados :
  (∀ fs : FS,
     recorrer_directorio fs
     = omap (analizar_fichero fs)
         (filter (λ r, ignorado r = false) (ficheros_visitados fs))) ∧
  (∀ p : Path,
     ignorado p = true ↔ PyStr.lower (Path_suffix p) ∈ EXTENSIONES_IGNORADAS) ∧
  (∀ p : Path,
     ignorado p = true ↔
     ∃ base ext, Path_name p = base +:+ ext ∧ base ≠ "" ∧
                 PyStr.lower ext ∈ EXTENSIONES_IGNORADAS) ∧
  (∀ carpeta : Path,
     ignorado (carpeta ++ ["photo.locked.jpg"]) = true ∧
     extension_sospechosa (carpeta ++ ["photo.locked.jpg"]) = false ∧
     ignorado (carpeta ++ ["archive.jpg.locked"]) = false ∧
     ∀ fs : FS, ∃ i, analizar_fichero fs (carpeta ++ ["archive.jpg.locked"]) = Some i ∧
                     "extension" ∈ motivos i) ∧
  (∀ (fs : FS) carpeta archivos acc,
     recorrer_archivos fs carpeta (archivos ++ ["photo.locked.jpg"]) acc
     = recorrer_archivos fs carpeta archivos acc).
Proof.
  split_and!.
  - apply recorrer_directorio_spec.
  - intros p. unfold ignorado. apply bool_decide_eq_true.
  - apply ignorado_spec.
  - intros carpeta.
    assert (Hi : ∀ n, ignorado (carpeta ++ [n]) = ignorado [n]).
    { intros n. unfold ignorado. by rewrite Path_suffix_snoc. }
    assert (He : ∀ n, extension_sospechosa (carpeta ++ [n]) = extension_sospechosa [n]).
    { intros n. unfold extension_sospechosa. by rewrite Path_name_snoc. }
    rewrite !Hi, !He. split_and!; [by vm_compute..|].
    intros fs. unfold analizar_fichero. rewrite He.
    replace (extension_sospechosa ["archive.jpg.locked"]) with true by (by vm_compute).
    destruct (supera_umbral _); simpl; eexists; (split; [done|]); simpl;
      rewrite !elem_of_cons; by left.
  - intros fs carpeta archivos acc. rewrite !recorrer_archivos_spec.
    rewrite map_app, filter_app, omap_app. simpl.
    rewrite filter_cons, decide_False.
    + simpl. by rewrite app_nil_r.
    + rewrite barra_nombre by done. unfold ignorado. rewrite Path_suffix_snoc.
      by vm_compute.
Qed.

(** ** C8 *)


(** ** C9 *)


(** ** C10 *)

(** C10: the reasons of a finding are ["extension"], ["entropia"] or
    ["extension"; "entropia"]: a non-empty list without repetition, in the
    order of [["extension"; "entropia"]]; and the finding carries what
    [calcular_entropia] returned, a value or none, also when the extension
    alone was the reason. *)
Theorem analizar_fichero_invariante (fs : FS) (ruta_fichero : Path) (i : info) :
  analizar_fichero fs ruta_fichero = Some i →
  (motivos i = ["extension"] ∨ motivos i = ["entropia"] ∨
   motivos i = ["extension"; "entropia"]) ∧
  motivos i ≠ [] ∧ NoDup (motivos i) ∧
  sublist (motivos i) ["extension"; "entropia"] ∧
  entropia i = calcular_entropia fs ruta_fichero ∧
  ruta i = ruta_fichero.
Proof.
  unfold analizar_fichero.
  destruct (extension_sospechosa ruta_fichero),
           (supera_umbral (calcular_entropia fs ruta_fichero));
    simpl; intros [= <-]; simpl.
  all: split_and!; try done; try compute_done.
  all: try (by eauto).
  all: by auto using sublist_nil, sublist_skip, sublist_cons.
Qed.

Lemma analizar_fichero_invariante_witness :
  (motivos hallazgo_informe = ["extension"] ∨ motivos hallazgo_informe = ["entropia"] ∨
   motivos hallazgo_informe = ["extension"; "entropia"]) ∧
  motivos hallazgo_informe ≠ [] ∧ NoDup (motivos hallazgo_informe) ∧
  sublist (motivos hallazgo_informe) ["extension"; "entropia"] ∧
  entropia hallazgo_informe = calcular_entropia ∅ ["Compartido"; "report.locked"] ∧
  ruta hallazgo_informe = ["Compartido"; "report.locked"].
Proof.
  apply (analizar_fichero_invariante ∅ ["Compartido"; "report.locked"] hallazgo_informe).
  reflexivity.
Defined.

(** * Further properties of the program *)

(** ** The entropy *)

(** X1: the table [frecuencias] built by [calcular_entropia] has 256
    entries, the entry of each byte value is the number of times the value
    occurs in the data, and the entries add up to the length of the data. *)
Theorem contar_frecuencias_histograma (datos : list byte) :
  length (contar_frecuencias datos) = 256%nat ∧
  (∀ b : byte,
     contar_frecuencias datos !! Byte.to_nat b
     = Some (length (filter (λ x, x = b) datos))) ∧
  (∀ i, (256 ≤ i)%nat → contar_frecuencias datos !! i = None) ∧
  sum_list (contar_frecuencias datos) = length datos.
Proof.
  split_and!.
  - apply contar_frecuencias_length.
  - intros b. rewrite contar_frecuencias_lookup
      by (pose proof (Byte.to_nat_bounded b); lia).
    f_equal. unfold veces. f_equal. apply list_filter_iff. intros x. split.
    + intros H. apply (f_equal Byte.of_nat) in H.
      rewrite !Byte.of_to_nat in H. congruence.
    + by intros ->.
  - intros i Hi. apply lookup_ge_None_2. by rewrite contar_frecuencias_length.
  - apply contar_frecuencias_sum.
Qed.

(** X3: a file of at most 181 bytes never reaches the entropy threshold: if
    [analizar_fichero] flags it, the extension is the only reason. *)
Theorem fichero_corto_sin_entropia (fs : FS) (ruta_fichero : Path)
    (contenido : list byte) (legible : bool) :
  nodo_en fs ruta_fichero = Some (Fichero contenido legible) →
  (length contenido ≤ 181)%nat →
  supera_umbral (calcular_entropia fs ruta_fichero) = false ∧
  ∀ i, analizar_fichero fs ruta_fichero = Some i → motivos i = ["extension"].
Proof.
  intros Hn Hlen.
  assert (Hs : supera_umbral (calcular_entropia fs ruta_fichero) = false).
  { unfold calcular_entropia, abrir_y_leer. rewrite Hn.
    destruct legible; [|done]. unfold supera_umbral.
    apply bool_decide_eq_false.
    pose proof (entropia_de_corta (take (N.to_nat MAX_BYTES_LECTURA) contenido)) as H.
    rewrite length_take in H. apply Rlt_not_ge, H. lia. }
  split; [done|]. intros i. unfold analizar_fichero. rewrite Hs.
  destruct (extension_sospechosa ruta_fichero); simpl; [|done].
  by intros [= <-].
Qed.

Lemma fichero_corto_sin_entropia_witness :
  supera_umbral (calcular_entropia fs_corto ["c.locked"]) = false ∧
  ∀ i, analizar_fichero fs_corto ["c.locked"] = Some i →
       motivos i = ["extension"].
Proof.
  apply (fichero_corto_sin_entropia fs_corto ["c.locked"]
           (take 181 todos_los_bytes) true).
  - reflexivity.
  - vm_compute. lia.
Defined.

(** X4: when the bytes read are pairwise distinct, the entropy reaches the
    threshold exactly when at least 182 bytes were read. *)
Theorem bytes_distintos_umbral (fs : FS) (ruta_fichero : Path)
    (contenido : list byte) :
  let datos := take (N.to_nat MAX_BYTES_LECTURA) contenido in
  nodo_en fs ruta_fichero = Some (Fichero contenido true) →
  NoDup datos →
  (supera_umbral (calcular_entropia fs ruta_fichero) = true ↔
   (182 ≤ length datos)%nat).
Proof.
  intros datos Hn Hnd.
  assert (Hc : calcular_entropia fs ruta_fichero = Some (entropia_de datos)).
  { unfold calcular_entropia, abrir_y_leer. by rewrite Hn. }
  rewrite Hc. unfold supera_umbral. rewrite bool_decide_eq_true.
  split.
  - intros Hge. destruct (decide (182 ≤ length datos)%nat) as [|Hlt]; [done|].
    exfalso. pose proof (entropia_de_corta datos ltac:(lia)) as H. lra.
  - intros Hlen. assert (Hne : datos ≠ []) by (intros E; rewrite E in Hlen; simpl in Hlen; lia).
    rewrite entropia_de_distintos by done. apply Rle_ge. by apply log2_umbral.
Qed.

Lemma bytes_distintos_umbral_witness :
  supera_umbral (calcular_entropia fs_todos_los_bytes ["g.bin"]) = true ↔
  (182 ≤ length (take (N.to_nat MAX_BYTES_LECTURA) todos_los_bytes))%nat.
Proof.
  apply (bytes_distintos_umbral fs_todos_los_bytes ["g.bin"] todos_los_bytes).
  - reflexivity.
  - apply (bool_decide_unpack _). by vm_compute.
Defined.

(** X5: the entropy does not depend on the order of the bytes: two files
    whose prefixes read are permutations of each other have the same
    entropy. *)
Theorem calcular_entropia_permutacion (fs1 fs2 : FS) (r1 r2 : Path)
    (c1 c2 : list byte) :
  nodo_en fs1 r1 = Some (Fichero c1 true) →
  nodo_en fs2 r2 = Some (Fichero c2 true) →
  take (N.to_nat MAX_BYTES_LECTURA) c1 ≡ₚ take (N.to_nat MAX_BYTES_LECTURA) c2 →
  calcular_entropia fs1 r1 = calcular_entropia fs2 r2.
Proof.
  intros H1 H2 Hp. unfold calcular_entropia, abrir_y_leer. rewrite H1, H2.
  f_equal. by apply entropia_de_Permutation.
Qed.

Lemma calcular_entropia_permutacion_witness :
  calcular_entropia fs_permutados ["a.bin"] = calcular_entropia fs_permutados ["b.bin"].
Proof.
  apply (calcular_entropia_permutacion fs_permutados fs_permutados
           ["a.bin"] ["b.bin"]
           ["000"%byte; "001"%byte; "001"%byte] ["001"%byte; "000"%byte; "001"%byte]).
  - reflexivity.
  - reflexivity.
  - vm_compute. apply perm_swap.
Defined.

(** X6: when every byte value that occurs in the data read occurs the same
    number [m] of times, the number of bytes read is [m] times the number of
    values that occur, and the entropy reaches the threshold exactly when at
    least 182 values occur. *)
Theorem calcular_entropia_uniforme (fs : FS) (ruta_fichero : Path)
    (contenido : list byte) (m : nat) :
  let datos := take (N.to_nat MAX_BYTES_LECTURA) contenido in
  nodo_en fs ruta_fichero = Some (Fichero contenido true) →
  datos ≠ [] →
  (∀ b : byte, length (filter (λ x, x = b) datos) = 0%nat ∨
               length (filter (λ x, x = b) datos) = m) →
  length datos = (m * valores_distintos datos)%nat ∧
  (supera_umbral (calcular_entropia fs ruta_fichero) = true ↔
   (182 ≤ valores_distintos datos)%nat).
Proof.
  intros datos Hn Hne Hu.
  assert (Hv : ∀ i, veces i datos = 0%nat ∨ veces i datos = m).
  { intros i. destruct (Byte.of_nat i) as [b|] eqn:Hb.
    - apply Byte.to_of_nat in Hb. subst i. unfold veces.
      rewrite (list_filter_iff _ (λ x, x = b)); [apply Hu|].
      intros x. split; [|by intros ->].
      intros H. apply (f_equal Byte.of_nat) in H.
      rewrite !Byte.of_to_nat in H. congruence.
    - left. apply Byte.of_nat_None_iff in Hb. clear -Hb.
      induction datos as [|x d IH]; [done|].
      rewrite veces_cons, IH, decide_False; [done|].
      pose proof (Byte.to_nat_bounded x). lia. }
  pose proof (longitud_uniforme datos m Hv) as Hlen.
  split; [done|].
  assert (Hk : (1 ≤ valores_distintos datos)%nat).
  { destruct (valores_distintos datos); [|lia].
    rewrite Nat.mul_0_r in Hlen. by destruct datos. }
  assert (Hc : calcular_entropia fs ruta_fichero
               = Some (math_log2 (INR (valores_distintos datos)))).
  { unfold calcular_entropia, abrir_y_leer. rewrite Hn. f_equal.
    by apply (entropia_de_uniforme datos m). }
  rewrite Hc. unfold supera_umbral. rewrite bool_decide_eq_true. split.
  - intros Hge. destruct (decide (182 ≤ valores_distintos datos)%nat) as [|Hlt]; [done|].
    exfalso. pose proof (log2_bajo_umbral (valores_distintos datos) ltac:(lia)). lra.
  - intros H182. apply Rle_ge. by apply log2_umbral.
Qed.

Lemma calcular_entropia_uniforme_witness :
  length (take (N.to_nat MAX_BYTES_LECTURA)
            ["000"%byte; "001"%byte; "000"%byte; "001"%byte])
  = (2 * valores_distintos
           (take (N.to_nat MAX_BYTES_LECTURA)
              ["000"%byte; "001"%byte; "000"%byte; "001"%byte]))%nat ∧
  (supera_umbral (calcular_entropia fs_uniforme ["u.bin"]) = true ↔
   (182 ≤ valores_distintos
            (take (N.to_nat MAX_BYTES_LECTURA)
               ["000"%byte; "001"%byte; "000"%byte; "001"%byte]))%nat).
Proof.
  apply (calcular_entropia_uniforme fs_uniforme ["u.bin"]
           ["000"%byte; "001"%byte; "000"%byte; "001"%byte] 2).
  - reflexivity.
  - vm_compute. discriminate.
  - intros b. destruct b; vm_compute; auto.
Defined.

(** ** The extension check *)

(** X7: [extension_sospechosa] ignores the case of the name: two paths whose
    names agree once lower-cased get the same answer. *)
Theorem extension_sospechosa_sin_caja (p q : Path) :
  PyStr.lower (Path_name p) = PyStr.lower (Path_name q) →
  extension_sospechosa p = extension_sospechosa q.
Proof.
  intros H. unfold extension_sospechosa.
  by rewrite <- (patron_search_lower (Path_name p)), H, patron_search_lower.
Qed.

Lemma extension_sospechosa_sin_caja_witness :
  extension_sospechosa ["Compartido"; "Informe.LOCKED"]
  = extension_sospechosa ["informe.locked"].
Proof.
  apply (extension_sospechosa_sin_caja ["Compartido"; "Informe.LOCKED"]
           ["informe.locked"]).
  reflexivity.
Defined.

(** X8: [extension_sospechosa] looks at the text after the last dot of the
    name only: a name without a dot is never suspicious, and two names that
    end in the same text after their last dot get the same answer, whatever
    stands before that dot ([base] may be empty). *)
Theorem extension_sospechosa_ultimo_punto :
  (∀ p : Path,
     PyStr.rfind (Path_name p) "." = -1 → extension_sospechosa p = false) ∧
  (∀ (p q : Path) (base base' resto : string),
     Path_name p = base +:+ String "." resto →
     Path_name q = base' +:+ String "." resto →
     PyStr.rfind resto "." = -1 →
     extension_sospechosa p = extension_sospechosa q).
Proof.
  split.
  - intros p H. unfold extension_sospechosa. by apply patron_search_sin_punto.
  - intros p q base base' resto Hp Hq Hr. unfold extension_sospechosa.
    rewrite Hp, Hq. by rewrite !patron_search_ultimo_punto.
Qed.

(** X9: a file that [recorrer_directorio] leaves out for its extension does
    not match the suspicious pattern: had it been analysed, only its entropy
    could have flagged it. *)
Theorem ignorado_solo_entropia (p : Path) :
  ignorado p = true →
  extension_sospechosa p = false ∧
  ∀ (fs : FS) (i : info), analizar_fichero fs p = Some i → motivos i = ["entropia"].
Proof.
  intros Hi. pose proof (ignorado_no_sospechoso p Hi) as He.
  split; [done|]. intros fs i. unfold analizar_fichero. rewrite He.
  destruct (supera_umbral _); simpl; [|done]. by intros [= <-].
Qed.

Lemma ignorado_solo_entropia_witness :
  extension_sospechosa ["Compartido"; "photo.locked.JPG"] = false ∧
  ∀ (fs : FS) (i : info),
    analizar_fichero fs ["Compartido"; "photo.locked.JPG"] = Some i →
    motivos i = ["entropia"].
Proof.
  apply (ignorado_solo_entropia ["Compartido"; "photo.locked.JPG"]).
  reflexivity.
Defined.

(** ** The findings *)



(** ** The scan *)



(** X12: in a file system whose names are valid, no file is reported twice:
    the paths of the findings of [recorrer_directorio] are pairwise
    distinct. *)
Theorem recorrer_directorio_sin_repetidos (fs : FS) :
  nombres_validos fs → NoDup (map ruta (recorrer_directorio fs)).
Proof. apply recorrer_directorio_NoDup. Qed.

Lemma recorrer_directorio_sin_repetidos_witness :
  NoDup (map ruta (recorrer_directorio fs_homonimos)).
Proof.
  apply (recorrer_directorio_sin_repetidos fs_homonimos).
  apply (bool_decide_unpack _). by vm_compute.
Defined.

(** ** The quarantine *)

(** X13: [mover_a_cuarentena] touches the quarantine root and the findings
    only, whether the moves succeed or fail: a path that is neither the root
    or below it, nor a finding's path or below one, holds after the call what
    it held before. *)
Theorem mover_a_cuarentena_marco (sospechosos : list info) (w w' : Mundo)
    (destinos : list string) (p : Path) :
  mover_a_cuarentena sospechosos w = Vale (destinos, w') →
  ¬ RUTA_CUARENTENA `prefix_of` p →
  (∀ i, i ∈ sospechosos → ¬ ruta i `prefix_of` p) →
  mundo_fs w' !! p = mundo_fs w !! p.
Proof.
  unfold mover_a_cuarentena.
  destruct (asegurar_cuarentena w) as [w1|e] eqn:Hw; [|done].
  intros H Hp Hs.
  rewrite (mover_cada_uno_marco _ _ Hp _ _ _ _ H Hs).
  apply (asegurar_cuarentena_marco _ _ _ Hw). by intros ->.
Qed.

Lemma mover_a_cuarentena_marco_witness :
  mundo_fs (valor_o ([], mundo_de ∅)
              (mover_a_cuarentena [hallazgo_a] (mundo_con veto_origen fs_homonimos))).2
    !! ["Compartido"; "b"; "x.locked"]
  = mundo_fs (mundo_con veto_origen fs_homonimos) !! ["Compartido"; "b"; "x.locked"].
Proof.
  apply (mover_a_cuarentena_marco [hallazgo_a] (mundo_con veto_origen fs_homonimos)
           (valor_o ([], mundo_de ∅)
              (mover_a_cuarentena [hallazgo_a] (mundo_con veto_origen fs_homonimos))).2
           (valor_o ([], mundo_de ∅)
              (mover_a_cuarentena [hallazgo_a] (mundo_con veto_origen fs_homonimos))).1).
  - by vm_compute.
  - apply (bool_decide_unpack _). by vm_compute.
  - intros i ->%list_elem_of_singleton. apply (bool_decide_unpack _). by vm_compute.
Defined.

(** X14: when the findings have names, every destination returned by
    [mover_a_cuarentena] lies directly in the quarantine root, under the name
    of one of the findings or under that name with a clock reading inserted
    before the suffix. *)
Theorem mover_a_cuarentena_destinos (sospechosos : list info) (w w' : Mundo)
    (destinos : list string) :
  Forall (λ i, Path_name (ruta i) ≠ "") sospechosos →
  mover_a_cuarentena sospechosos w = Vale (destinos, w') →
  Forall (λ d, ∃ i m, i ∈ sospechosos ∧ d = str (RUTA_CUARENTENA ++ [m]) ∧
                      (m = Path_name (ruta i) ∨
                       ∃ t, m = nombre_con_sello (Path_name (ruta i)) t))
         destinos.
Proof.
  intros Hn. unfold mover_a_cuarentena.
  destruct (asegurar_cuarentena w) as [w1|e]; [|done].
  intros H.
  destruct (mover_cada_uno_destinos sospechosos Hn _ _ _ _ H) as (nuevos & Hd & HF).
  simpl in Hd. by subst destinos.
Qed.

Lemma mover_a_cuarentena_destinos_witness :
  Forall (λ d, ∃ i m, i ∈ [hallazgo_a; hallazgo_b] ∧
                      d = str (RUTA_CUARENTENA ++ [m]) ∧
                      (m = Path_name (ruta i) ∨
                       ∃ t, m = nombre_con_sello (Path_name (ruta i)) t))
         (valor_o ([], mundo_de ∅)
            (mover_a_cuarentena [hallazgo_a; hallazgo_b] (mundo_de fs_colision))).1.
Proof.
  apply (mover_a_cuarentena_destinos [hallazgo_a; hallazgo_b] (mundo_de fs_colision)
           (valor_o ([], mundo_de ∅)
              (mover_a_cuarentena [hallazgo_a; hallazgo_b] (mundo_de fs_colision))).2).
  - repeat constructor; discriminate.
  - by vm_compute.
Defined.



(** X16: the destination chosen for a finding whose name has a suffix keeps
    that suffix, with or without the clock reading inserted, so the
    extension check and the exclusion filter answer for the destination as
    they do for the source. *)
Theorem elegir_destino_conserva_extension (origen : Path) (w : Mundo) :
  Path_suffix origen ≠ "" →
  Path_suffix (elegir_destino origen w).1 = Path_suffix origen ∧
  extension_sospechosa (elegir_destino origen w).1 = extension_sospechosa origen ∧
  ignorado (elegir_destino origen w).1 = ignorado origen.
Proof.
  intros Hs.
  assert (Hn : Path_name origen ≠ "").
  { intros E. apply Hs. unfold Path_suffix. by rewrite E. }
  assert (Hs' : Path_suffix [Path_name origen] ≠ "") by done.
  destruct (existe (mundo_fs w) (RUTA_CUARENTENA ++ [Path_name origen])) eqn:He.
  - rewrite elegir_destino_ocupado by done. cbn [fst].
    set (t := mundo_reloj w (mundo_lecturas w)).
    destruct (nombre_con_sello_extension (Path_name origen) t Hs') as [Hsuf _].
    destruct (nombre_con_sello_patron (Path_name origen) t Hs') as [Hpat Hig].
    unfold extension_sospechosa, ignorado in *.
    rewrite Path_suffix_snoc, Path_name_snoc. by rewrite Hsuf, Hpat.
  - rewrite elegir_destino_libre by done. cbn [fst].
    unfold extension_sospechosa, ignorado.
    rewrite Path_suffix_snoc, Path_name_snoc. done.
Qed.

Lemma elegir_destino_conserva_extension_witness :
  Path_suffix (elegir_destino ["Compartido"; "a"; "x.locked"] (mundo_de fs_colision)).1
  = Path_suffix ["Compartido"; "a"; "x.locked"] ∧
  extension_sospechosa
    (elegir_destino ["Compartido"; "a"; "x.locked"] (mundo_de fs_colision)).1
  = extension_sospechosa ["Compartido"; "a"; "x.locked"] ∧
  ignorado (elegir_destino ["Compartido"; "a"; "x.locked"] (mundo_de fs_colision)).1
  = ignorado ["Compartido"; "a"; "x.locked"].
Proof.
  apply (elegir_destino_conserva_extension ["Compartido"; "a"; "x.locked"]
           (mundo_de fs_colision)).
  by vm_compute.
Defined.

(** X20: the destination of a finding with a name is the quarantine root
    joined with the name of the source and, when that exists, the root joined
    with the stem, an underscore, the clock reading and the suffix, where
    stem and suffix make up the name.  When the system refuses nothing, with
    the quarantine root a directory or absent, two distinct files of the same
    name are moved to two distinct entries of the root, each holding its file
    afterwards, provided the first timestamped name is free and either the
    plain name is free in the quarantine or the two clock readings differ and
    the second timestamped name is free too. *)
Theorem cuarentena_de_homonimos (w : Mundo) (i1 i2 : info) c1 l1 c2 l2 :
  let fs := mundo_fs w in
  let n := Path_name (ruta i1) in
  let t1 := mundo_reloj w (mundo_lecturas w) in
  let t2 := mundo_reloj w (S (mundo_lecturas w)) in
  nada_vedado w →
  (es_dir fs RUTA_CUARENTENA = true ∨ existe fs RUTA_CUARENTENA = false) →
  nodo_en fs (ruta i1) = Some (Fichero c1 l1) →
  nodo_en fs (ruta i2) = Some (Fichero c2 l2) →
  ruta i1 ≠ ruta i2 → Path_name (ruta i2) = n → n ≠ "" →
  existe fs (RUTA_CUARENTENA ++ [nombre_con_sello n t1]) = false →
  (existe fs (RUTA_CUARENTENA ++ [n]) = false ∨
   (t1 ≠ t2 ∧ existe fs (RUTA_CUARENTENA ++ [nombre_con_sello n t2]) = false)) →
  (∀ origen w0,
     Path_name origen ≠ "" →
     elegir_destino origen w0
     = if existe (mundo_fs w0) (RUTA_CUARENTENA ++ [Path_name origen])
       then (RUTA_CUARENTENA ++
               [nombre_con_sello (Path_name origen)
                  (mundo_reloj w0 (mundo_lecturas w0))],
             (datetime_now w0).2)
       else (RUTA_CUARENTENA ++ [Path_name origen], w0)) ∧
  (∀ nombre sello,
     nombre_con_sello nombre sello
     = Path_stem [nombre] +:+ "_" +:+ sello +:+ Path_suffix [nombre] ∧
     Path_stem [nombre] +:+ Path_suffix [nombre] = nombre) ∧
  ∃ m1 m2 w',
    mover_a_cuarentena [i1; i2] w
    = Vale ([str (RUTA_CUARENTENA ++ [m1]); str (RUTA_CUARENTENA ++ [m2])], w') ∧
    (m1 = n ∨ m1 = nombre_con_sello n t1) ∧
    (m2 = n ∨ m2 = nombre_con_sello n t1 ∨ m2 = nombre_con_sello n t2) ∧
    RUTA_CUARENTENA ++ [m1] ≠ RUTA_CUARENTENA ++ [m2] ∧
    str (RUTA_CUARENTENA ++ [m1]) ≠ str (RUTA_CUARENTENA ++ [m2]) ∧
    mundo_fs w' !! (RUTA_CUARENTENA ++ [m1]) = Some (Fichero c1 l1) ∧
    mundo_fs w' !! (RUTA_CUARENTENA ++ [m2]) = Some (Fichero c2 l2).
Proof.
  intros fs n t1 t2 Hnv HQ H1 H2 Hne Hn2 Hn Hd1 Hcaso.
  split; [|split].
  - intros origen w0 He.
    destruct (existe (mundo_fs w0) (RUTA_CUARENTENA ++ [Path_name origen])) eqn:Hx.
    + by apply elegir_destino_ocupado.
    + by apply elegir_destino_libre.
  - intros nombre sello. split; [done|]. apply (stem_suffix [nombre]).
  - assert (Hw1 : ∃ w1, asegurar_cuarentena w = Vale w1 ∧
                        mundo_reloj w1 = mundo_reloj w ∧
                        mundo_lecturas w1 = mundo_lecturas w ∧
                        nada_vedado w1 ∧
                        es_dir (mundo_fs w1) RUTA_CUARENTENA = true ∧
                        ∀ p, p ≠ RUTA_CUARENTENA →
                             nodo_en (mundo_fs w1) p = nodo_en fs p).
    { destruct HQ as [HQ|HQ].
      - exists w. split_and!; try done.
        by apply asegurar_cuarentena_existe, es_dir_existe.
      - rewrite asegurar_cuarentena_ausente, Hnv by done.
        eexists. split; [done|]. cbn [con_fs mundo_reloj mundo_lecturas mundo_fs].
        split_and!; try done.
        + unfold es_dir, nodo_en, RUTA_CUARENTENA. by rewrite lookup_insert_eq.
        + intros p Hp. by apply nodo_en_insert_ne. }
    destruct Hw1 as (w1 & Hw & Hr & Hl & Hnv1 & Hdir & Higual).
    assert (Hno : ∀ p x, nodo_en fs p = Some (Fichero x.1 x.2) → p ≠ RUTA_CUARENTENA).
    { intros p x Hp ->. destruct HQ as [HQ|HQ].
      - unfold es_dir in HQ. by rewrite Hp in HQ.
      - unfold existe in HQ. by rewrite Hp in HQ. }
    assert (Hnom : ∀ m, RUTA_CUARENTENA ++ [m] ≠ RUTA_CUARENTENA).
    { intros m E. by apply (f_equal length) in E. }
    assert (Hex : ∀ m, existe (mundo_fs w1) (RUTA_CUARENTENA ++ [m])
                       = existe fs (RUTA_CUARENTENA ++ [m])).
    { intros m. unfold existe. by rewrite Higual. }
    destruct (dos_homonimos w1 i1 i2 c1 l1 c2 l2)
      as (m1 & m2 & w' & Hm & Hm1 & Hm2 & Hdist & L1 & L2).
    + done.
    + done.
    + rewrite Higual; [done|]. apply (Hno _ (c1, l1)). done.
    + rewrite Higual; [done|]. apply (Hno _ (c2, l2)). done.
    + done.
    + done.
    + done.
    + by rewrite Hex, Hr, Hl.
    + rewrite !Hex, Hr, Hl. done.
    + rewrite Hr, Hl in Hm1, Hm2. fold n t1 t2 in Hm1, Hm2.
      exists m1, m2, w'. unfold mover_a_cuarentena. rewrite Hw, Hm.
      split_and!; try done.
      * intros H%snoc_inj. done.
      * intros H%str_cuarentena_inj. done.
Qed.

Lemma cuarentena_de_homonimos_witness :
  ∃ m1 m2 w',
    mover_a_cuarentena [hallazgo_a; hallazgo_b] (mundo_de fs_homonimos)
    = Vale ([str (RUTA_CUARENTENA ++ [m1]); str (RUTA_CUARENTENA ++ [m2])], w') ∧
    str (RUTA_CUARENTENA ++ [m1]) ≠ str (RUTA_CUARENTENA ++ [m2]) ∧
    mundo_fs w' !! (RUTA_CUARENTENA ++ [m1]) = Some (Fichero ["001"%byte] true) ∧
    mundo_fs w' !! (RUTA_CUARENTENA ++ [m2]) = Some (Fichero ["002"%byte] true).
Proof.
  destruct (cuarentena_de_homonimos (mundo_de fs_homonimos) hallazgo_a hallazgo_b
              ["001"%byte] true ["002"%byte] true)
    as (_ & _ & m1 & m2 & w' & Hm & _ & _ & _ & Hstr & L1 & L2).
  - by intros c.
  - left. vm_compute; reflexivity.
  - vm_compute; reflexivity.
  - vm_compute; reflexivity.
  - discriminate.
  - reflexivity.
  - discriminate.
  - vm_compute; reflexivity.
  - left. vm_compute; reflexivity.
  - by exists m1, m2, w'.
Defined.

(** ** The whole run *)



(** X18: under the same conditions a second run finds nothing to do: after
    [main], the scan of the resulting file system is empty, so running
    [main] again reports no finding, moves nothing, prints nothing and
    leaves the file system as it is. *)
Theorem main_segunda_pasada (w : Mundo) :
  nada_vedado w →
  nombres_validos (mundo_fs w) →
  (es_dir (mundo_fs w) RUTA_CUARENTENA = true ∨
   existe (mundo_fs w) RUTA_CUARENTENA = false) →
  cuarentena_sin_directorios (mundo_fs w) →
  ∃ e, main w = Vale e ∧
       recorrer_directorio (mundo_fs (ej_mundo e)) = [] ∧
       ∃ e2, main (ej_mundo e) = Vale e2 ∧
             ej_sospechosos e2 = [] ∧ ej_destinos e2 = [] ∧
             mundo_fs (ej_mundo e2) = mundo_fs (ej_mundo e) ∧
             mundo_salida (ej_mundo e2) = mundo_salida (ej_mundo e).
Proof.
  intros Hnv Hv HQ Hsd.
  pose proof (recorrer_directorio_movibles _ Hv) as Hmov.
  destruct (mover_a_cuarentena_todos (recorrer_directorio (mundo_fs w))
              (con_hallazgos w (recorrer_directorio (mundo_fs w)))
              Hnv HQ Hsd Hmov (recorrer_directorio_NoDup _ Hv))
    as (destinos & w' & Hm & Hlen & Hsal & Hdir & Hgone & Hframe & Hval & _ & _).
  cbn [con_hallazgos mundo_fs mundo_salida mundo_hallazgos] in *.
  assert (Hscan : recorrer_directorio (mundo_fs w') = []).
  { apply (segunda_pasada (mundo_fs w)); auto. }
  eexists. unfold main at 1. cbn [con_hallazgos mundo_hallazgos]. rewrite Hm.
  split; [done|]. cbn [ej_mundo].
  split; [done|]. eexists. unfold main. rewrite Hscan.
  cbn [con_hallazgos mundo_hallazgos]. unfold mover_a_cuarentena.
  rewrite asegurar_cuarentena_existe by (by apply es_dir_existe).
  cbn [mover_cada_uno]. by split_and!.
Qed.

Lemma main_segunda_pasada_witness :
  ∃ e, main (mundo_de fs_homonimos) = Vale e ∧
       recorrer_directorio (mundo_fs (ej_mundo e)) = [] ∧
       ∃ e2, main (ej_mundo e) = Vale e2 ∧
             ej_sospechosos e2 = [] ∧ ej_destinos e2 = [] ∧
             mundo_fs (ej_mundo e2) = mundo_fs (ej_mundo e) ∧
             mundo_salida (ej_mundo e2) = mundo_salida (ej_mundo e).
Proof.
  apply (main_segunda_pasada (mundo_de fs_homonimos)).
  - by intros c.
  - apply (bool_decide_unpack _). by vm_compute.
  - left. by vm_compute.
  - apply (bool_decide_unpack _). by vm_compute.
Defined.

(** ** When the quarantine cannot be used *)

(** X19: when the quarantine path is taken by a regular file of a well-formed
    file system, [mover_a_cuarentena] moves nothing: it returns no
    destination, leaves the file system as it is and prints one error line
    per finding. *)
Theorem mover_a_cuarentena_sin_directorio (sospechosos : list info) (w : Mundo)
    (c : list byte) (l : bool) :
  bien_formado (mundo_fs w) = true →
  nodo_en (mundo_fs w) RUTA_CUARENTENA = Some (Fichero c l) →
  ∃ w', mover_a_cuarentena sospechosos w = Vale ([], w') ∧
        mundo_fs w' = mundo_fs w ∧
        length (mundo_salida w') = (length (mundo_salida w) + length sospechosos)%nat.
Proof.
  intros Hb HQ. unfold mover_a_cuarentena.
  rewrite asegurar_cuarentena_existe by (unfold existe; by rewrite HQ).
  destruct (mover_cada_uno_sin_directorio sospechosos c l [] w Hb HQ)
    as (w' & H1 & H2 & H3).
  by exists w'.
Qed.

Lemma mover_a_cuarentena_sin_directorio_witness :
  ∃ w', mover_a_cuarentena [hallazgo_ilegible] (mundo_de fs_cuarentena_ocupada)
        = Vale ([], w') ∧
        mundo_fs w' = mundo_fs (mundo_de fs_cuarentena_ocupada) ∧
        length (mundo_salida w')
        = (length (mundo_salida (mundo_de fs_cuarentena_ocupada))
           + length [hallazgo_ilegible])%nat.
Proof.
  apply (mover_a_cuarentena_sin_directorio [hallazgo_ilegible]
           (mundo_de fs_cuarentena_ocupada) [] true).
  - by vm_compute.
  - by vm_compute.
Defined.
